(** * GAN evaluation metrics (FID, IS) and the contracting block

    A shallow embedding of
      - [src/utils/metrics/fid.py]   ([_frechet_distance], class [FID]),
      - [src/utils/metrics/is_.py]   (class [IS], torch version),
      - [src/utils/metrics/is.py]    (class [IS], numpy / scipy version),
      - [src/modules/partial/encoding.py] ([ContractingBlock.__init__]).

    Conventions of the embedding.
      - A tensor element is an [xreal]: an exact real, or one of the IEEE 754
        special values +inf, -inf, NaN.  Finite arithmetic is exact (rounding,
        overflow and underflow are not modelled, and neither is the sign of
        zero); the special values follow IEEE 754 as torch and numpy do.
      - A 1-D tensor is a [list xreal], a 2-D tensor the list of its rows.
        The list [[]] of no rows stands for the shape (0, 0).
      - A Python exception is a value of [exn]; code that may raise returns a
        [result].  Methods run in the monad [M] that threads the calculator
        instance and the state of the random generator.
      - Image tensors, the Inception network, the generator, the transforms
        and the helpers of [utils.torch] / [utils.train] (not part of the
        sources at hand) are the fields of the class [Env]. *)

From Stdlib Require Import String Reals Lra Lia ZArith Bool Arith List.
Import ListNotations.

Set Implicit Arguments.

(** ** Exceptions and results *)

(** Who executed the [raise]: code inside the numerical libraries (torch,
    torchvision, numpy, scipy, or a module / transform handed in by the
    caller), or the Python interpreter evaluating a built-in operation. *)
Inductive exn : Type :=
| LibraryError (msg : string)
| ZeroDivisionError
| TypeError
| IndexError
| AttributeError
| KeyError.

Definition result (A : Type) : Type := (exn + A)%type.

Class Monad (m : Type -> Type) : Type := {
  ret : forall {A : Type}, A -> m A;
  bind : forall {A B : Type}, m A -> (A -> m B) -> m B
}.

Declare Scope monad_scope.
Delimit Scope monad_scope with monad.
Notation "x <- c1 ;; c2" := (bind c1 (fun x => c2))
  (at level 61, c1 at next level, right associativity) : monad_scope.
Notation "' pat <- c1 ;; c2" := (bind c1 (fun x => match x with pat => c2 end))
  (at level 61, pat pattern, c1 at next level, right associativity) : monad_scope.
Notation "c1 ;; c2" := (bind c1 (fun _ => c2))
  (at level 61, right associativity) : monad_scope.
Open Scope monad_scope.

#[global] Instance Monad_result : Monad result := {
  ret := fun A (a : A) => inr a;
  bind := fun A B (c : result A) (k : A -> result B) =>
            match c with
            | inl e => inl e
            | inr a => k a
            end
}.

(** [mapM f l]: the list comprehension [[f(x) for x in l]]; the first
    exception ends it. *)
Fixpoint mapM {A B : Type} (f : A -> result B) (l : list A) : result (list B) :=
  match l with
  | [] => inr []
  | a :: l' =>
      match f a with
      | inl e => inl e
      | inr b =>
          match mapM f l' with
          | inl e => inl e
          | inr bs => inr (b :: bs)
          end
      end
  end.

(** ** Tensor elements *)

Inductive xreal : Type :=
| Fin (r : R)
| PInf
| NInf
| NaN.

Definition Rsign (r : R) : comparison :=
  match total_order_T r 0 with
  | inleft (left _) => Lt
  | inleft (right _) => Eq
  | inright _ => Gt
  end.

Definition xneg (x : xreal) : xreal :=
  match x with
  | Fin r => Fin (- r)
  | PInf => NInf
  | NInf => PInf
  | NaN => NaN
  end.

Definition xadd (x y : xreal) : xreal :=
  match x, y with
  | NaN, _ | _, NaN => NaN
  | Fin a, Fin b => Fin (a + b)
  | PInf, NInf | NInf, PInf => NaN
  | PInf, _ | _, PInf => PInf
  | NInf, _ | _, NInf => NInf
  end.

Definition xsub (x y : xreal) : xreal := xadd x (xneg y).

(** The infinity of the sign [s]; [0 * inf] is NaN. *)
Definition xinf_of_sign (s : comparison) : xreal :=
  match s with
  | Gt => PInf
  | Lt => NInf
  | Eq => NaN
  end.

Definition xmul (x y : xreal) : xreal :=
  match x, y with
  | NaN, _ | _, NaN => NaN
  | Fin a, Fin b => Fin (a * b)
  | Fin a, PInf | PInf, Fin a => xinf_of_sign (Rsign a)
  | Fin a, NInf | NInf, Fin a => xinf_of_sign (CompOpp (Rsign a))
  | PInf, PInf | NInf, NInf => PInf
  | PInf, NInf | NInf, PInf => NInf
  end.

(** Division; a zero divisor counts as +0. *)
Definition xdiv (x y : xreal) : xreal :=
  match x, y with
  | NaN, _ | _, NaN => NaN
  | Fin a, Fin b =>
      match Rsign b with
      | Eq => xinf_of_sign (Rsign a)
      | _ => Fin (a / b)
      end
  | Fin _, PInf | Fin _, NInf => Fin 0
  | PInf, Fin b => match Rsign b with Lt => NInf | _ => PInf end
  | NInf, Fin b => match Rsign b with Lt => PInf | _ => NInf end
  | _, _ => NaN
  end.

(** [x ** 2] *)
Definition xpow2 (x : xreal) : xreal := xmul x x.

Definition xsqrt (x : xreal) : xreal :=
  match x with
  | Fin r => match Rsign r with Lt => NaN | _ => Fin (sqrt r) end
  | PInf => PInf
  | NInf | NaN => NaN
  end.

(** Natural logarithm: [log 0 = -inf], NaN below zero. *)
Definition xlog (x : xreal) : xreal :=
  match x with
  | Fin r =>
      match Rsign r with
      | Gt => Fin (ln r)
      | Eq => NInf
      | Lt => NaN
      end
  | PInf => PInf
  | NInf | NaN => NaN
  end.

Definition xexp (x : xreal) : xreal :=
  match x with
  | Fin r => Fin (exp r)
  | PInf => PInf
  | NInf => Fin 0
  | NaN => NaN
  end.

Definition xsum (l : list xreal) : xreal := fold_right xadd (Fin 0) l.

Definition xof_nat (n : nat) : xreal := Fin (INR n).

(** The arithmetic mean of a list: [sum / len]; NaN ([0 / 0]) on no elements. *)
Definition xmean (l : list xreal) : xreal := xdiv (xsum l) (xof_nat (length l)).

(** ** 1-D and 2-D tensors *)

Abbreviation Vector := (list xreal) (only parsing).
Abbreviation Matrix := (list (list xreal)) (only parsing).

Definition shape_error : exn :=
  LibraryError "The size of tensor a must match the size of tensor b".

Definition map2 {A B C : Type} (f : A -> B -> C) (u : list A) (v : list B) : list C :=
  map (fun p => f (fst p) (snd p)) (combine u v).

(** An element-wise binary operation on 1-D tensors: equal sizes, or one of
    them of size 1 (broadcast); anything else raises. *)
Definition bcast1 (f : xreal -> xreal -> xreal) (u v : Vector) : result Vector :=
  if Nat.eqb (length u) (length v) then inr (map2 f u v)
  else match u, v with
       | [a], _ => inr (map (f a) v)
       | _, [b] => inr (map (fun x => f x b) u)
       | _, _ => inl shape_error
       end.

(** The same on 2-D tensors: the row dimension broadcasts like the column one. *)
Definition bcast2 (f : xreal -> xreal -> xreal) (A B : Matrix) : result Matrix :=
  if Nat.eqb (length A) (length B)
  then mapM (fun p => bcast1 f (fst p) (snd p)) (combine A B)
  else match A, B with
       | [r], _ => mapM (fun s => bcast1 f r s) B
       | _, [s] => mapM (fun r => bcast1 f r s) A
       | _, _ => inl shape_error
       end.

(** [c * A] for a Python number [c]. *)
Definition scale (c : xreal) (A : Matrix) : Matrix := map (map (xmul c)) A.

(** [torch.norm(v)]: the 2-norm. *)
Definition torch_norm (v : Vector) : xreal := xsqrt (xsum (map xpow2 v)).

(** The diagonal [A[i][i], A[i+1][i+1], ...] as far as rows and columns go. *)
Fixpoint diag_from (i : nat) (A : Matrix) : list xreal :=
  match A with
  | [] => []
  | row :: A' =>
      match nth_error row i with
      | Some x => x :: diag_from (S i) A'
      | None => []
      end
  end.

(** [torch.trace(A)] *)
Definition torch_trace (A : Matrix) : xreal := xsum (diag_from 0 A).

Definition dot (u v : Vector) : xreal := xsum (map2 xmul u v).

Definition width (A : Matrix) : nat := length (hd [] A).

Definition column (j : nat) (A : Matrix) : Vector := map (fun row => nth j row NaN) A.

Definition transpose (A : Matrix) : Matrix := map (fun j => column j A) (seq 0 (width A)).

(** The product of conforming matrices. *)
Definition matprod (A B : Matrix) : Matrix :=
  map (fun row => map (dot row) (transpose B)) A.

(** [A @ B]: raises unless every row of [A] is as long as [B] has rows. *)
Definition matmul (A B : Matrix) : result Matrix :=
  if forallb (fun row => Nat.eqb (length row) (length B)) A
  then inr (matprod A B)
  else inl (LibraryError "mat1 and mat2 shapes cannot be multiplied").

(** [torch.mean(A, dim=0)]: the mean of every column. *)
Definition torch_mean0 (A : Matrix) : Vector :=
  map (fun j => xmean (column j A)) (seq 0 (width A)).

(** [A] has [r] rows of [c] elements each. *)
Definition is_matrix (r c : nat) (A : Matrix) : Prop :=
  length A = r /\ Forall (fun row => length row = c) A.

Definition entry (A : Matrix) (i j : nat) : xreal := nth j (nth i A []) NaN.

(** ** Python values and built-in operations *)

(** What a data loader yields and what a generator returns: one tensor, or a
    tuple / list of tensors. *)
Inductive pyval (T : Type) : Type :=
| PTensor (t : T)
| PList (l : list T).

Arguments PTensor {T} t.
Arguments PList {T} l.

(** [l[i]] on a Python list or tuple: a negative index counts from the end,
    an index out of range raises [IndexError]. *)
Definition list_getitem {A : Type} (l : list A) (i : Z) : result A :=
  let n := Z.of_nat (length l) in
  let j := if (i <? 0)%Z then (i + n)%Z else i in
  if ((0 <=? j)%Z && (j <? n)%Z)%bool
  then match nth_error l (Z.to_nat j) with
       | Some a => inr a
       | None => inl IndexError
       end
  else inl IndexError.

(** [a // b] on Python integers. *)
Definition py_floordiv (a b : Z) : result Z :=
  if (b =? 0)%Z then inl ZeroDivisionError else inr (a / b)%Z.

(** ** The environment: torch, torchvision and the helpers not at hand *)

Class Env : Type := {
  (** a [torch.Tensor] of images or of noise; what it holds is opaque *)
  Tensor : Type;
  (** [len(t)]: the size of dimension 0 *)
  tensor_len : Tensor -> result Z;
  (** [t[i]] *)
  tensor_getitem : Tensor -> Z -> result Tensor;
  (** iterating [t], as the call [f( *t )] does: its slices along dimension 0 *)
  tensor_iter : Tensor -> result (list Tensor);
  (** the state of torch's random generator *)
  RNG : Type;
  (** [torch.randn(n, z_dim)] *)
  torch_randn : Z -> option Z -> RNG -> result Tensor * RNG;
  (** whether [t.to(device)] finds the device *)
  device_available : string -> bool;
  (** [torch.cuda.is_available()] *)
  cuda_is_available : bool;
  Dataset : Type;
  (** [DataLoader(dataset=, batch_size=, shuffle=True)], iterated to the end *)
  DataLoader : Dataset -> Z -> RNG -> result (list (pyval Tensor)) * RNG;
  (** [FID.InceptionV3Transforms]: Resize, CenterCrop, ToTensorOrPass, Normalize *)
  InceptionV3Transforms : Tensor -> result Tensor;
  (** [utils.torch.invert_transforms] *)
  invert_transforms : (Tensor -> result Tensor) -> result (Tensor -> result Tensor);
  (** [utils.torch.matrix_sqrt] *)
  matrix_sqrt : Matrix -> result Matrix;
  (** [utils.torch.cov] *)
  cov : Matrix -> result Matrix;
  (** the parameters (state dict) of an Inception v3 network *)
  Params : Type;
  (** [inception_v3(pretrained=False, init_weights=False)] *)
  inception_v3_params : Params;
  (** [utils.train.load_model_chkpt(model=, model_name=, chkpts_root=)] *)
  load_model_chkpt : Params -> string -> string -> result Params;
  (** Inception v3 in eval mode up to its pooled 2048 features *)
  inception_features : Params -> Tensor -> result Matrix;
  (** its last layer [fc = Linear(2048, 1000)] *)
  inception_fc : Params -> Matrix -> result Matrix;
  (** ['google.colab' in sys.modules] *)
  colab_in_sys_modules : bool;
  (** ['google.colab' in str(get_ipython())] *)
  colab_in_ipython : bool;
  (** ['COLAB_GPU' in os.environ] *)
  colab_gpu_in_environ : bool
}.

Definition Transform {E : Env} : Type := Tensor -> result Tensor.

(** A generator network: [gen( *args )] in training or in eval mode. *)
Record Generator {E : Env} : Type := {
  gen_training : bool;
  gen_forward : bool -> list Tensor -> result (pyval Tensor)
}.

Definition gen_call {E : Env} (gen : Generator) (args : list Tensor) : result (pyval Tensor) :=
  gen_forward gen (gen_training gen) args.

(** [gen.eval()] *)
Definition gen_eval {E : Env} (gen : Generator) : Generator :=
  {| gen_training := false; gen_forward := gen_forward gen |}.

(** ** fid.py: [_frechet_distance] *)

Section FrechetDistance.
Context {E : Env}.

(** [torch.norm(x_mean - y_mean) ** 2
     + torch.trace(x_cov + y_cov - 2 * matrix_sqrt(x_cov @ y_cov))] *)
Definition _frechet_distance (x_mean y_mean : Vector) (x_cov y_cov : Matrix)
  : result xreal :=
  d <- bcast1 xsub x_mean y_mean ;;
  let sq := xpow2 (torch_norm d) in
  s <- bcast2 xadd x_cov y_cov ;;
  p <- matmul x_cov y_cov ;;
  r <- matrix_sqrt p ;;
  t <- bcast2 xsub s (scale (Fin 2) r) ;;
  ret (xadd sq (torch_trace t)).

End FrechetDistance.

(** The closed form over indices: the sum of [(x_i - y_i)^2] plus the sum of
    [X_ii + Y_ii - 2 * S_ii]. *)
Definition squared_euclidean_distance (n : nat) (x y : Vector) : xreal :=
  xsum (map (fun i => xpow2 (xsub (nth i x NaN) (nth i y NaN))) (seq 0 n)).

Definition trace_of_combination (n : nat) (X Y S : Matrix) : xreal :=
  xsum (map (fun i => xsub (xadd (entry X i i) (entry Y i i))
                           (xmul (Fin 2) (entry S i i))) (seq 0 n)).

(** ** The Inception network and the calculator instance *)

(** The last layer of the network: the classification layer it is built
    with, or [nn.Identity()]. *)
Inductive FcLayer : Type :=
| Linear_2048_1000
| Identity.

(** A [torchvision.models.Inception3] in eval mode. *)
Record InceptionV3 {E : Env} : Type := {
  params : Params;
  fc : FcLayer;
  on_device : string
}.

(** [net(x)] *)
Definition inception_call {E : Env} (net : InceptionV3) (x : Tensor) : result Matrix :=
  f <- inception_features (params net) x ;;
  match fc net with
  | Linear_2048_1000 => inception_fc (params net) f
  | Identity => ret f
  end.

Definition softmax_row (v : Vector) : Vector :=
  let e := map xexp v in
  map (fun x => xdiv x (xsum e)) e.

(** [nn.Softmax(dim)] on a 2-D tensor. *)
Definition torch_softmax (dim : Z) (m : Matrix) : result Matrix :=
  if ((dim =? 1) || (dim =? -1))%Z then inr (map softmax_row m)
  else if ((dim =? 0) || (dim =? -2))%Z then inr (transpose (map softmax_row (transpose m)))
  else inl (LibraryError "Dimension out of range").

(** [nn.Sequential(net, nn.Softmax(dim))] *)
Record InceptionSM {E : Env} : Type := {
  sm_net : InceptionV3;
  sm_dim : Z
}.

Definition inception_sm_call {E : Env} (sm : InceptionSM) (x : Tensor) : result Matrix :=
  logits <- inception_call (sm_net sm) x ;;
  torch_softmax (sm_dim sm) logits.

(** Which progress bar [self.tqdm] is. *)
Inductive TqdmKind : Type :=
| tqdm_std
| tqdm_nb.

(** The attributes of a [FID] instance; an [IS] instance has [inception_sm]
    as well. *)
Record Instance {E : Env} : Type := {
  inside_colab : bool;
  tqdm : TqdmKind;
  inception : InceptionV3;
  device : string;
  n_samples : Z;
  batch_size : Z;
  inception_sm : option InceptionSM
}.

(** The assignment [self.inception_sm = sm]. *)
Definition set_inception_sm {E : Env} (self : Instance) (sm : InceptionSM) : Instance :=
  {| inside_colab := inside_colab self; tqdm := tqdm self; inception := inception self;
     device := device self; n_samples := n_samples self; batch_size := batch_size self;
     inception_sm := Some sm |}.

(** ** The method monad: the instance, the random generator, exceptions *)

Record World {E : Env} : Type := {
  self : Instance;
  rng : RNG
}.

Definition M {E : Env} (A : Type) : Type := World -> result A * World.

#[global] Instance Monad_M {E : Env} : Monad M := {
  ret := fun A (a : A) (w : World) => (inr a, w);
  bind := fun A B (c : M A) (k : A -> M B) (w : World) =>
            match c w with
            | (inl e, w') => (inl e, w')
            | (inr a, w') => k a w'
            end
}.

(** A computation that touches neither the instance nor the generator. *)
Definition lift {E : Env} {A : Type} (c : result A) : M A := fun w => (c, w).

(** Reading an attribute of [self]. *)
Definition self_attr {E : Env} {A : Type} (f : Instance -> A) : M A :=
  fun w => (inr (f (self w)), w).

(** Drawing from the random generator. *)
Definition with_rng {E : Env} {A : Type} (f : RNG -> result A * RNG) : M A :=
  fun w => let (r, g) := f (rng w) in (r, {| self := self w; rng := g |}).

(** ** Operations on what the loader yields *)

Section Values.
Context {E : Env}.

(** [v[i]] *)
Definition py_getitem (v : pyval Tensor) (i : Z) : result Tensor :=
  match v with
  | PTensor t => tensor_getitem t i
  | PList l => list_getitem l i
  end.

(** [len(v)] *)
Definition py_len (v : pyval Tensor) : result Z :=
  match v with
  | PTensor t => tensor_len t
  | PList l => inr (Z.of_nat (length l))
  end.

(** [t.to(device)] on a tensor. *)
Definition tensor_to (t : Tensor) (dev : string) : result Tensor :=
  if device_available dev then inr t
  else inl (LibraryError "Expected one of cpu, cuda, ... device type").

(** [v.to(device)]: a list has no such attribute. *)
Definition py_to (v : pyval Tensor) (dev : string) : result Tensor :=
  match v with
  | PTensor t => tensor_to t dev
  | PList _ => inl AttributeError
  end.

(** [torch.cuda.empty_cache()] *)
Definition torch_cuda_empty_cache : result unit := inr tt.

(** [torch.cat(l, dim=0)] on 2-D tensors. *)
Definition torch_cat (l : list Matrix) : result Matrix :=
  match l with
  | [] => inl (LibraryError "torch.cat(): expected a non-empty list of Tensors")
  | _ =>
      let rows := concat l in
      if forallb (fun row => Nat.eqb (length row) (width rows)) rows
      then inr rows
      else inl (LibraryError "Sizes of tensors must match except in dimension 0")
  end.

(** [torch.stack(l)] on scalars. *)
Definition torch_stack (l : list xreal) : result Vector :=
  match l with
  | [] => inl (LibraryError "stack expects a non-empty TensorList")
  | _ => inr l
  end.

End Values.

(** The argument [condition_indices: Optional[Union[int, tuple]]]. *)
Inductive CondIdx : Type :=
| CondInt (i : Z)
| CondTuple (l : list Z).

(** [for _i in condition_indices]: an int is not iterable. *)
Definition cond_iter (c : CondIdx) : result (list Z) :=
  match c with
  | CondInt _ => inl TypeError
  | CondTuple l => inr l
  end.

(** [for x in l: if stop: break; body]: the loop of the three metric
    methods, with its state [S] (the running count and the lists). *)
Fixpoint for_until {E : Env} {A S : Type} (stop : S -> M bool) (body : A -> S -> M S)
  (l : list A) (st : S) : M S :=
  match l with
  | [] => ret st
  | x :: l' =>
      b <- stop st ;;
      if b : bool then ret st
      else st' <- body x st ;; for_until stop body l' st'
  end.

(** The arguments of the call [gen( *gen_inputs )]. *)
Definition star_args {E : Env} (gen_inputs : pyval Tensor) : result (list Tensor) :=
  match gen_inputs with
  | PList l => inr l
  | PTensor t => tensor_iter t
  end.

(** [if type(fake_output) == tuple or type(fake_output) == list:
       fake_output = fake_output[-1]] *)
Definition last_output {E : Env} (fake_output : pyval Tensor) : result Tensor :=
  match fake_output with
  | PList l => list_getitem l (-1)
  | PTensor t => inr t
  end.

(** ** fid.py: class [FID] *)

Module FID.
Section FID.
Context {E : Env}.

Definition default_chkpts_root : string :=
  "/home/achariso/PycharmProjects/gans-thesis/.checkpoints".

(** [FID.__init__]; an argument left out is [None] here and takes its
    default. *)
Definition __init__ (chkpts_root device : option string) (n_samples batch_size : option Z)
  (crop_fc : option bool) : result Instance :=
  let chkpts_root := match chkpts_root with Some s => s | None => default_chkpts_root end in
  let device := match device with Some s => s | None => "cpu"%string end in
  let n_samples := match n_samples with Some n => n | None => 512%Z end in
  let batch_size := match batch_size with Some n => n | None => 8%Z end in
  let crop_fc := match crop_fc with Some b => b | None => true end in
  let inside_colab := (colab_in_sys_modules || colab_in_ipython || colab_gpu_in_environ)%bool in
  let device := if inside_colab then "cuda"%string else device in
  let tqdm := if inside_colab then tqdm_nb else tqdm_std in
  (* Instantiate Inception v3 model *)
  let inception := {| params := inception_v3_params; fc := Linear_2048_1000;
                      on_device := "cpu"%string |} in
  p <- load_model_chkpt (params inception) "inception_v3" chkpts_root ;;
  let inception := {| params := p; fc := fc inception; on_device := on_device inception |} in
  inception <- (if device_available device
                then inr {| params := params inception; fc := fc inception;
                            on_device := device |}
                else inl (LibraryError "Expected one of cpu, cuda, ... device type")) ;;
  (* Cutoff FC layer from Inception model *)
  let inception := if crop_fc
                   then {| params := params inception; fc := Identity;
                           on_device := on_device inception |}
                   else inception in
  (* Save params in instance *)
  ret {| inside_colab := inside_colab; tqdm := tqdm; inception := inception;
         device := device; n_samples := n_samples; batch_size := batch_size;
         inception_sm := None |}.

(** The variables of the loop of [get_embeddings]. *)
Record LoopState : Type := {
  cur_samples : Z;
  real_embeddings_list : list Matrix;
  fake_embeddings_list : list Matrix
}.

Section GetEmbeddings.
Variables (gen : Generator) (gen_transforms gen_transforms_inv : Transform)
          (target_index : option Z) (condition_indices : option CondIdx)
          (z_dim : option Z).

(** [if cur_samples >= self.n_samples: break] *)
Definition loop_stop (st : LoopState) : M bool :=
  n <- self_attr n_samples ;;
  ret (cur_samples st >=? n)%Z.

(** One turn of the loop, after the test. *)
Definition loop_body (real_samples : pyval Tensor) (st : LoopState) : M LoopState :=
  (* Compute real embeddings *)
  target_output <- lift (match target_index with
                         | Some i => t <- py_getitem real_samples i ;; ret (PTensor t)
                         | None => ret real_samples
                         end) ;;
  dev <- self_attr device ;;
  target_output <- lift (py_to target_output dev) ;;
  net <- self_attr inception ;;
  x <- lift (InceptionV3Transforms target_output) ;;
  real_embeddings <- lift (inception_call net x) ;;
  let real_embeddings_list := real_embeddings_list st ++ [real_embeddings] in
  cur_batch_size <- lift (tensor_len target_output) ;;
  (* Compute fake embeddings *)
  gen_inputs <- match condition_indices with
                | Some c =>
                    idxs <- lift (cond_iter c) ;;
                    l <- lift (mapM (py_getitem real_samples) idxs) ;;
                    dev <- self_attr device ;;
                    l' <- lift (mapM (fun gen_input => t <- gen_transforms gen_input ;;
                                                       tensor_to t dev) l) ;;
                    ret (PList l')
                | None =>
                    t <- with_rng (torch_randn cur_batch_size z_dim) ;;
                    dev <- self_attr device ;;
                    t' <- lift (tensor_to t dev) ;;
                    ret (PTensor t')
                end ;;
  args <- lift (star_args gen_inputs) ;;
  fake_output <- lift (gen_call gen args) ;;
  fake_output <- lift (last_output fake_output) ;;
  fake_output <- lift (gen_transforms_inv fake_output) ;;
  net <- self_attr inception ;;
  y <- lift (InceptionV3Transforms fake_output) ;;
  fake_embeddings <- lift (inception_call net y) ;;
  let fake_embeddings_list := fake_embeddings_list st ++ [fake_embeddings] in
  ret {| cur_samples := (cur_samples st + cur_batch_size)%Z;
         real_embeddings_list := real_embeddings_list;
         fake_embeddings_list := fake_embeddings_list |}.

End GetEmbeddings.

(** [FID.get_embeddings]; the data loader is the list of what it yields. *)
Definition get_embeddings (dataloader : list (pyval Tensor)) (gen : Generator)
  (gen_transforms : Transform) (target_index : option Z)
  (condition_indices : option CondIdx) (z_dim : option Z) : M (Matrix * Matrix) :=
  gen_transforms_inv <- lift (invert_transforms gen_transforms) ;;
  let st := {| cur_samples := 0; real_embeddings_list := [];
               fake_embeddings_list := [] |} in
  n <- self_attr n_samples ;;
  b <- self_attr batch_size ;;
  total <- lift (py_floordiv n b) ;;
  st <- for_until loop_stop
          (loop_body gen gen_transforms gen_transforms_inv target_index
                     condition_indices z_dim)
          dataloader st ;;
  real_embeddings <- lift (torch_cat (real_embeddings_list st)) ;;
  fake_embeddings <- lift (torch_cat (fake_embeddings_list st)) ;;
  ret (real_embeddings, fake_embeddings).

(** [FID.forward] *)
Definition forward (dataset : Dataset) (gen : Generator) (gen_transforms : Transform)
  (target_index : option Z) (condition_indices : option CondIdx) (z_dim : option Z)
  : M xreal :=
  b <- self_attr batch_size ;;
  dataloader <- with_rng (DataLoader dataset b) ;;
  dev <- self_attr device ;;
  (if (String.eqb dev "cuda" && cuda_is_available)%bool
   then lift torch_cuda_empty_cache else ret tt) ;;
  '(real_embeddings, fake_embeddings) <-
     get_embeddings dataloader gen gen_transforms target_index condition_indices z_dim ;;
  (* Compute sample means and covariance matrices *)
  let real_embeddings_mean := torch_mean0 real_embeddings in
  let fake_embeddings_mean := torch_mean0 fake_embeddings in
  real_embeddings_cov <- lift (cov real_embeddings) ;;
  fake_embeddings_cov <- lift (cov fake_embeddings) ;;
  lift (_frechet_distance real_embeddings_mean fake_embeddings_mean
                          real_embeddings_cov fake_embeddings_cov).

End FID.
End FID.

(** ** is_.py: class [IS] over torch tensors *)

Module IS_.
Section IS_.
Context {E : Env}.

(** [IS.__init__] of is_.py *)
Definition __init__ (chkpts_root : option string) (n_samples batch_size : option Z)
  (device : option string) : result Instance :=
  let chkpts_root := match chkpts_root with
                     | Some s => s
                     | None => FID.default_chkpts_root
                     end in
  let n_samples := match n_samples with Some n => n | None => 512%Z end in
  let batch_size := match batch_size with Some n => n | None => 8%Z end in
  let device := match device with Some s => s | None => "cpu"%string end in
  self <- FID.__init__ (Some chkpts_root) (Some device) (Some n_samples)
                       (Some batch_size) (Some false) ;;
  ret (set_inception_sm self {| sm_net := inception self; sm_dim := 1 |}).

(** Reading [self.inception_sm]; a plain [FID] instance has none. *)
Definition self_inception_sm : M InceptionSM :=
  o <- self_attr inception_sm ;;
  match o with
  | Some sm => ret sm
  | None => lift (inl AttributeError)
  end.

(** The variables of the loop of [forward]. *)
Record LoopState : Type := {
  cur_samples : Z;
  fake_predictions_list : list Matrix
}.

Section Loop.
Variables (gen : Generator) (gen_transforms gen_transforms_inv : Transform)
          (condition_indices : option CondIdx) (z_dim : option Z).

Definition loop_stop (st : LoopState) : M bool :=
  n <- self_attr n_samples ;;
  ret (cur_samples st >=? n)%Z.

Definition loop_body (real_samples : pyval Tensor) (st : LoopState) : M LoopState :=
  cur_batch_size <- lift (match condition_indices with
                          | None => py_len real_samples
                          | Some _ => t <- py_getitem real_samples 0 ;; tensor_len t
                          end) ;;
  (* Compute predictions on fake *)
  gen_inputs <- match condition_indices with
                | Some c =>
                    idxs <- lift (cond_iter c) ;;
                    l <- lift (mapM (py_getitem real_samples) idxs) ;;
                    dev <- self_attr device ;;
                    l' <- lift (mapM (fun gen_input => t <- gen_transforms gen_input ;;
                                                       tensor_to t dev) l) ;;
                    ret (PList l')
                | None =>
                    t <- with_rng (torch_randn cur_batch_size z_dim) ;;
                    dev <- self_attr device ;;
                    t' <- lift (tensor_to t dev) ;;
                    ret (PTensor t')
                end ;;
  args <- lift (star_args gen_inputs) ;;
  fake_output <- lift (gen_call gen args) ;;
  fake_output <- lift (last_output fake_output) ;;
  fake_output <- lift (gen_transforms_inv fake_output) ;;
  sm <- self_inception_sm ;;
  y <- lift (InceptionV3Transforms fake_output) ;;
  fake_predictions <- lift (inception_sm_call sm y) ;;
  ret {| cur_samples := (cur_samples st + cur_batch_size)%Z;
         fake_predictions_list := fake_predictions_list st ++ [fake_predictions] |}.

End Loop.

(** The score of the accumulated predictions: lines "Compute IS" of
    [forward]. *)
Definition inception_score (fake_predictions : Matrix) : result xreal :=
  (* Compute marginal distribution, P(y) *)
  let p_y := torch_mean0 fake_predictions in
  (* Compute D_kl[p(y|xi)||p(y)] for every generated sample xi *)
  kls <- mapM (fun p_y_given_xi =>
                 q <- bcast1 xdiv p_y_given_xi p_y ;;
                 t <- bcast1 xmul p_y_given_xi (map xlog q) ;;
                 ret (xsum t))
              fake_predictions ;;
  stacked <- torch_stack kls ;;
  ret (xexp (xmean stacked)).

(** [IS.forward] of is_.py *)
Definition forward (dataset : Dataset) (gen : Generator) (gen_transforms : Transform)
  (target_index : option Z) (condition_indices : option CondIdx) (z_dim : option Z)
  : M xreal :=
  b <- self_attr batch_size ;;
  dataloader <- with_rng (DataLoader dataset b) ;;
  gen_transforms_inv <- lift (invert_transforms gen_transforms) ;;
  dev <- self_attr device ;;
  (if (String.eqb dev "cuda" && cuda_is_available)%bool
   then lift torch_cuda_empty_cache else ret tt) ;;
  let st := {| cur_samples := 0; fake_predictions_list := [] |} in
  n <- self_attr n_samples ;;
  b <- self_attr batch_size ;;
  total <- lift (py_floordiv n b) ;;
  st <- for_until loop_stop
          (loop_body gen gen_transforms gen_transforms_inv condition_indices z_dim)
          dataloader st ;;
  fake_predictions <- lift (torch_cat (fake_predictions_list st)) ;;
  lift (inception_score fake_predictions).

End IS_.
End IS_.

(** ** is.py: class [IS] over numpy arrays *)

Definition xpositive (x : xreal) : bool :=
  match x with
  | Fin r => match Rsign r with Gt => true | _ => false end
  | PInf => true
  | NInf | NaN => false
  end.

Definition xzero (x : xreal) : bool :=
  match x with
  | Fin r => match Rsign r with Eq => true | _ => false end
  | _ => false
  end.

Definition xnonneg (x : xreal) : bool :=
  match x with
  | Fin r => match Rsign r with Lt => false | _ => true end
  | PInf => true
  | NInf | NaN => false
  end.

(** [scipy.special.rel_entr(x, y)]: [x * log(x / y)] for [x > 0], [y > 0];
    [0] for [x == 0], [y >= 0]; [inf] otherwise; NaN on a NaN. *)
Definition rel_entr (x y : xreal) : xreal :=
  match x, y with
  | NaN, _ | _, NaN => NaN
  | _, _ =>
      if (xpositive x && xpositive y)%bool then xmul x (xlog (xdiv x y))
      else if (xzero x && xnonneg y)%bool then Fin 0
      else PInf
  end.

(** [scipy.stats.entropy(pk, qk)]: both arguments are normalised to sum 1,
    then the relative entropies are summed; shapes that differ raise. *)
Definition scipy_entropy (pk qk : Vector) : result xreal :=
  let pk := map (fun x => xdiv x (xsum pk)) pk in
  if negb (Nat.eqb (length qk) (length pk))
  then inl (LibraryError "qk and pk must have same shape.")
  else
    let qk := map (fun x => xdiv x (xsum qk)) qk in
    let vec := map2 rel_entr pk qk in
    inr (xsum vec).

(** [np.mean(A, axis=0)] *)
Definition np_mean0 (A : Matrix) : Vector := torch_mean0 A.

Module IS.
Section IS.
Context {E : Env}.

(** [IS.__init__] of is.py *)
Definition __init__ (chkpts_root device : option string) (n_samples batch_size : option Z)
  : result Instance :=
  let chkpts_root := match chkpts_root with
                     | Some s => s
                     | None => FID.default_chkpts_root
                     end in
  let device := match device with Some s => s | None => "cpu"%string end in
  let n_samples := match n_samples with Some n => n | None => 512%Z end in
  let batch_size := match batch_size with Some n => n | None => 8%Z end in
  self <- FID.__init__ (Some chkpts_root) (Some device) (Some n_samples)
                       (Some batch_size) (Some false) ;;
  ret (set_inception_sm self {| sm_net := inception self; sm_dim := 1 |}).

Record LoopState : Type := {
  cur_samples : Z;
  fake_predictions_list : list Matrix
}.

Section Loop.
Variables (gen : Generator) (condition_indices : option CondIdx) (z_dim : option Z).

Definition loop_stop (st : LoopState) : M bool :=
  n <- self_attr n_samples ;;
  ret (cur_samples st >=? n)%Z.

(** [with torch.cuda.amp.autocast:] names the class and does not call
    it: a class is no context manager, and entering the block raises. *)
Definition enter_autocast : result unit := inl AttributeError.

Definition loop_body (real_samples : pyval Tensor) (st : LoopState) : M LoopState :=
  cur_batch_size <- lift (match condition_indices with
                          | None => py_len real_samples
                          | Some _ => t <- py_getitem real_samples 0 ;; tensor_len t
                          end) ;;
  gen_inputs <- match condition_indices with
                | Some c =>
                    idxs <- lift (cond_iter c) ;;
                    l <- lift (mapM (py_getitem real_samples) idxs) ;;
                    (* Compute predictions on fake *)
                    dev <- self_attr device ;;
                    l' <- lift (mapM (fun gen_input => tensor_to gen_input dev) l) ;;
                    ret (PList l')
                | None =>
                    t <- with_rng (torch_randn cur_batch_size z_dim) ;;
                    dev <- self_attr device ;;
                    t' <- lift (tensor_to t dev) ;;
                    ret (PTensor t')
                end ;;
  dev <- self_attr device ;;
  fake_predictions <-
    (if String.prefix "cuda" dev
     then
       lift enter_autocast ;;
       args <- lift (star_args gen_inputs) ;;
       fake_output <- lift (gen_call gen args) ;;
       fake_output <- lift (last_output fake_output) ;;
       sm <- IS_.self_inception_sm ;;
       lift (inception_sm_call sm fake_output)
     else
       args <- lift (star_args gen_inputs) ;;
       fake_output <- lift (gen_call gen args) ;;
       fake_output <- lift (last_output fake_output) ;;
       sm <- IS_.self_inception_sm ;;
       lift (inception_sm_call sm fake_output)) ;;
  ret {| cur_samples := (cur_samples st + cur_batch_size)%Z;
         fake_predictions_list := fake_predictions_list st ++ [fake_predictions] |}.

End Loop.

(** The score of the accumulated predictions: lines "Compute IS" of
    [forward]. *)
Definition inception_score (fake_predictions : Matrix) : result xreal :=
  let p_y := np_mean0 fake_predictions in
  kls <- mapM (fun p_y_given_xi => scipy_entropy p_y_given_xi p_y) fake_predictions ;;
  ret (xexp (xmean kls)).

(** [IS.forward] of is.py *)
Definition forward (dataset : Dataset) (gen : Generator) (target_index : option Z)
  (condition_indices : option CondIdx) (z_dim : option Z) : M xreal :=
  let gen := gen_eval gen in
  b <- self_attr batch_size ;;
  dataloader <- with_rng (DataLoader dataset b) ;;
  let st := {| cur_samples := 0; fake_predictions_list := [] |} in
  n <- self_attr n_samples ;;
  b <- self_attr batch_size ;;
  total <- lift (py_floordiv n b) ;;
  st <- for_until loop_stop (loop_body gen condition_indices z_dim) dataloader st ;;
  fake_predictions <- lift (torch_cat (fake_predictions_list st)) ;;
  lift (inception_score fake_predictions).

End IS.
End IS.

(** ** encoding.py: [ContractingBlock.__init__] *)

Inductive Layer : Type :=
| Conv2d (in_channels out_channels kernel_size padding stride : Z) (padding_mode : string)
| BatchNorm2d (num_features : Z)
| InstanceNorm2d (num_features : Z)
| PixelNorm2d
| LayerNorm2d (num_features : Z)
| ReLU
| LeakyReLU (negative_slope : R).

Module ContractingBlock.

(** The truth value of [c_out]: [None] and [0] are false. *)
Definition truthy (c_out : option Z) : bool :=
  match c_out with
  | None => false
  | Some z => negb (z =? 0)%Z
  end.

(** [c_out = c_in * 2 if not c_out else c_out] *)
Definition effective_c_out (c_in : Z) (c_out : option Z) : Z :=
  if negb (truthy c_out) then (c_in * 2)%Z
  else match c_out with Some z => z | None => 0%Z end.

(** [switcher[norm_type]]; a key that is not there raises [KeyError]. *)
Definition switcher (c_out : Z) (norm_type : string) : result Layer :=
  if String.eqb norm_type "batch" then inr (BatchNorm2d c_out)
  else if String.eqb norm_type "instance" then inr (InstanceNorm2d c_out)
  else if String.eqb norm_type "pixel" then inr PixelNorm2d
  else if String.eqb norm_type "layer" then inr (LayerNorm2d c_out)
  else inl KeyError.

(** [ContractingBlock.__init__]: the layers of [self.contracting_block];
    an argument left out is [None] and takes its default. *)
Definition __init__ (c_in : Z) (use_norm : option bool) (kernel_size : option Z)
  (activation : option string) (c_out : option Z) (stride padding : option Z)
  (padding_mode norm_type : option string) : result (list Layer) :=
  let use_norm := match use_norm with Some b => b | None => true end in
  let kernel_size := match kernel_size with Some z => z | None => 3%Z end in
  let activation := match activation with Some s => s | None => "relu"%string end in
  let stride := match stride with Some z => z | None => 2%Z end in
  let padding := match padding with Some z => z | None => 1%Z end in
  let padding_mode := match padding_mode with Some s => s | None => "reflect"%string end in
  let norm_type := match norm_type with Some s => s | None => "instance"%string end in
  let c_out := effective_c_out c_in c_out in
  let _layers := [Conv2d c_in c_out kernel_size padding stride padding_mode] in
  let act := if String.eqb activation "relu" then ReLU else LeakyReLU (2 / 10) in
  if use_norm
  then norm <- switcher c_out norm_type ;;
       ret (_layers ++ [norm] ++ [act])
  else ret (_layers ++ [act]).

(** The output channel count of the convolution of a block. *)
Definition conv_out_channels (layers : list Layer) : option Z :=
  match layers with
  | Conv2d _ c _ _ _ _ :: _ => Some c
  | _ => None
  end.

End ContractingBlock.

(** ** The stages of [FID.forward] *)

(** The last stage: the score of the four statistics. *)
Definition score_of_statistics {E : Env} (real_mean fake_mean : Vector)
  (real_cov fake_cov : result Matrix) : result xreal :=
  real_cov <- real_cov ;;
  fake_cov <- fake_cov ;;
  _frechet_distance real_mean fake_mean real_cov fake_cov.

(** The three stages one after the other: the loader, the embeddings, the
    score of their statistics. *)
Definition fid_pipeline {E : Env} (dataset : Dataset) (gen : Generator)
  (gen_transforms : Transform) (target_index : option Z)
  (condition_indices : option CondIdx) (z_dim : option Z) (w : World)
  : result xreal * World :=
  match with_rng (DataLoader dataset (batch_size (self w))) w with
  | (inl e, w1) => (inl e, w1)
  | (inr dataloader, w1) =>
      match FID.get_embeddings dataloader gen gen_transforms target_index
                               condition_indices z_dim w1 with
      | (inl e, w2) => (inl e, w2)
      | (inr (real_embeddings, fake_embeddings), w2) =>
          (score_of_statistics (torch_mean0 real_embeddings) (torch_mean0 fake_embeddings)
                               (cov real_embeddings) (cov fake_embeddings), w2)
      end
  end.

(** ** Sizes of batches and contracts of the environment *)

(** The number of samples of one yield of the loader: the [len] of its
    target output, as [get_embeddings] takes it. *)
Definition batch_len {E : Env} (dev : string) (target_index : option Z)
  (real_samples : pyval Tensor) : result Z :=
  target_output <- match target_index with
                   | Some i => t <- py_getitem real_samples i ;; ret (PTensor t)
                   | None => ret real_samples
                   end ;;
  target_output <- py_to target_output dev ;;
  tensor_len target_output.

Definition Zsum (l : list Z) : Z := fold_right Z.add 0%Z l.

(** The number of rows of a 2-D tensor, as an integer. *)
Definition rows (m : Matrix) : Z := Z.of_nat (length m).

(** A transform keeps the batch dimension. *)
Definition keeps_batch {E : Env} (f : Transform) : Prop :=
  forall x y, f x = inr y -> tensor_len y = tensor_len x.

(** The Inception network and its transforms return one row per sample. *)
Record RowPerSample (E : Env) : Prop := {
  rps_features : forall p x m, inception_features p x = inr m -> tensor_len x = inr (rows m);
  rps_fc : forall p m m', inception_fc p m = inr m' -> rows m' = rows m;
  rps_transforms : keeps_batch InceptionV3Transforms
}.

(** What the fake branch relies on besides: the inverted transform keeps the
    batch dimension, [randn(n, z)] has [n] rows, a tensor unpacks into as
    many slices as its [len]. *)
Record FakeRowPerSample (E : Env) : Prop := {
  frps_invert : forall f g, invert_transforms f = inr g -> keeps_batch g;
  frps_randn : forall n z g t g', torch_randn n z g = (inr t, g') -> tensor_len t = inr n;
  frps_iter : forall t l, tensor_iter t = inr l -> tensor_len t = inr (Z.of_nat (length l))
}.

(** The generator returns one image per sample it is fed: per positional
    argument when it is fed the slices of a noise tensor, per row of its
    conditioning batches otherwise. *)
Definition one_image_per_sample {E : Env} (gen : Generator)
  (condition_indices : option CondIdx) : Prop :=
  forall b args out t,
    gen_forward gen b args = inr out -> last_output out = inr t ->
    match condition_indices with
    | None => tensor_len t = inr (Z.of_nat (length args))
    | Some _ => forall n, args <> [] -> Forall (fun a => tensor_len a = inr n) args ->
                          tensor_len t = inr n
    end.

(** The conditioning inputs of a yield have the batch size of its target. *)
Definition aligned {E : Env} (dev : string) (target_index : option Z)
  (condition_indices : option CondIdx) (real_samples : pyval Tensor) : Prop :=
  forall c idxs i t n,
    condition_indices = Some c -> cond_iter c = inr idxs -> In i idxs ->
    py_getitem real_samples i = inr t ->
    batch_len dev target_index real_samples = inr n ->
    tensor_len t = inr n.

(** ** Where an exception comes from *)

(** Raised inside a library: torch, torchvision, numpy, scipy, or a module
    or transform handed in by the caller. *)
Definition is_library (e : exn) : Prop := exists msg, e = LibraryError msg.

(** A callable that raises, raises from inside the library. *)
Definition transform_raises_library {E : Env} (f : Transform) : Prop :=
  forall t e, f t = inl e -> is_library e.

Definition gen_raises_library {E : Env} (gen : Generator) : Prop :=
  forall b args e, gen_forward gen b args = inl e -> is_library e.

(** What the operations of the environment raise, they raise from inside
    the library. *)
Record LibraryRaises (E : Env) : Prop := {
  lr_len : forall t e, tensor_len t = inl e -> is_library e;
  lr_getitem : forall t i e, tensor_getitem t i = inl e -> is_library e;
  lr_iter : forall t e, tensor_iter t = inl e -> is_library e;
  lr_randn : forall n z g e g', torch_randn n z g = (inl e, g') -> is_library e;
  lr_loader : forall d b g e g', DataLoader d b g = (inl e, g') -> is_library e;
  lr_transforms : transform_raises_library InceptionV3Transforms;
  lr_invert : forall f e, invert_transforms f = inl e -> is_library e;
  lr_inverted : forall f g, invert_transforms f = inr g -> transform_raises_library g;
  lr_sqrt : forall m e, matrix_sqrt m = inl e -> is_library e;
  lr_cov : forall m e, cov m = inl e -> is_library e;
  lr_features : forall p t e, inception_features p t = inl e -> is_library e;
  lr_fc : forall p m e, inception_fc p m = inl e -> is_library e
}.

(** The account of an exception [e]: raised from inside the library, or by
    the interpreter, and then under the condition given for its kind. *)
Definition explained (zero_division type_error index_error attribute_error : Prop)
  (e : exn) : Prop :=
  match e with
  | LibraryError _ => True
  | ZeroDivisionError => zero_division
  | TypeError => type_error
  | IndexError => index_error
  | AttributeError => attribute_error
  | KeyError => False
  end.

(** [condition_indices] is an int, which cannot be iterated. *)
Definition is_int_condition (condition_indices : option CondIdx) : Prop :=
  exists i, condition_indices = Some (CondInt i).

(** The loader yields a tuple or list somewhere. *)
Definition yields_a_list {E : Env} (dataloader : list (pyval Tensor)) : Prop :=
  exists l, In (PList l) dataloader.

(** The generator returns an empty tuple or list on some input. *)
Definition returns_empty_tuple {E : Env} (gen : Generator) : Prop :=
  exists b args, gen_forward gen b args = inr (PList []).

(** ** A small environment to run the methods in *)

(** A tensor of images is the list of their numbers; the network maps the
    image [a] to the one-feature row [[a]]. *)
Definition demo_env : Env := {|
  Tensor := list nat;
  tensor_len := fun t => inr (Z.of_nat (length t));
  tensor_getitem := fun t i =>
    match list_getitem t i with
    | inr a => inr [a]
    | inl _ => inl (LibraryError "index out of range")
    end;
  tensor_iter := fun t => inr (map (fun a => [a]) t);
  RNG := nat;
  torch_randn := fun n z g =>
    match z with
    | Some _ =>
        if (n <? 0)%Z
        then (inl (LibraryError "Trying to create tensor with negative dimension"), g)
        else (inr (repeat 0%nat (Z.to_nat n)), S g)
    | None => (inl (LibraryError "randn(): argument 'size' must be tuple of ints"), g)
    end;
  device_available := fun dev => String.eqb dev "cpu";
  cuda_is_available := false;
  Dataset := list (pyval (list nat));
  DataLoader := fun d b g =>
    if (b <=? 0)%Z
    then (inl (LibraryError "batch_size should be a positive integer value"), g)
    else (inr d, S g);
  InceptionV3Transforms := fun t => inr t;
  invert_transforms := fun _ => inr (fun t => inr t);
  matrix_sqrt := fun m => inr m;
  cov := fun m => inr (map (fun _ => map (fun _ => Fin 0) (seq 0 (width m)))
                           (seq 0 (width m)));
  Params := unit;
  inception_v3_params := tt;
  load_model_chkpt := fun p _ _ => inr p;
  inception_features := fun _ t => inr (map (fun a => [Fin (INR a)]) t);
  inception_fc := fun _ m => inr m;
  colab_in_sys_modules := false;
  colab_in_ipython := false;
  colab_gpu_in_environ := false
|}.

(** A generator that returns one blank image per argument. *)
Definition demo_gen : @Generator demo_env :=
  @Build_Generator demo_env true
    (fun (_ : bool) (args : list (list nat)) => inr (PTensor (map (fun _ => 0%nat) args))).

Definition demo_transform : @Transform demo_env := fun t => inr t.

(** A generator that returns one blank image whatever it is fed. *)
Definition demo_gen_of_one_image : @Generator demo_env :=
  @Build_Generator demo_env true
    (fun (_ : bool) (_ : list (list nat)) => inr (PTensor [0%nat])).

(** A [FID] instance on the cpu. *)
Definition demo_fid (n_samples batch_size : Z) : @Instance demo_env :=
  @Build_Instance demo_env false tqdm_std
    (@Build_InceptionV3 demo_env tt Identity "cpu")
    "cpu" n_samples batch_size None.

Definition demo_world (n_samples batch_size : Z) : @World demo_env :=
  @Build_World demo_env (demo_fid n_samples batch_size) 0%nat.

(** Three yields of 2, 2 and 1 images. *)
Definition demo_loader : list (pyval (list nat)) :=
  [PTensor [1; 2]; PTensor [3; 4]; PTensor [5]]%nat.

(** The loader of [forward] yields a tuple or list somewhere. *)
Definition loader_yields_a_list {E : Env} (dataset : Dataset) (b : Z) : Prop :=
  exists g g' dataloader,
    DataLoader dataset b g = (inr dataloader, g') /\ yields_a_list dataloader.

(** What [get_embeddings] returns on the three yields for [n_samples = 3]:
    the embeddings of the two first yields. *)
Definition demo_real_embeddings : list (list xreal) :=
  map (fun a => [Fin (INR a)]) [1; 2; 3; 4]%nat.

Definition demo_fake_embeddings : list (list xreal) :=
  map (fun a => [Fin (INR a)]) [0; 0; 0; 0]%nat.

Definition demo_world_after : @World demo_env :=
  @Build_World demo_env (demo_fid 3 2) 2%nat.

(** ** Probability rows and the Inception Score as a formula *)

Definition Rsum (l : list R) : R := fold_right Rplus 0%R l.

(** A row of probabilities: nothing below zero, the sum is 1. *)
Definition distribution (p : list R) : Prop :=
  Forall (fun x => (0 <= x)%R) p /\ Rsum p = 1%R.

(** The same with no zero in it. *)
Definition positive_distribution (p : list R) : Prop :=
  Forall (fun x => (0 < x)%R) p /\ Rsum p = 1%R.

(** A tensor of finite elements. *)
Definition finite_matrix (m : list (list R)) : list (list xreal) := map (map Fin) m.

(** One term [p * log(p / q)] of the Kullback-Leibler divergence, with the
    convention [0 * log 0 = 0]. *)
Definition kl_term (p q : R) : R :=
  match Rsign p with
  | Eq => 0%R
  | _ => (p * ln (p / q))%R
  end.

(** [D_kl[p || q]] *)
Definition D_kl (p q : list R) : R := Rsum (map2 kl_term p q).

(** [p(y)]: the arithmetic mean of the rows. *)
Definition mean_of_rows (m : list (list R)) : list R :=
  map (fun j => (Rsum (map (fun row => nth j row 0%R) m) / INR (length m))%R)
      (seq 0 (length (hd [] m))).

(** The Inception Score: exp of the mean over the rows [p] of
    [D_kl[p || p(y)]]. *)
Definition inception_score_formula (m : list (list R)) : R :=
  exp (Rsum (map (fun p => D_kl p (mean_of_rows m)) m) / INR (length m)).

(** ** What a constructor of [IS] builds *)

(** The instance is the [FID] instance of [crop_fc=False] with
    [inception_sm] set; its network ends with the classification layer; and
    [inception_sm] applies the softmax over dimension 1 to the logits of
    that network, which gives probability rows on finite logits. *)
Definition built_as_an_IS {E : Env} (inst : Instance) : Prop :=
  (exists chkpts_root device n_samples batch_size base,
      FID.__init__ (Some chkpts_root) (Some device) (Some n_samples) (Some batch_size)
                   (Some false) = inr base
      /\ inst = set_inception_sm base {| sm_net := inception base; sm_dim := 1 |})
  /\ fc (inception inst) = Linear_2048_1000
  /\ inception_sm inst = Some {| sm_net := inception inst; sm_dim := 1 |}
  /\ (forall x features,
         inception_features (params (inception inst)) x = inr features ->
         inception_call (inception inst) x
         = inception_fc (params (inception inst)) features)
  /\ (forall sm x logits,
         inception_sm inst = Some sm ->
         inception_call (inception inst) x = inr logits ->
         inception_sm_call sm x = inr (map softmax_row logits))
  /\ (forall sm x (logits : list (list R)),
         inception_sm inst = Some sm ->
         Forall (fun v => v <> []) logits ->
         inception_call (inception inst) x = inr (finite_matrix logits) ->
         exists probs : list (list R),
           inception_sm_call sm x = inr (finite_matrix probs)
           /\ Forall positive_distribution probs).

(** The [IS] instance of the small environment, all arguments at their
    defaults. *)
Definition demo_is : @Instance demo_env :=
  @Build_Instance demo_env false tqdm_std
    (@Build_InceptionV3 demo_env tt Linear_2048_1000 "cpu")
    "cpu" 512 8
    (Some (@Build_InceptionSM demo_env
             (@Build_InceptionV3 demo_env tt Linear_2048_1000 "cpu") 1)).

(** The sum of one column of a matrix. *)
Definition column_sum (m : list (list R)) (j : nat) : R :=
  Rsum (map (fun row => nth j row 0%R) m).

(** Where the row [p] has a probability above zero, so has the row [q];
    neither has anything below zero. *)
Definition dominated (p q : list R) : Prop :=
  Forall2 (fun a b => (0 <= a)%R /\ (0 <= b)%R /\ ((0 < a)%R -> (0 < b)%R)) p q.

(** Two samples, each classified with probability 1, into two classes. *)
Definition sure_predictions : list (list R) := [[1; 0]; [0; 1]]%R.

(** ** Predicates of the statements *)

(** A value that is not below zero: the range of a sum of squares. *)
Definition not_below_zero (x : xreal) : Prop :=
  match x with
  | Fin r => (0 <= r)%R
  | PInf | NaN => True
  | NInf => False
  end.

(** [c] leaves the instance it runs on as it is, whatever it returns or
    raises. *)
Definition reads_only {E : Env} {A : Type} (c : M A) : Prop :=
  forall w : World, self (snd (c w)) = self w.

(** ** Further predicates: the range of a score *)

(** The result is a finite score between 1 and both the number of classes
    [c] and the number of samples [n]. *)
Definition score_in_range (c n : nat) (r : result xreal) : Prop :=
  exists s : R, r = inr (Fin s) /\ (1 <= s)%R /\ (s <= INR c)%R /\ (s <= INR n)%R.

(** The entropy term [a * log a], with [0 * log 0 = 0]. *)
Definition plogp (a : R) : R :=
  match Rsign a with
  | Eq => 0%R
  | _ => (a * ln a)%R
  end.

(** [log b] where [b] is above zero, 0 elsewhere. *)
Definition log_or_zero (b : R) : R :=
  match Rsign b with
  | Gt => ln b
  | _ => 0%R
  end.

(** ** Further predicates: errors of the library *)

(** What [torch.cat] raises on an empty list. *)
Definition cat_of_nothing : exn :=
  LibraryError "torch.cat(): expected a non-empty list of Tensors".

(** ** Further predicates: a constructed instance *)

(** The network of the instance was moved to the device the instance names,
    that device exists, and inside Colab it is ["cuda"] whatever [device] the
    caller passed ([None]: left at its default ["cpu"]). *)
Definition on_its_device {E : Env} (device_arg : option string) (inst : Instance) : Prop :=
  on_device (inception inst) = device inst
  /\ device_available (device inst) = true
  /\ inside_colab inst
     = (colab_in_sys_modules || colab_in_ipython || colab_gpu_in_environ)%bool
  /\ device inst = (if inside_colab inst then "cuda"%string
                    else match device_arg with Some d => d | None => "cpu"%string end)
  /\ tqdm inst = (if inside_colab inst then tqdm_nb else tqdm_std).

(** ** encoding.py: [UNETContractingBlock], [MLPBlock] and the forward passes *)

(** What the blocks of encoding.py hand to [nn.Sequential]: the layers of
    [ContractingBlock], and the modules of the two other blocks. *)
Inductive Module_ : Type :=
| OfLayer (l : Layer)
| nn_Identity
| nn_Dropout
| nn_MaxPool2d (kernel_size stride : Z)
| nn_Linear (in_features out_features : Z)
| nn_LeakyReLU_inplace (negative_slope : R).

Section Sequential.
Variable T : Type.

(** [module(x)], for a module of torch or of
    [modules.partial.normalization]. *)
Variable module_call : Module_ -> T -> result T.

(** [nn.Sequential( *modules )(x)]: the modules one after the other, each
    on what the one before returned. *)
Fixpoint sequential (modules : list Module_) (x : T) : result T :=
  match modules with
  | [] => inr x
  | m :: rest => y <- module_call m x ;; sequential rest y
  end.

(** [ContractingBlock.forward]: [self.contracting_block(x)], on the layers
    the constructor built. *)
Definition ContractingBlock_forward (contracting_block : list Layer) (x : T) : result T :=
  sequential (map OfLayer contracting_block) x.

End Sequential.

Module UNETContractingBlock.

(** [UNETContractingBlock.__init__]: the modules of
    [self.unet_contracting_block]; an argument left out is [None] and takes
    its default. *)
Definition __init__ (c_in : Z) (use_bn use_dropout : option bool) (kernel_size : option Z)
  (activation : option string) : list Module_ :=
  let use_bn := match use_bn with Some b => b | None => true end in
  let use_dropout := match use_dropout with Some b => b | None => false end in
  let kernel_size := match kernel_size with Some z => z | None => 3%Z end in
  let activation := match activation with Some s => s | None => "lrelu"%string end in
  [ (* 1st convolution layer *)
    OfLayer (Conv2d c_in (c_in * 2) kernel_size 1 1 "zeros");
    if use_bn then OfLayer (BatchNorm2d (c_in * 2)) else nn_Identity;
    if use_dropout then nn_Dropout else nn_Identity;
    if String.eqb activation "relu" then OfLayer ReLU else OfLayer (LeakyReLU (2 / 10));
    (* 2nd convolution layer *)
    OfLayer (Conv2d (c_in * 2) (c_in * 2) kernel_size 1 1 "zeros");
    if use_bn then OfLayer (BatchNorm2d (c_in * 2)) else nn_Identity;
    if use_dropout then nn_Dropout else nn_Identity;
    if String.eqb activation "relu" then OfLayer ReLU else OfLayer (LeakyReLU (2 / 10));
    (* Downsampling (using MaxPool) layer *)
    nn_MaxPool2d 2 2 ].

(** [UNETContractingBlock.forward] *)
Definition forward (T : Type) (module_call : Module_ -> T -> result T)
  (unet_contracting_block : list Module_) (x : T) : result T :=
  sequential module_call unet_contracting_block x.

End UNETContractingBlock.

Module MLPBlock.

(** [MLPBlock.__init__]: the modules of [self.mlp_block]. *)
Definition __init__ (in_dim hidden_dim out_dim : Z) (activation : option string)
  : list Module_ :=
  let activation := match activation with Some s => s | None => "relu"%string end in
  [ nn_Linear in_dim hidden_dim;
    if String.eqb activation "relu" then OfLayer ReLU else nn_LeakyReLU_inplace (2 / 10);
    nn_Linear hidden_dim hidden_dim;
    if String.eqb activation "relu" then OfLayer ReLU else nn_LeakyReLU_inplace (2 / 10);
    nn_Linear hidden_dim out_dim ].

(** [MLPBlock.forward] *)
Definition forward (T : Type) (module_call : Module_ -> T -> result T)
  (mlp_block : list Module_) (x : T) : result T :=
  sequential module_call mlp_block x.

End MLPBlock.

(** ** The shapes torch documents for these modules *)

(** The size a convolution or a pooling of kernel [k], padding [p] and
    stride [s] (dilation 1) leaves of a dimension of size [h]:
    [floor((h + 2 p - k) / s) + 1]. *)
Definition conv_size (h k p s : Z) : Z := ((h + 2 * p - k) / s + 1)%Z.

(** Normalisations, activations, [nn.Identity] and [nn.Dropout] return a
    tensor of the shape of their input. *)
Definition keeps_shape (m : Module_) : bool :=
  match m with
  | OfLayer (Conv2d _ _ _ _ _ _) => false
  | OfLayer _ => true
  | nn_Identity | nn_Dropout | nn_LeakyReLU_inplace _ => true
  | nn_MaxPool2d _ _ | nn_Linear _ _ => false
  end.

(** The shape of what a module returns, when it returns: [shape] is
    [x.shape], [(N, C, H, W)] for a batch of images. *)
Record ShapeRules (T : Type) (shape : T -> list Z)
  (module_call : Module_ -> T -> result T) : Prop := {
  sr_conv : forall c_in c_out k p s mode x y n ch h w,
    module_call (OfLayer (Conv2d c_in c_out k p s mode)) x = inr y ->
    shape x = [n; ch; h; w] ->
    shape y = [n; c_out; conv_size h k p s; conv_size w k p s];
  sr_pool : forall k s x y n ch h w,
    module_call (nn_MaxPool2d k s) x = inr y ->
    shape x = [n; ch; h; w] ->
    shape y = [n; ch; conv_size h k 0 s; conv_size w k 0 s];
  sr_linear : forall d_in d_out x y n d,
    module_call (nn_Linear d_in d_out) x = inr y ->
    shape x = [n; d] ->
    shape y = [n; d_out];
  sr_same : forall m x y,
    keeps_shape m = true -> module_call m x = inr y -> shape y = shape x
}.

(** Modules run on shapes alone: a tensor is its shape; a convolution and
    a linear layer check the channels they are fed. *)
Definition demo_module_call (m : Module_) (x : list Z) : result (list Z) :=
  match m, x with
  | OfLayer (Conv2d c_in c_out k p s _), [n; ch; h; w] =>
      if (ch =? c_in)%Z
      then inr [n; c_out; conv_size h k p s; conv_size w k p s]
      else inl (LibraryError "expected input to have c_in channels")
  | OfLayer (Conv2d _ _ _ _ _ _), _ =>
      inl (LibraryError "Expected 4D input to conv2d")
  | nn_MaxPool2d k s, [n; ch; h; w] =>
      inr [n; ch; conv_size h k 0 s; conv_size w k 0 s]
  | nn_MaxPool2d _ _, _ => inl (LibraryError "Expected 4D input to max_pool2d")
  | nn_Linear d_in d_out, [n; d] =>
      if (d =? d_in)%Z then inr [n; d_out]
      else inl (LibraryError "mat1 and mat2 shapes cannot be multiplied")
  | nn_Linear _ _, _ => inl (LibraryError "mat1 and mat2 shapes cannot be multiplied")
  | _, _ => inr x
  end.

(** The keys of [switcher] in [ContractingBlock.__init__]. *)
Definition known_norm (norm_type : string) : bool :=
  (String.eqb norm_type "batch" || String.eqb norm_type "instance"
   || String.eqb norm_type "pixel" || String.eqb norm_type "layer")%bool.

(** The number of features a normalisation layer is built for. *)
Definition norm_features (l : Layer) : option Z :=
  match l with
  | BatchNorm2d c | InstanceNorm2d c | LayerNorm2d c => Some c
  | _ => None
  end.

(** Convolution, normalisation or activation. *)
Definition is_activation (l : Layer) : bool :=
  match l with
  | ReLU | LeakyReLU _ => true
  | _ => false
  end.

(** ** [ContractingBlock.__init__] and the constructors it calls *)

(** The calls of [ContractingBlock.__init__] into torch and into
    modules.partial.normalization, code that encoding.py imports: each
    returns or raises.  [construct l] is the call that builds the layer [l]
    from its arguments, as [nn.Conv2d(c_in, c_out, ...)] or [nn.ReLU()]. *)
Record Constructors : Type := {
  (* super(ContractingBlock, self).__init__() *)
  nn_Module_init : result unit;
  construct : Layer -> result unit;
  (* from modules.partial.normalization import PixelNorm2d, LayerNorm2d *)
  import_normalization : result unit;
  (* self.contracting_block = nn.Sequential( *_layers ) *)
  nn_Sequential : list Layer -> result unit
}.

Module ContractingBlockCalls.

(** The layer [l], once its constructor has returned. *)
Definition build (lib : Constructors) (l : Layer) : result Layer :=
  construct lib l ;; ret l.

(** [switcher[norm_type]] of the dictionary of the four layers. *)
Definition switcher (batch instance pixel layer : Layer) (norm_type : string)
  : result Layer :=
  if String.eqb norm_type "batch" then inr batch
  else if String.eqb norm_type "instance" then inr instance
  else if String.eqb norm_type "pixel" then inr pixel
  else if String.eqb norm_type "layer" then inr layer
  else inl KeyError.

(** [ContractingBlock.__init__], statement by statement, with the calls of
    the constructors in the order in which Python evaluates them: the four
    values of the dictionary [switcher] are built before [norm_type] is
    looked up. *)
Definition __init__ (lib : Constructors) (c_in : Z) (use_norm : option bool)
  (kernel_size : option Z) (activation : option string) (c_out : option Z)
  (stride padding : option Z) (padding_mode norm_type : option string)
  : result (list Layer) :=
  let use_norm := match use_norm with Some b => b | None => true end in
  let kernel_size := match kernel_size with Some z => z | None => 3%Z end in
  let activation := match activation with Some s => s | None => "relu"%string end in
  let stride := match stride with Some z => z | None => 2%Z end in
  let padding := match padding with Some z => z | None => 1%Z end in
  let padding_mode := match padding_mode with Some s => s | None => "reflect"%string end in
  let norm_type := match norm_type with Some s => s | None => "instance"%string end in
  nn_Module_init lib ;;
  let c_out := ContractingBlock.effective_c_out c_in c_out in
  conv <- build lib (Conv2d c_in c_out kernel_size padding stride padding_mode) ;;
  let _layers := [conv] in
  _layers <- (if use_norm
              then
                import_normalization lib ;;
                batch <- build lib (BatchNorm2d c_out) ;;
                instance <- build lib (InstanceNorm2d c_out) ;;
                pixel <- build lib PixelNorm2d ;;
                layer <- build lib (LayerNorm2d c_out) ;;
                norm <- switcher batch instance pixel layer norm_type ;;
                ret (_layers ++ [norm])
              else ret _layers) ;;
  act <- (if String.eqb activation "relu" then build lib ReLU
          else build lib (LeakyReLU (2 / 10))) ;;
  let _layers := _layers ++ [act] in
  nn_Sequential lib _layers ;;
  ret _layers.

(** The convolution of the block, with the defaults of its arguments. *)
Definition convolution (c_in : Z) (kernel_size c_out stride padding : option Z)
  (padding_mode : option string) : Layer :=
  Conv2d c_in (ContractingBlock.effective_c_out c_in c_out)
    (match kernel_size with Some z => z | None => 3%Z end)
    (match padding with Some z => z | None => 1%Z end)
    (match stride with Some z => z | None => 2%Z end)
    (match padding_mode with Some s => s | None => "reflect"%string end).

(** The four layers of the dictionary, in the order of their construction. *)
Definition norms (c_in : Z) (c_out : option Z) : list Layer :=
  let c_out := ContractingBlock.effective_c_out c_in c_out in
  [BatchNorm2d c_out; InstanceNorm2d c_out; PixelNorm2d; LayerNorm2d c_out].

(** The activation of the block. *)
Definition activation_layer (activation : option string) : Layer :=
  if String.eqb (match activation with Some s => s | None => "relu"%string end) "relu"
  then ReLU else LeakyReLU (2 / 10).

(** [use_norm] and [norm_type], with their defaults. *)
Definition with_norm (use_norm : option bool) : bool :=
  match use_norm with Some b => b | None => true end.

Definition norm_key (norm_type : option string) : string :=
  match norm_type with Some s => s | None => "instance"%string end.

End ContractingBlockCalls.

(** Constructors that refuse a negative number of channels for a convolution
    and of features for a batch normalisation, as torch refuses a tensor of
    a negative dimension, and accept the rest. *)
Definition demo_constructors : Constructors :=
  {| nn_Module_init := inr tt;
     construct := fun l =>
       match l with
       | Conv2d c_in c_out _ _ _ _ =>
           if ((c_in <? 0) || (c_out <? 0))%Z%bool
           then inl (LibraryError "Trying to create tensor with negative dimension")
           else inr tt
       | BatchNorm2d c =>
           if (c <? 0)%Z
           then inl (LibraryError "Trying to create tensor with negative dimension")
           else inr tt
       | _ => inr tt
       end;
     import_normalization := inr tt;
     nn_Sequential := fun _ => inr tt |}.

(** What [torch.stack] raises on an empty list. *)
Definition stack_of_nothing : exn :=
  LibraryError "stack expects a non-empty TensorList".

(** ** Further predicates: the batches of the two [IS.forward] *)





(** ** Further predicates: the predictions of a generator of [n] classes *)

(** [n] samples over [n] classes, sample [i] of class [i] with probability
    1: the rows of the identity matrix. *)
Definition one_hot_rows (n : nat) : list (list R) :=
  map (fun i => map (fun j => if Nat.eqb i j then 1%R else 0%R) (seq 0 n)) (seq 0 n).

(** * Theorems *)

(** * Properties *)

(** ** Signs and the arithmetic of tensor elements *)

Lemma Rsign_pos (r : R) : (0 < r)%R -> Rsign r = Gt.
Proof.
  intro H. unfold Rsign.
  destruct (total_order_T r 0) as [[Hlt | Heq] | Hgt]; try reflexivity; lra.
Qed.

Lemma Rsign_neg (r : R) : (r < 0)%R -> Rsign r = Lt.
Proof.
  intro H. unfold Rsign.
  destruct (total_order_T r 0) as [[Hlt | Heq] | Hgt]; try reflexivity; lra.
Qed.

Lemma Rsign_zero : Rsign 0 = Eq.
Proof.
  unfold Rsign.
  destruct (total_order_T 0 0) as [[Hlt | Heq] | Hgt]; try reflexivity; lra.
Qed.

Lemma Rsign_cases (r : R) :
  (Rsign r = Lt /\ (r < 0)%R) \/ (Rsign r = Eq /\ r = 0%R) \/ (Rsign r = Gt /\ (0 < r)%R).
Proof.
  unfold Rsign.
  destruct (total_order_T r 0) as [[Hlt | Heq] | Hgt]; auto.
Qed.

(** Case analysis on the sign of [r], rewriting [Rsign r] everywhere. *)
Ltac sign_cases r :=
  let H := fresh "Hs" in
  let Hr := fresh "Hr" in
  destruct (Rsign_cases r) as [[H Hr] | [[H Hr] | [H Hr]]];
  rewrite ?H in *.

Lemma xpow2_not_below_zero (x : xreal) : not_below_zero (xpow2 x).
Proof.
  destruct x as [r | | |]; simpl; auto.
  apply Rle_0_sqr.
Qed.

Lemma xadd_not_below_zero (x y : xreal) :
  not_below_zero x -> not_below_zero y -> not_below_zero (xadd x y).
Proof.
  destruct x, y; simpl; auto; lra.
Qed.

Lemma xsum_squares_not_below_zero (v : Vector) : not_below_zero (xsum (map xpow2 v)).
Proof.
  induction v as [| x v IH]; simpl.
  - lra.
  - apply xadd_not_below_zero; [apply xpow2_not_below_zero | exact IH].
Qed.

Lemma xpow2_xsqrt (x : xreal) : not_below_zero x -> xpow2 (xsqrt x) = x.
Proof.
  destruct x as [r | | |]; simpl; intro H; try reflexivity; try contradiction.
  sign_cases r; simpl.
  - lra.
  - subst r. rewrite sqrt_0. f_equal. lra.
  - f_equal. apply sqrt_sqrt. lra.
Qed.

(** [torch.norm(v) ** 2] is the sum of the squares of [v]. *)
Lemma torch_norm_squared (v : Vector) : xpow2 (torch_norm v) = xsum (map xpow2 v).
Proof.
  unfold torch_norm. apply xpow2_xsqrt, xsum_squares_not_below_zero.
Qed.

(** ** Lists by index *)

Lemma map_seq_shift {A : Type} (f : nat -> A) (n : nat) :
  map f (seq 1 n) = map (fun i => f (S i)) (seq 0 n).
Proof.
  rewrite <- seq_shift, map_map. reflexivity.
Qed.

Lemma map2_by_index {A B C : Type} (f : A -> B -> C) (da : A) (db : B) :
  forall (n : nat) (u : list A) (v : list B),
    length u = n -> length v = n ->
    map2 f u v = map (fun i => f (nth i u da) (nth i v db)) (seq 0 n).
Proof.
  induction n as [| n IH]; intros u v Hu Hv.
  - destruct u; [reflexivity | discriminate].
  - destruct u as [| a u]; [discriminate |].
    destruct v as [| b v]; [discriminate |].
    simpl in Hu, Hv. injection Hu as Hu. injection Hv as Hv.
    unfold map2. cbn [combine map seq fst snd nth]. f_equal.
    rewrite map_seq_shift. cbn [nth]. apply (IH u v Hu Hv).
Qed.

Lemma map2_length {A B C : Type} (f : A -> B -> C) (u : list A) (v : list B) :
  length u = length v -> length (map2 f u v) = length u.
Proof.
  intro H. unfold map2. rewrite length_map, length_combine. lia.
Qed.

Lemma nth_map2 {A B C : Type} (f : A -> B -> C) (da : A) (db : B) (dc : C) :
  forall (u : list A) (v : list B) (i : nat),
    length u = length v -> (i < length u)%nat ->
    nth i (map2 f u v) dc = f (nth i u da) (nth i v db).
Proof.
  induction u as [| a u IH]; intros v i Hlen Hi.
  - simpl in Hi. lia.
  - destruct v as [| b v]; [discriminate |].
    destruct i as [| i]; [reflexivity |].
    simpl in *. apply IH; lia.
Qed.

(** ** Element-wise operations on tensors of one shape *)

Lemma bcast1_same (f : xreal -> xreal -> xreal) (u v : Vector) :
  length u = length v -> bcast1 f u v = inr (map2 f u v).
Proof.
  intro H. unfold bcast1. rewrite H, Nat.eqb_refl. reflexivity.
Qed.

Lemma mapM_bcast1_rows (f : xreal -> xreal -> xreal) :
  forall (c : nat) (A B : Matrix),
    Forall (fun row => length row = c) A ->
    Forall (fun row => length row = c) B ->
    mapM (fun p => bcast1 f (fst p) (snd p)) (combine A B) = inr (map2 (map2 f) A B).
Proof.
  intros c A. induction A as [| a A IH]; intros B HA HB.
  - reflexivity.
  - destruct B as [| b B]; [reflexivity |].
    inversion HA as [| ? ? Ha HA']; subst. inversion HB as [| ? ? Hb HB']; subst.
    cbn [combine mapM fst snd]. rewrite bcast1_same by congruence.
    rewrite (IH B HA' HB'). reflexivity.
Qed.

Lemma bcast2_same (f : xreal -> xreal -> xreal) (r c : nat) (A B : Matrix) :
  is_matrix r c A -> is_matrix r c B -> bcast2 f A B = inr (map2 (map2 f) A B).
Proof.
  intros [HrA HcA] [HrB HcB]. unfold bcast2.
  rewrite HrA, HrB, Nat.eqb_refl. apply (mapM_bcast1_rows f HcA HcB).
Qed.

Lemma is_matrix_map2 (f : xreal -> xreal -> xreal) (r c : nat) (A B : Matrix) :
  is_matrix r c A -> is_matrix r c B -> is_matrix r c (map2 (map2 f) A B).
Proof.
  intros [HrA HcA] [HrB HcB]. split.
  - rewrite map2_length; congruence.
  - clear HrA HrB. revert B HcB.
    induction A as [| a A IH]; intros B HcB; [constructor |].
    destruct B as [| b B]; [constructor |].
    inversion HcA; subst. inversion HcB; subst.
    unfold map2 in *. cbn [combine map fst snd]. constructor.
    + rewrite length_map, length_combine. lia.
    + apply IH; assumption.
Qed.

Lemma is_matrix_scale (k : xreal) (r c : nat) (A : Matrix) :
  is_matrix r c A -> is_matrix r c (scale k A).
Proof.
  intros [Hr Hc]. unfold scale. split.
  - rewrite length_map. exact Hr.
  - apply Forall_map. eapply Forall_impl; [| exact Hc].
    intros row H. simpl. rewrite length_map. exact H.
Qed.

Lemma is_matrix_row (r c : nat) (A : Matrix) (i : nat) :
  is_matrix r c A -> (i < r)%nat -> length (nth i A []) = c.
Proof.
  intros [Hr Hc] Hi. rewrite Forall_forall in Hc. apply Hc, nth_In. lia.
Qed.

Lemma entry_map2 (f : xreal -> xreal -> xreal) (r c : nat) (A B : Matrix) (i j : nat) :
  is_matrix r c A -> is_matrix r c B -> (i < r)%nat -> (j < c)%nat ->
  entry (map2 (map2 f) A B) i j = f (entry A i j) (entry B i j).
Proof.
  intros HA HB Hi Hj. unfold entry.
  rewrite (nth_map2 (map2 f) [] [] []).
  - apply nth_map2.
    + rewrite (is_matrix_row HA Hi), (is_matrix_row HB Hi). reflexivity.
    + rewrite (is_matrix_row HA Hi). exact Hj.
  - destruct HA, HB. congruence.
  - destruct HA. lia.
Qed.

Lemma entry_scale (k : xreal) (r c : nat) (A : Matrix) (i j : nat) :
  is_matrix r c A -> (i < r)%nat -> (j < c)%nat ->
  entry (scale k A) i j = xmul k (entry A i j).
Proof.
  intros HA Hi Hj. unfold entry, scale.
  rewrite (nth_indep _ [] (map (xmul k) [])) by (rewrite length_map; destruct HA; lia).
  rewrite map_nth.
  rewrite (nth_indep _ NaN (xmul k NaN))
    by (rewrite length_map, (is_matrix_row HA Hi); exact Hj).
  apply map_nth.
Qed.

(** The diagonal of a matrix whose rows are long enough. *)
Lemma diag_from_by_index :
  forall (A : Matrix) (i c : nat),
    Forall (fun row => length row = c) A -> (i + length A <= c)%nat ->
    diag_from i A = map (fun k => nth (i + k) (nth k A []) NaN) (seq 0 (length A)).
Proof.
  induction A as [| row A IH]; intros i c Hc Hle.
  - reflexivity.
  - inversion Hc as [| ? ? Hrow Hc']; subst.
    cbn [diag_from length seq map nth]. simpl in Hle.
    destruct (nth_error row i) as [x |] eqn:Hx.
    + rewrite Nat.add_0_r. rewrite (nth_error_nth _ _ _ Hx). f_equal.
      rewrite map_seq_shift. rewrite (IH (S i) (length row) Hc') by lia.
      apply map_ext. intro k. cbn [nth]. f_equal. lia.
    + apply nth_error_None in Hx. lia.
Qed.

Lemma torch_trace_square (n : nat) (A : Matrix) :
  is_matrix n n A -> torch_trace A = xsum (map (fun i => entry A i i) (seq 0 n)).
Proof.
  intros [Hr Hc]. unfold torch_trace.
  rewrite (@diag_from_by_index A 0 n Hc) by lia.
  rewrite Hr. reflexivity.
Qed.

Lemma matmul_conforming (r c : nat) (A B : Matrix) :
  is_matrix r c A -> length B = c -> matmul A B = inr (matprod A B).
Proof.
  intros [Hr Hc] HB. unfold matmul.
  replace (forallb (fun row => Nat.eqb (length row) (length B)) A) with true; [reflexivity |].
  symmetry. apply forallb_forall. rewrite Forall_forall in Hc.
  intros row Hin. apply Nat.eqb_eq. rewrite (Hc row Hin). congruence.
Qed.

(** ** C1: the Frechet distance *)

(** C1. For mean vectors of one dimension [n] and [n] by [n] covariance
    matrices, [_frechet_distance] returns the squared Euclidean norm of
    [x_mean - y_mean] plus the trace of
    [x_cov + y_cov - 2 * matrix_sqrt(x_cov @ y_cov)], where [S] is the
    [n] by [n] matrix that [matrix_sqrt] returns on the product. *)
Theorem frechet_distance_formula :
  forall (E : Env) (n : nat) (x_mean y_mean : Vector) (x_cov y_cov S : Matrix),
    length x_mean = n -> length y_mean = n ->
    is_matrix n n x_cov -> is_matrix n n y_cov ->
    matrix_sqrt (matprod x_cov y_cov) = inr S -> is_matrix n n S ->
    _frechet_distance x_mean y_mean x_cov y_cov
    = inr (xadd (squared_euclidean_distance n x_mean y_mean)
                (trace_of_combination n x_cov y_cov S)).
Proof.
  intros E n x_mean y_mean x_cov y_cov S Hx Hy HX HY Hsqrt HS.
  unfold _frechet_distance.
  rewrite bcast1_same by congruence. cbn [bind Monad_result].
  rewrite (bcast2_same xadd HX HY). cbn [bind Monad_result].
  rewrite (@matmul_conforming n n x_cov y_cov HX) by (destruct HY; assumption). cbn [bind Monad_result].
  rewrite Hsqrt. cbn [bind Monad_result].
  pose proof (is_matrix_map2 xadd HX HY) as Hsum.
  pose proof (is_matrix_scale (Fin 2) HS) as H2S.
  rewrite (bcast2_same xsub Hsum H2S). cbn [bind ret Monad_result].
  f_equal. f_equal.
  - rewrite torch_norm_squared. unfold squared_euclidean_distance.
    rewrite (@map2_by_index _ _ _ xsub NaN NaN n x_mean y_mean Hx Hy), map_map. reflexivity.
  - rewrite (torch_trace_square (is_matrix_map2 xsub Hsum H2S)).
    unfold trace_of_combination. f_equal.
    apply map_ext_in. intros i Hi. apply in_seq in Hi.
    rewrite (entry_map2 xsub Hsum H2S) by lia.
    rewrite (entry_map2 xadd HX HY) by lia.
    rewrite (entry_scale (Fin 2) HS) by lia.
    reflexivity.
Qed.

Lemma frechet_distance_formula_witness :
  @_frechet_distance demo_env [Fin 1] [Fin 0] [[Fin 1]] [[Fin 1]]
  = inr (xadd (squared_euclidean_distance 1 [Fin 1] [Fin 0])
              (trace_of_combination 1 [[Fin 1]] [[Fin 1]]
                                    (matprod [[Fin 1]] [[Fin 1]]))).
Proof.
  apply (@frechet_distance_formula demo_env 1 [Fin 1] [Fin 0] [[Fin 1]] [[Fin 1]]
           (matprod [[Fin 1]] [[Fin 1]])).
  - reflexivity.
  - reflexivity.
  - split; [reflexivity | repeat constructor].
  - split; [reflexivity | repeat constructor].
  - reflexivity.
  - split; [reflexivity | repeat constructor].
Defined.

(** ** The calculator instance is only read *)

Section Frame.
Context {E : Env}.

Lemma reads_only_ret {A : Type} (a : A) : reads_only (ret a).
Proof. intro w. reflexivity. Qed.

Lemma reads_only_lift {A : Type} (r : result A) : reads_only (lift r).
Proof. intro w. reflexivity. Qed.

Lemma reads_only_self_attr {A : Type} (f : Instance -> A) : reads_only (self_attr f).
Proof. intro w. reflexivity. Qed.

Lemma reads_only_with_rng {A : Type} (f : RNG -> result A * RNG) :
  reads_only (with_rng f).
Proof. intro w. unfold with_rng. destruct (f (rng w)). reflexivity. Qed.

Lemma reads_only_bind {A B : Type} (c : M A) (k : A -> M B) :
  reads_only c -> (forall a, reads_only (k a)) -> reads_only (bind c k).
Proof.
  intros Hc Hk w. specialize (Hc w). cbn [bind Monad_M].
  destruct (c w) as [[e | a] w']; simpl in *.
  - exact Hc.
  - rewrite Hk. exact Hc.
Qed.

Lemma reads_only_for_until {A S : Type} (stop : S -> M bool) (body : A -> S -> M S) :
  (forall st, reads_only (stop st)) ->
  (forall x st, reads_only (body x st)) ->
  forall l st, reads_only (for_until stop body l st).
Proof.
  intros Hstop Hbody l. induction l as [| x l IH]; intro st.
  - apply reads_only_ret.
  - cbn [for_until]. apply reads_only_bind; [apply Hstop |].
    intros [|]; [apply reads_only_ret |].
    apply reads_only_bind; [apply Hbody | intro st'; apply IH].
Qed.

End Frame.

Ltac reads_only_step :=
  lazymatch goal with
  | |- reads_only (bind _ _) => apply reads_only_bind; [| intro]
  | |- reads_only (ret _) => apply reads_only_ret
  | |- reads_only (lift _) => apply reads_only_lift
  | |- reads_only (self_attr _) => apply reads_only_self_attr
  | |- reads_only (with_rng _) => apply reads_only_with_rng
  | |- reads_only (for_until _ _ _ _) => apply reads_only_for_until; intros
  | |- reads_only (match ?x with _ => _ end) => destruct x
  | |- reads_only (if ?x then _ else _) => destruct x
  end.

Ltac reads_only_auto := repeat reads_only_step.

Section FrameOfTheMethods.
Context {E : Env}.

Lemma get_embeddings_reads_only dataloader gen gen_transforms target_index
  condition_indices z_dim :
  reads_only (FID.get_embeddings dataloader gen gen_transforms target_index
                                 condition_indices z_dim).
Proof.
  unfold FID.get_embeddings, FID.loop_stop, FID.loop_body. reads_only_auto.
Qed.

Lemma FID_forward_reads_only dataset gen gen_transforms target_index
  condition_indices z_dim :
  reads_only (FID.forward dataset gen gen_transforms target_index
                          condition_indices z_dim).
Proof.
  unfold FID.forward. reads_only_auto.
  apply get_embeddings_reads_only.
Qed.

Lemma IS__forward_reads_only dataset gen gen_transforms target_index
  condition_indices z_dim :
  reads_only (IS_.forward dataset gen gen_transforms target_index
                          condition_indices z_dim).
Proof.
  unfold IS_.forward, IS_.loop_stop, IS_.loop_body, IS_.self_inception_sm.
  reads_only_auto.
Qed.

Lemma IS_forward_reads_only dataset gen target_index condition_indices z_dim :
  reads_only (IS.forward dataset gen target_index condition_indices z_dim).
Proof.
  unfold IS.forward, IS.loop_stop, IS.loop_body, IS_.self_inception_sm.
  reads_only_auto.
Qed.

End FrameOfTheMethods.

(** C7. A call of [FID.forward] or of either [IS.forward] leaves the
    calculator instance as it was: [device], [n_samples], [batch_size],
    [inception] and [inception_sm] (all the attributes there are) hold after
    the call, whether it returns or raises, what they held before, and no
    tensor of the call is kept on the instance. *)
Theorem forward_leaves_instance_unchanged :
  forall (E : Env) (dataset : Dataset) (gen : Generator) (gen_transforms : Transform)
         (target_index : option Z) (condition_indices : option CondIdx)
         (z_dim : option Z) (w : World),
    self (snd (FID.forward dataset gen gen_transforms target_index
                           condition_indices z_dim w)) = self w
    /\ self (snd (IS_.forward dataset gen gen_transforms target_index
                              condition_indices z_dim w)) = self w
    /\ self (snd (IS.forward dataset gen target_index condition_indices z_dim w))
       = self w.
Proof.
  intros. repeat split.
  - apply FID_forward_reads_only.
  - apply IS__forward_reads_only.
  - apply IS_forward_reads_only.
Qed.

(** ** C4: [FID.forward] as a pipeline *)

Lemma FID_forward_pipeline {E : Env} dataset gen gen_transforms target_index
  condition_indices z_dim (w : World) :
  FID.forward dataset gen gen_transforms target_index condition_indices z_dim w
  = fid_pipeline dataset gen gen_transforms target_index condition_indices z_dim w.
Proof.
  unfold FID.forward, fid_pipeline. cbn [bind Monad_M self_attr].
  destruct (with_rng (DataLoader dataset (batch_size (self w))) w)
    as [[e | dataloader] w1]; [reflexivity |].
  assert (Hcache :
    (if (String.eqb (device (self w1)) "cuda" && cuda_is_available)%bool
     then lift torch_cuda_empty_cache else ret tt) w1 = (inr tt, w1)).
  { destruct (String.eqb (device (self w1)) "cuda" && cuda_is_available)%bool;
      reflexivity. }
  rewrite Hcache.
  destruct (FID.get_embeddings dataloader gen gen_transforms target_index
              condition_indices z_dim w1) as [[e | [re fe]] w2]; [reflexivity |].
  unfold score_of_statistics, lift. cbn [bind Monad_result].
  destruct (cov re) as [e | rc]; [reflexivity |].
  destruct (cov fe) as [e | fc]; reflexivity.
Qed.

(** C4. [FID.forward] is the pipeline of its three stages, each run once
    and in this order: the embeddings of [get_embeddings], their means over
    the sample dimension and their covariance matrices, the
    [_frechet_distance] of these four statistics; and two calls whose
    embeddings have the same two means and the same two covariance matrices
    return the same score. *)
Theorem FID_forward_linear_pipeline :
  forall (E : Env) (dataset : Dataset) (gen : Generator) (gen_transforms : Transform)
         (target_index : option Z) (condition_indices : option CondIdx)
         (z_dim : option Z) (w : World),
    FID.forward dataset gen gen_transforms target_index condition_indices z_dim w
    = fid_pipeline dataset gen gen_transforms target_index condition_indices z_dim w
    /\
    forall (dataset' : Dataset) (gen' : Generator) (gen_transforms' : Transform)
           (target_index' : option Z) (condition_indices' : option CondIdx)
           (z_dim' : option Z) (w' : World)
           (dl dl' : list (pyval Tensor)) (w1 w2 w1' w2' : World)
           (re fe re' fe' : Matrix),
      with_rng (DataLoader dataset (batch_size (self w))) w = (inr dl, w1) ->
      FID.get_embeddings dl gen gen_transforms target_index condition_indices z_dim w1
      = (inr (re, fe), w2) ->
      with_rng (DataLoader dataset' (batch_size (self w'))) w' = (inr dl', w1') ->
      FID.get_embeddings dl' gen' gen_transforms' target_index' condition_indices'
                         z_dim' w1'
      = (inr (re', fe'), w2') ->
      torch_mean0 re = torch_mean0 re' -> torch_mean0 fe = torch_mean0 fe' ->
      cov re = cov re' -> cov fe = cov fe' ->
      fst (FID.forward dataset gen gen_transforms target_index condition_indices z_dim w)
      = fst (FID.forward dataset' gen' gen_transforms' target_index' condition_indices'
                         z_dim' w').
Proof.
  intros. split; [apply FID_forward_pipeline |].
  intros ds' gen' gt' ti' ci' z' w' dl dl' w1 w2 w1' w2' re fe re' fe'
    Hdl Hemb Hdl' Hemb' Hrm Hfm Hrc Hfc.
  rewrite !FID_forward_pipeline. unfold fid_pipeline.
  rewrite Hdl, Hemb, Hdl', Hemb'. cbn [fst].
  rewrite Hrm, Hfm, Hrc, Hfc. reflexivity.
Qed.

(** ** Running a method step by step *)

Section Run.
Context {E : Env}.

Lemma run_ret {A B : Type} (a : A) (k : A -> M B) (w : World) :
  bind (ret a) k w = k a w.
Proof. reflexivity. Qed.

Lemma run_lift {A B : Type} (r : result A) (k : A -> M B) (w : World) :
  bind (lift r) k w = match r with inl e => (inl e, w) | inr a => k a w end.
Proof. cbn [bind Monad_M lift]. destruct r; reflexivity. Qed.

Lemma run_self_attr {A B : Type} (f : Instance -> A) (k : A -> M B) (w : World) :
  bind (self_attr f) k w = k (f (self w)) w.
Proof. reflexivity. Qed.

Lemma run_with_rng {A B : Type} (f : RNG -> result A * RNG) (k : A -> M B) (w : World) :
  bind (with_rng f) k w
  = match f (rng w) with
    | (inl e, g) => (inl e, {| self := self w; rng := g |})
    | (inr a, g) => k a {| self := self w; rng := g |}
    end.
Proof.
  cbn [bind Monad_M]. unfold with_rng. destruct (f (rng w)) as [[e | a] g]; reflexivity.
Qed.

Lemma run_assoc {A B C : Type} (c : M A) (k1 : A -> M B) (k2 : B -> M C) (w : World) :
  bind (bind c k1) k2 w = bind c (fun a => bind (k1 a) k2) w.
Proof.
  cbn [bind Monad_M]. destruct (c w) as [[e | a] w']; reflexivity.
Qed.

Lemma run_bind {A B : Type} (c : M A) (k : A -> M B) (w : World) :
  bind c k w = match c w with
               | (inl e, w') => (inl e, w')
               | (inr a, w') => k a w'
               end.
Proof. reflexivity. Qed.

Lemma run_last_lift {A : Type} (r : result A) (w : World) : lift r w = (r, w).
Proof. reflexivity. Qed.

Lemma run_last_ret {A : Type} (a : A) (w : World) : ret a w = (inr a, w).
Proof. reflexivity. Qed.

Lemma mapM_Forall2 {A B : Type} (f : A -> result B) :
  forall l l', mapM f l = inr l' -> Forall2 (fun a b => f a = inr b) l l'.
Proof.
  induction l as [| a l IH]; intros l' H; simpl in H.
  - injection H as <-. constructor.
  - destruct (f a) as [e | b] eqn:Hb; [discriminate |].
    destruct (mapM f l) as [e | bs]; [discriminate |].
    injection H as <-. constructor; [exact Hb | apply IH; reflexivity].
Qed.

End Run.

(** Rewrite the first step of the run in [H], or split on what it returned. *)
Ltac run_step H :=
  first
    [ rewrite run_assoc in H
    | rewrite run_ret in H
    | rewrite run_self_attr in H
    | rewrite run_lift in H
    | rewrite run_with_rng in H
    | rewrite run_last_lift in H
    | rewrite run_last_ret in H
    | progress cbn [self rng fst snd] in H
    | match type of H with
      | context [match ?r with _ => _ end] => destruct r eqn:?
      end ].

Ltac run H := repeat (run_step H; try discriminate H).

(** ** The loop of [FID.get_embeddings] *)

Section GetEmbeddingsLoop.
Context {E : Env}.
Variables (gen : Generator) (gen_transforms gen_transforms_inv : Transform)
          (target_index : option Z) (condition_indices : option CondIdx)
          (z_dim : option Z).

Local Abbreviation body := (FID.loop_body gen gen_transforms gen_transforms_inv
                          target_index condition_indices z_dim).

Lemma tensor_to_same (t t' : Tensor) (dev : string) :
  tensor_to t dev = inr t' -> t' = t.
Proof.
  unfold tensor_to. destruct (device_available dev); [| discriminate].
  intro H. injection H as <-. reflexivity.
Qed.

Lemma inception_call_rows (net : InceptionV3) (x : Tensor) (m : list (list xreal)) :
  RowPerSample E -> inception_call net x = inr m -> tensor_len x = inr (rows m).
Proof.
  intros HE H. unfold inception_call in H. cbn [bind Monad_result] in H.
  destruct (inception_features (params net) x) as [e | f] eqn:Hf; [discriminate |].
  apply (rps_features HE) in Hf. destruct (fc net).
  - apply (rps_fc HE) in H. rewrite H. exact Hf.
  - injection H as <-. exact Hf.
Qed.

Lemma batch_len_steps (dev : string) (x p : pyval Tensor) (t : Tensor) (b : Z) :
  match target_index with
  | Some i => t <- py_getitem x i;; ret (PTensor t)
  | None => ret x
  end = inr p ->
  py_to p dev = inr t -> tensor_len t = inr b ->
  batch_len dev target_index x = inr b.
Proof.
  intros Hp Ht Hb. unfold batch_len. rewrite Hp. cbn [bind Monad_result].
  rewrite Ht. exact Hb.
Qed.

(** One turn of the loop that returns: the count grows by the size [b] of
    the batch, and one tensor of [b] rows is appended to the real list,
    one tensor to the fake list. *)
Lemma loop_body_appends (x : pyval Tensor) (st st' : FID.LoopState) (w w' : World) :
  RowPerSample E ->
  body x st w = (inr st', w') ->
  self w' = self w /\
  exists (b : Z) (m f : list (list xreal)),
    batch_len (device (self w)) target_index x = inr b /\
    rows m = b /\
    FID.cur_samples st' = (FID.cur_samples st + b)%Z /\
    FID.real_embeddings_list st' = FID.real_embeddings_list st ++ [m] /\
    FID.fake_embeddings_list st' = FID.fake_embeddings_list st ++ [f].
Proof.
  intros HE H. unfold FID.loop_body in H. run H.
  all: injection H as <- <-; split; [reflexivity |].
  all: match goal with
       | Hp : _ = inr ?p, Ht : py_to ?p _ = inr ?t, Hb : tensor_len ?t = inr ?b,
         Hx : InceptionV3Transforms ?t = inr ?t0,
         Hm : inception_call _ ?t0 = inr ?m |- _ =>
           exists b, m; eexists; split;
           [ eapply batch_len_steps; eassumption
           | split;
             [ eapply inception_call_rows in Hm; [| exact HE];
               rewrite (rps_transforms HE _ Hx), Hb in Hm;
               injection Hm as ->; reflexivity
             | repeat split ] ]
       end.
Qed.

End GetEmbeddingsLoop.

(** ** C5: how many samples [get_embeddings] collects *)

Lemma Zsum_firstn_succ (sizes : list Z) :
  forall j, (j < length sizes)%nat ->
    Zsum (firstn (S j) sizes) = (Zsum (firstn j sizes) + nth j sizes 0)%Z.
Proof.
  induction sizes as [| b sizes IH]; intros j Hj; simpl in Hj.
  - lia.
  - destruct j as [| j].
    + simpl. lia.
    + change (firstn (S (S j)) (b :: sizes)) with (b :: firstn (S j) sizes).
      change (firstn (S j) (b :: sizes)) with (b :: firstn j sizes).
      cbn [Zsum fold_right nth]. fold (Zsum (firstn (S j) sizes)).
      fold (Zsum (firstn j sizes)). rewrite IH by lia. lia.
Qed.

Lemma rows_concat_snoc (l : list (list (list xreal))) (m : list (list xreal)) :
  rows (concat (l ++ [m])) = (rows (concat l) + rows m)%Z.
Proof.
  unfold rows. rewrite concat_app. cbn [concat]. rewrite app_nil_r, length_app. lia.
Qed.

Lemma torch_cat_rows {E : Env} (l : list (list (list xreal))) (m : list (list xreal)) :
  torch_cat l = inr m -> m = concat l /\ l <> [].
Proof.
  unfold torch_cat. destruct l as [| a l]; [discriminate |].
  destruct (forallb _ _); [| discriminate].
  intro H. injection H as <-. split; [reflexivity | discriminate].
Qed.

Section GetEmbeddingsCount.
Context {E : Env}.
Variables (gen : Generator) (gen_transforms gen_transforms_inv : Transform)
          (target_index : option Z) (condition_indices : option CondIdx)
          (z_dim : option Z).
Variable s : Instance.
Hypothesis HE : RowPerSample E.

Local Abbreviation body := (FID.loop_body gen gen_transforms gen_transforms_inv
                          target_index condition_indices z_dim).

Lemma run_loop_stop {B : Type} (st : FID.LoopState) (k : bool -> M B) (w : World) :
  bind (FID.loop_stop st) k w = k (FID.cur_samples st >=? n_samples (self w))%Z w.
Proof. reflexivity. Qed.

(** The loop takes the batches one at a time and stops before the first
    one at which the count has reached [n_samples]: it consumes the [k]
    first batches. *)
Lemma loop_consumes_a_prefix :
  forall (dl : list (pyval Tensor)) (sizes : list Z) (st st' : FID.LoopState)
         (w w' : World),
    self w = s ->
    Forall2 (fun x b => batch_len (device s) target_index x = inr b) dl sizes ->
    for_until FID.loop_stop body dl st w = (inr st', w') ->
    self w' = s /\
    exists k : nat,
      (k <= length sizes)%nat /\
      FID.cur_samples st' = (FID.cur_samples st + Zsum (firstn k sizes))%Z /\
      (forall j, (j < k)%nat ->
                 (FID.cur_samples st + Zsum (firstn j sizes) < n_samples s)%Z) /\
      (k = length sizes \/ (n_samples s <= FID.cur_samples st')%Z) /\
      rows (concat (FID.real_embeddings_list st'))
      = (rows (concat (FID.real_embeddings_list st)) + Zsum (firstn k sizes))%Z /\
      length (FID.real_embeddings_list st')
      = (length (FID.real_embeddings_list st) + k)%nat.
Proof.
  induction dl as [| x dl IH]; intros sizes st st' w w' Hw Hsizes H.
  - destruct sizes as [| b sizes']; [| inversion Hsizes].
    cbn [for_until] in H. rewrite run_last_ret in H.
    injection H as <- <-. split; [exact Hw |].
    exists 0%nat. cbn. repeat split; lia.
  - destruct sizes as [| b sizes']; [inversion Hsizes |].
    apply Forall2_cons_iff in Hsizes. destruct Hsizes as [Hb Hrest].
    cbn [for_until] in H. rewrite run_loop_stop, Hw in H.
    destruct (FID.cur_samples st >=? n_samples s)%Z eqn:Hstop.
    + rewrite run_last_ret in H. injection H as <- <-. split; [exact Hw |].
      exists 0%nat. cbn. repeat split; lia.
    + rewrite run_bind in H.
      destruct (body x st w) as [[e | st1] w1] eqn:Hbody; [discriminate |].
      destruct (@loop_body_appends E gen gen_transforms gen_transforms_inv target_index
                  condition_indices z_dim x st st1 w w1 HE Hbody)
        as [Hw1 (b' & m & f & Hlen & Hrows & Hcur & Hreal & Hfake)].
      rewrite Hw, Hb in Hlen. injection Hlen as <-.
      destruct (IH sizes' st1 st' w1 w' (eq_trans Hw1 Hw) Hrest H)
        as [Hw' (k & Hk & Hcur' & Hbefore & Hend & Hrows' & Hlen')].
      split; [exact Hw' |].
      exists (S k). cbn [length firstn Zsum fold_right]. fold (Zsum (firstn k sizes')).
      repeat split.
      * lia.
      * lia.
      * intros [| j] Hj; cbn [firstn Zsum fold_right].
        -- lia.
        -- fold (Zsum (firstn j sizes')).
           specialize (Hbefore j ltac:(lia)). lia.
      * destruct Hend as [-> | Hend]; [left; reflexivity | right; exact Hend].
      * rewrite Hrows', Hreal, rows_concat_snoc. lia.
      * rewrite Hlen', Hreal, length_app. cbn [length]. lia.
Qed.

End GetEmbeddingsCount.

(** C5. Run over a loader that yields at least [n_samples] samples in all,
    a call of [get_embeddings] that returns has taken the batches one at a
    time, kept the running count, and stopped at the first turn at which the
    count had reached [n_samples]: it consumed the [k] first batches, [k] at
    least 1, no shorter run of batches reaches [n_samples], and the rows it
    collected are at least [n_samples] and at most [n_samples] plus the size
    of the last consumed batch minus 1. *)
Theorem get_embeddings_collects_n_samples :
  forall (E : Env) (dataloader : list (pyval Tensor)) (gen : Generator)
         (gen_transforms : Transform) (target_index : option Z)
         (condition_indices : option CondIdx) (z_dim : option Z)
         (w w' : World) (real_embeddings fake_embeddings : Matrix) (sizes : list Z),
    RowPerSample E ->
    Forall2 (fun x b => batch_len (device (self w)) target_index x = inr b)
            dataloader sizes ->
    (n_samples (self w) <= Zsum sizes)%Z ->
    FID.get_embeddings dataloader gen gen_transforms target_index condition_indices
                       z_dim w
    = (inr (real_embeddings, fake_embeddings), w') ->
    exists k : nat,
      (1 <= k <= length sizes)%nat /\
      (forall j, (j < k)%nat -> (Zsum (firstn j sizes) < n_samples (self w))%Z) /\
      rows real_embeddings = Zsum (firstn k sizes) /\
      (n_samples (self w) <= rows real_embeddings
       <= n_samples (self w) + nth (k - 1) sizes 0 - 1)%Z.
Proof.
  intros E dataloader gen gen_transforms target_index condition_indices z_dim
    w w' re fe sizes HE Hsizes Htotal H.
  unfold FID.get_embeddings in H.
  rewrite run_lift in H.
  destruct (invert_transforms gen_transforms) as [e | gti]; [discriminate |].
  rewrite !run_self_attr, run_lift in H.
  destruct (py_floordiv _ _) as [e | total]; [discriminate |].
  rewrite run_bind in H.
  match type of H with
  | context [for_until ?stop ?body dataloader ?st0 w] =>
      destruct (for_until stop body dataloader st0 w) as [[e | st] w1] eqn:Hloop
  end; [discriminate |].
  rewrite run_lift in H.
  destruct (torch_cat (FID.real_embeddings_list st)) as [e | re'] eqn:Hre;
    [discriminate |].
  rewrite run_lift in H.
  destruct (torch_cat (FID.fake_embeddings_list st)) as [e | fe'] eqn:Hfe;
    [discriminate |].
  rewrite run_last_ret in H. injection H as -> -> <-.
  destruct (@loop_consumes_a_prefix E gen gen_transforms gti target_index
              condition_indices z_dim (self w) HE dataloader sizes _ st w w1
              eq_refl Hsizes Hloop)
    as [_ (k & Hk & Hcur & Hbefore & Hend & Hrows & Hlen)].
  cbn [FID.cur_samples FID.real_embeddings_list concat length rows Z.of_nat] in *.
  apply torch_cat_rows in Hre. destruct Hre as [-> Hne].
  assert (Hk1 : (1 <= k)%nat).
  { destruct k as [| k]; [| lia].
    destruct (FID.real_embeddings_list st); [contradiction | discriminate]. }
  exists k. split; [lia |]. split.
  { intros j Hj. specialize (Hbefore j Hj). lia. }
  split; [unfold rows in *; lia |].
  assert (Hlower : (n_samples (self w) <= Zsum (firstn k sizes))%Z).
  { destruct Hend as [-> | Hend]; [rewrite firstn_all; exact Htotal | lia]. }
  assert (Hlast : Zsum (firstn k sizes)
                  = (Zsum (firstn (k - 1) sizes) + nth (k - 1) sizes 0)%Z).
  { replace k with (S (k - 1)) at 1 by lia. apply Zsum_firstn_succ. lia. }
  specialize (Hbefore (k - 1)%nat ltac:(lia)).
  unfold rows in *. lia.
Qed.

(** ** C8: as many fake rows as real rows *)

Lemma Forall2_Forall_right {A B : Type} (R : A -> B -> Prop) (P : B -> Prop) :
  forall l l',
    Forall2 R l l' -> (forall a b, In a l -> R a b -> P b) -> Forall P l'.
Proof.
  induction 1 as [| a b l l' Hab Hrest IH]; intro H; constructor.
  - apply (H a b); [left; reflexivity | exact Hab].
  - apply IH. intros a' b' Hin. apply H. right. exact Hin.
Qed.

Lemma Forall2_In_left {A B : Type} (R : A -> B -> Prop) :
  forall l l' b, Forall2 R l l' -> In b l' -> exists a, In a l /\ R a b.
Proof.
  induction 1 as [| a b' l l' Hab Hrest IH]; intro Hin.
  - contradiction.
  - destruct Hin as [<- | Hin].
    + exists a. split; [left; reflexivity | exact Hab].
    + destruct (IH Hin) as (a' & Ha' & HR). exists a'. split; [right |]; assumption.
Qed.

Section GetEmbeddingsRows.
Context {E : Env}.
Variables (gen : Generator) (gen_transforms gen_transforms_inv : Transform)
          (target_index : option Z) (condition_indices : option CondIdx)
          (z_dim : option Z).

Local Abbreviation body := (FID.loop_body gen gen_transforms gen_transforms_inv
                          target_index condition_indices z_dim).

(** The conditioning inputs, transformed and moved to the device, have the
    batch size [n] of the target. *)
Lemma conditioning_inputs_aligned (ci : option CondIdx) (dev : string)
  (x : pyval Tensor) (c : CondIdx) (idxs : list Z) (l l' : list Tensor) (n : Z) :
  keeps_batch gen_transforms ->
  cond_iter c <> inr [] ->
  ci = Some c ->
  aligned dev target_index ci x ->
  batch_len dev target_index x = inr n ->
  cond_iter c = inr idxs ->
  mapM (py_getitem x) idxs = inr l ->
  mapM (fun gen_input => t <- gen_transforms gen_input ;; tensor_to t dev) l = inr l' ->
  l' <> [] /\ Forall (fun a => tensor_len a = inr n) l'.
Proof.
  intros Hgt Hcond Hc Hal Hn Hidxs Hl Hl'.
  apply mapM_Forall2 in Hl. apply mapM_Forall2 in Hl'. split.
  - intro Hnil. rewrite Hnil in Hl'.
    apply Forall2_length in Hl'. apply Forall2_length in Hl.
    destruct l; [| discriminate]. destruct idxs; [| discriminate].
    exact (Hcond Hidxs).
  - eapply Forall2_Forall_right; [exact Hl' |]. intros a b Ha Hab.
    cbn [bind Monad_result] in Hab.
    destruct (gen_transforms a) as [e | t] eqn:Ht; [discriminate |].
    apply tensor_to_same in Hab. subst b.
    rewrite (Hgt _ _ Ht).
    destruct (@Forall2_In_left _ _ _ idxs l a Hl Ha) as (i & Hi & Hget).
    exact (Hal c idxs i a n Hc Hidxs Hi Hget Hn).
Qed.

(** One turn of the loop that returns appends tensors of the same number
    of rows to both lists. *)
Lemma loop_body_same_rows (x : pyval Tensor) (st st' : FID.LoopState) (w w' : World) :
  RowPerSample E -> FakeRowPerSample E ->
  keeps_batch gen_transforms -> keeps_batch gen_transforms_inv ->
  one_image_per_sample gen condition_indices ->
  (forall c, condition_indices = Some c -> cond_iter c <> inr []) ->
  aligned (device (self w)) target_index condition_indices x ->
  body x st w = (inr st', w') ->
  self w' = self w /\
  exists m f : list (list xreal),
    rows f = rows m /\
    FID.real_embeddings_list st' = FID.real_embeddings_list st ++ [m] /\
    FID.fake_embeddings_list st' = FID.fake_embeddings_list st ++ [f].
Proof.
  intros HE HF Hgt Hgti Hgen Hcond Hal H. unfold FID.loop_body in H. run H.
  all: injection H as <- <-; split; [reflexivity |].
  all: do 2 eexists; split; [| split; reflexivity].
  all: match goal with
       | Hp : _ = inr ?p, Ht : py_to ?p ?dev = inr ?t, Hb : tensor_len ?t = inr ?b,
         Hx : InceptionV3Transforms ?t = inr ?t0,
         Hm : inception_call _ ?t0 = inr ?m |- _ = rows ?m =>
           assert (Hlen : batch_len dev target_index x = inr b)
             by (eapply batch_len_steps; eassumption);
           eapply inception_call_rows in Hm; [| exact HE];
           rewrite (rps_transforms HE _ Hx), Hb in Hm;
           injection Hm as Hm
       end.
  all: match goal with
       | Hout : last_output _ = inr ?t1, Hinv : gen_transforms_inv ?t1 = inr ?t2,
         Hy : InceptionV3Transforms ?t2 = inr ?t3,
         Hf : inception_call _ ?t3 = inr ?f |- rows ?f = _ =>
           eapply inception_call_rows in Hf; [| exact HE];
           rewrite (rps_transforms HE _ Hy), (Hgti _ _ Hinv) in Hf
       end.
  - (* conditioned on images of the batch *)
    match goal with
    | Hl' : mapM _ _ = inr ?l', Hstar : star_args (PList ?l') = inr _,
      Hidxs : cond_iter ?c = inr _, Hlen : batch_len _ _ _ = inr ?b |- _ =>
        assert (Hin : l' <> [] /\ Forall (fun a => tensor_len a = inr b) l')
          by (eapply (@conditioning_inputs_aligned (Some c));
                try eassumption; try reflexivity; apply Hcond; reflexivity);
        destruct Hin as [Hne Hall];
        cbn [star_args] in Hstar; injection Hstar as <-
    end.
    match goal with
    | Hg : gen_call gen _ = inr _, Hout : last_output _ = inr _ |- _ =>
        pose proof (Hgen _ _ _ _ Hg Hout) as Hone; cbn beta iota in Hone;
        rewrite (Hone _ Hne Hall) in *
    end.
    congruence.
  - (* fed with noise *)
    match goal with
    | Hr : torch_randn _ _ _ = (inr ?t, _), Hto : tensor_to ?t _ = inr ?t',
      Hstar : star_args (PTensor ?t') = inr _ |- _ =>
        apply (frps_randn HF) in Hr; apply tensor_to_same in Hto; subst t';
        cbn [star_args] in Hstar; apply (frps_iter HF) in Hstar
    end.
    match goal with
    | Hg : gen_call gen _ = inr _, Hout : last_output _ = inr _ |- _ =>
        pose proof (Hgen _ _ _ _ Hg Hout) as Hone; cbn beta iota in Hone
    end.
    congruence.
Qed.

End GetEmbeddingsRows.

Section GetEmbeddingsSameRows.
Context {E : Env}.
Variables (gen : Generator) (gen_transforms gen_transforms_inv : Transform)
          (target_index : option Z) (condition_indices : option CondIdx)
          (z_dim : option Z).

Local Abbreviation body := (FID.loop_body gen gen_transforms gen_transforms_inv
                          target_index condition_indices z_dim).

(** Both lists hold the same number of rows, turn after turn. *)
Lemma loop_keeps_rows_equal (s : Instance) :
  RowPerSample E -> FakeRowPerSample E ->
  keeps_batch gen_transforms -> keeps_batch gen_transforms_inv ->
  one_image_per_sample gen condition_indices ->
  (forall c, condition_indices = Some c -> cond_iter c <> inr []) ->
  forall (dl : list (pyval Tensor)) (st st' : FID.LoopState) (w w' : World),
    self w = s ->
    Forall (aligned (device s) target_index condition_indices) dl ->
    for_until FID.loop_stop body dl st w = (inr st', w') ->
    rows (concat (FID.real_embeddings_list st))
    = rows (concat (FID.fake_embeddings_list st)) ->
    rows (concat (FID.real_embeddings_list st'))
    = rows (concat (FID.fake_embeddings_list st')).
Proof.
  intros HE HF Hgt Hgti Hgen Hcond.
  induction dl as [| x dl IH]; intros st st' w w' Hw Hal H Hst.
  - cbn [for_until] in H. rewrite run_last_ret in H. injection H as <- <-. exact Hst.
  - apply Forall_cons_iff in Hal. destruct Hal as [Hx Hal].
    cbn [for_until] in H. rewrite run_loop_stop in H.
    destruct (FID.cur_samples st >=? n_samples (self w))%Z.
    + rewrite run_last_ret in H. injection H as <- <-. exact Hst.
    + rewrite run_bind in H.
      destruct (body x st w) as [[e | st1] w1] eqn:Hbody; [discriminate |].
      rewrite <- Hw in Hx.
      destruct (@loop_body_same_rows E gen gen_transforms gen_transforms_inv
                  target_index condition_indices z_dim x st st1 w w1
                  HE HF Hgt Hgti Hgen Hcond Hx Hbody)
        as [Hw1 (m & f & Hrows & Hreal & Hfake)].
      apply (IH st1 st' w1 w' (eq_trans Hw1 Hw) Hal H).
      rewrite Hreal, Hfake, !rows_concat_snoc. lia.
Qed.

End GetEmbeddingsSameRows.

(** C8, as amended. A call of [get_embeddings] that returns, returns two
    tensors of the same number of rows, when the generator returns one
    image per sample it is fed, [gen_transforms] and its inverse keep the
    batch dimension, [condition_indices], if given, is not empty and the
    conditioning inputs of a yield have the size of its target, and the
    Inception network and its transforms return one row per sample: every
    turn of the loop appends one batch of real embeddings and one batch of
    fake embeddings made from the same yield, the fake one from
    [cur_batch_size] inputs. *)
Theorem get_embeddings_same_number_of_rows :
  forall (E : Env) (dataloader : list (pyval Tensor)) (gen : Generator)
         (gen_transforms : Transform) (target_index : option Z)
         (condition_indices : option CondIdx) (z_dim : option Z)
         (w w' : World) (real_embeddings fake_embeddings : Matrix),
    RowPerSample E -> FakeRowPerSample E ->
    keeps_batch gen_transforms ->
    one_image_per_sample gen condition_indices ->
    (forall c, condition_indices = Some c -> cond_iter c <> inr []) ->
    Forall (aligned (device (self w)) target_index condition_indices) dataloader ->
    FID.get_embeddings dataloader gen gen_transforms target_index condition_indices
                       z_dim w
    = (inr (real_embeddings, fake_embeddings), w') ->
    length real_embeddings = length fake_embeddings.
Proof.
  intros E dataloader gen gen_transforms target_index condition_indices z_dim
    w w' re fe HE HF Hgt Hgen Hcond Hal H.
  unfold FID.get_embeddings in H.
  rewrite run_lift in H.
  destruct (invert_transforms gen_transforms) as [e | gti] eqn:Hinv; [discriminate |].
  rewrite !run_self_attr, run_lift in H.
  destruct (py_floordiv _ _) as [e | total]; [discriminate |].
  rewrite run_bind in H.
  match type of H with
  | context [for_until ?stop ?body dataloader ?st0 w] =>
      destruct (for_until stop body dataloader st0 w) as [[e | st] w1] eqn:Hloop
  end; [discriminate |].
  rewrite run_lift in H.
  destruct (torch_cat (FID.real_embeddings_list st)) as [e | re'] eqn:Hre;
    [discriminate |].
  rewrite run_lift in H.
  destruct (torch_cat (FID.fake_embeddings_list st)) as [e | fe'] eqn:Hfe;
    [discriminate |].
  rewrite run_last_ret in H. injection H as -> -> <-.
  apply torch_cat_rows in Hre. apply torch_cat_rows in Hfe.
  destruct Hre as [-> _]. destruct Hfe as [-> _].
  pose proof (@loop_keeps_rows_equal E gen gen_transforms gti target_index
                condition_indices z_dim (self w) HE HF Hgt (frps_invert HF _ Hinv)
                Hgen Hcond dataloader _ st w w1 eq_refl Hal Hloop eq_refl) as Hrows.
  unfold rows in Hrows. lia.
Qed.

(** ** C6: where the exceptions of the methods come from *)

Lemma explained_library (Z T I A : Prop) (e : exn) :
  is_library e -> explained Z T I A e.
Proof. intros [msg ->]. exact Logic.I. Qed.

Lemma explained_weaken (Z T I A Z' T' I' A' : Prop) (e : exn) :
  (Z -> Z') -> (T -> T') -> (I -> I') -> (A -> A') ->
  explained Z T I A e -> explained Z' T' I' A' e.
Proof. intros HZ HT HI HA. destruct e; simpl; auto. Qed.

Lemma list_getitem_error {A : Type} (l : list A) (i : Z) (e : exn) :
  list_getitem l i = inl e -> e = IndexError.
Proof.
  unfold list_getitem.
  destruct ((0 <=? _)%Z && _)%bool; [destruct (nth_error l _) |]; congruence.
Qed.

Lemma mapM_error {A B : Type} (f : A -> result B) :
  forall l e, mapM f l = inl e -> exists a, In a l /\ f a = inl e.
Proof.
  induction l as [| a l IH]; intros e H; simpl in H; [discriminate |].
  destruct (f a) as [e' | b] eqn:Ha.
  - injection H as <-. exists a. split; [left; reflexivity | exact Ha].
  - destruct (mapM f l) as [e' | bs]; [| discriminate].
    injection H as <-. destruct (IH e' eq_refl) as (a' & Hin & Ha').
    exists a'. split; [right; exact Hin | exact Ha'].
Qed.

Lemma bcast1_error (f : xreal -> xreal -> xreal) (u v : list xreal) (e : exn) :
  bcast1 f u v = inl e -> is_library e.
Proof.
  unfold bcast1, shape_error. intro H.
  destruct (Nat.eqb _ _); [discriminate |].
  destruct u as [| a [| a' u]]; destruct v as [| b [| b' v]];
    try discriminate; injection H as <-; eexists; reflexivity.
Qed.

Lemma bcast2_error (f : xreal -> xreal -> xreal) (A B : list (list xreal)) (e : exn) :
  bcast2 f A B = inl e -> is_library e.
Proof.
  unfold bcast2, shape_error. intro H.
  assert (Hrows : forall (X : Type) (g : X -> result (list xreal)) (l : list X),
             (forall x e', g x = inl e' -> is_library e') ->
             mapM g l = inl e -> is_library e).
  { intros X g l Hg Hm. apply mapM_error in Hm. destruct Hm as (x & _ & Hx).
    exact (Hg x e Hx). }
  destruct (Nat.eqb _ _).
  - apply (Hrows _ _ _ (fun p e' => @bcast1_error f (fst p) (snd p) e') H).
  - destruct A as [| r [| r' A]]; destruct B as [| s [| s' B]];
      try discriminate;
      try (injection H as <-; eexists; reflexivity);
      try (apply (Hrows _ _ _ (fun x e' => @bcast1_error f r x e') H));
      try (apply (Hrows _ _ _ (fun x e' => @bcast1_error f x s e') H)).
Qed.

Lemma torch_cat_error {E : Env} (l : list (list (list xreal))) (e : exn) :
  torch_cat l = inl e -> is_library e.
Proof.
  unfold torch_cat. destruct l; [| destruct (forallb _ _)]; intro H;
    try discriminate; injection H as <-; eexists; reflexivity.
Qed.

Lemma tensor_to_error {E : Env} (t : Tensor) (dev : string) (e : exn) :
  tensor_to t dev = inl e -> is_library e.
Proof.
  unfold tensor_to. destruct (device_available dev); intro H;
    [discriminate | injection H as <-; eexists; reflexivity].
Qed.

Lemma py_floordiv_error (a b : Z) (e : exn) :
  py_floordiv a b = inl e -> e = ZeroDivisionError /\ b = 0%Z.
Proof.
  unfold py_floordiv. destruct (b =? 0)%Z eqn:Hb; intro H; [| discriminate].
  injection H as <-. split; [reflexivity | lia].
Qed.

Lemma cond_iter_error (c : CondIdx) (e : exn) :
  cond_iter c = inl e -> e = TypeError /\ exists i, c = CondInt i.
Proof.
  destruct c as [i | l]; intro H; [| discriminate].
  injection H as <-. split; [reflexivity | exists i; reflexivity].
Qed.

Section ErrorsOfTheSteps.
Context {E : Env}.
Hypothesis HL : LibraryRaises E.

Lemma inception_call_error (net : InceptionV3) (x : Tensor) (e : exn) :
  inception_call net x = inl e -> is_library e.
Proof.
  unfold inception_call. cbn [bind Monad_result].
  destruct (inception_features (params net) x) as [e' | f] eqn:Hf.
  - intro H. injection H as <-. exact (lr_features HL _ _ Hf).
  - destruct (fc net); [apply (lr_fc HL) | discriminate].
Qed.

Lemma torch_softmax_error (dim : Z) (m : list (list xreal)) (e : exn) :
  torch_softmax dim m = inl e -> is_library e.
Proof.
  unfold torch_softmax. destruct (_ || _)%bool; [discriminate |].
  destruct (_ || _)%bool; [discriminate |].
  intro H. injection H as <-. eexists; reflexivity.
Qed.

Lemma inception_sm_call_error (sm : InceptionSM) (x : Tensor) (e : exn) :
  inception_sm_call sm x = inl e -> is_library e.
Proof.
  unfold inception_sm_call. cbn [bind Monad_result].
  destruct (inception_call (sm_net sm) x) as [e' | logits] eqn:Hc.
  - intro H. injection H as <-. exact (inception_call_error _ _ Hc).
  - apply torch_softmax_error.
Qed.

Lemma py_getitem_error (x : pyval Tensor) (i : Z) (e : exn) :
  py_getitem x i = inl e ->
  is_library e \/ (e = IndexError /\ exists l, x = PList l).
Proof.
  destruct x as [t | l]; cbn [py_getitem]; intro H.
  - left. exact (lr_getitem HL _ _ H).
  - right. split; [exact (list_getitem_error _ _ H) | exists l; reflexivity].
Qed.

Lemma star_args_error (v : pyval Tensor) (e : exn) :
  star_args v = inl e -> is_library e.
Proof.
  destruct v; cbn [star_args]; [apply (lr_iter HL) | discriminate].
Qed.

Lemma last_output_error (v : pyval Tensor) (e : exn) :
  last_output v = inl e -> e = IndexError /\ v = PList [].
Proof.
  destruct v as [t | l]; cbn [last_output]; intro H; [discriminate |].
  split; [exact (list_getitem_error _ _ H) |].
  destruct l as [| a l]; [reflexivity |].
  exfalso. unfold list_getitem in H.
  change (-1 <? 0)%Z with true in H. cbv iota in H.
  set (n := Z.of_nat (length (a :: l))) in *.
  assert (Hn : (1 <= n)%Z) by (subst n; cbn [length]; lia).
  destruct ((0 <=? -1 + n)%Z && (-1 + n <? n)%Z)%bool eqn:Hb.
  - destruct (nth_error (a :: l) (Z.to_nat (-1 + n))) eqn:Hnth; [discriminate |].
    apply nth_error_None in Hnth. subst n. cbn [length] in *. lia.
  - apply andb_false_iff in Hb.
    destruct Hb as [Hb | Hb]; [apply Z.leb_gt in Hb | apply Z.ltb_ge in Hb]; lia.
Qed.

Lemma target_error (x : pyval Tensor) (target_index : option Z) (e : exn) :
  match target_index with
  | Some i => t <- py_getitem x i ;; ret (PTensor t)
  | None => ret x
  end = inl e ->
  is_library e \/ (e = IndexError /\ exists l, x = PList l).
Proof.
  destruct target_index as [i |]; [| discriminate].
  cbn [bind Monad_result]. destruct (py_getitem x i) as [e' | t] eqn:Hg;
    [| discriminate].
  intro H. injection H as <-. exact (py_getitem_error _ _ Hg).
Qed.

Lemma target_to_error (x p : pyval Tensor) (target_index : option Z) (dev : string)
  (e : exn) :
  match target_index with
  | Some i => t <- py_getitem x i ;; ret (PTensor t)
  | None => ret x
  end = inr p ->
  py_to p dev = inl e ->
  is_library e \/ (e = AttributeError /\ target_index = None /\ exists l, x = PList l).
Proof.
  intros Hp H. destruct p as [t | l]; cbn [py_to] in H.
  - left. exact (tensor_to_error _ _ H).
  - right. injection H as <-. split; [reflexivity |].
    destruct target_index as [i |].
    + cbn [bind Monad_result] in Hp. destruct (py_getitem x i); discriminate.
    + injection Hp as ->. split; [reflexivity | exists l; reflexivity].
Qed.

Lemma transformed_inputs_error (f : Transform) (dev : string) (l : list Tensor)
  (e : exn) :
  transform_raises_library f ->
  mapM (fun gen_input => t <- f gen_input ;; tensor_to t dev) l = inl e ->
  is_library e.
Proof.
  intros Hf H. apply mapM_error in H. destruct H as (a & _ & Ha).
  cbn [bind Monad_result] in Ha. destruct (f a) as [e' | t] eqn:Hfa.
  - injection Ha as <-. exact (Hf _ _ Hfa).
  - exact (tensor_to_error _ _ Ha).
Qed.

Lemma moved_inputs_error (dev : string) (l : list Tensor) (e : exn) :
  mapM (fun gen_input => tensor_to gen_input dev) l = inl e -> is_library e.
Proof.
  intro H. apply mapM_error in H. destruct H as (a & _ & Ha).
  exact (tensor_to_error _ _ Ha).
Qed.

Lemma indexed_inputs_error (x : pyval Tensor) (idxs : list Z) (e : exn) :
  mapM (py_getitem x) idxs = inl e ->
  is_library e \/ (e = IndexError /\ exists l, x = PList l).
Proof.
  intro H. apply mapM_error in H. destruct H as (i & _ & Hi).
  exact (py_getitem_error _ _ Hi).
Qed.

Lemma cur_batch_size_error (x : pyval Tensor) (condition_indices : option CondIdx)
  (e : exn) :
  match condition_indices with
  | None => py_len x
  | Some _ => t <- py_getitem x 0 ;; tensor_len t
  end = inl e ->
  is_library e \/ (e = IndexError /\ exists l, x = PList l).
Proof.
  destruct condition_indices as [c |]; cbn [bind Monad_result].
  - destruct (py_getitem x 0) as [e' | t] eqn:Hg.
    + intro H. injection H as <-. exact (py_getitem_error _ _ Hg).
    + intro H. left. exact (lr_len HL _ H).
  - destruct x as [t | l]; cbn [py_len]; [| discriminate].
    intro H. left. exact (lr_len HL _ H).
Qed.

Lemma frechet_distance_error (x_mean y_mean : list xreal)
  (x_cov y_cov : list (list xreal)) (e : exn) :
  _frechet_distance x_mean y_mean x_cov y_cov = inl e -> is_library e.
Proof.
  unfold _frechet_distance. cbn [bind Monad_result]. intro H.
  destruct (bcast1 xsub x_mean y_mean) as [e1 | d] eqn:H1;
    [injection H as <-; exact (bcast1_error _ _ _ H1) |].
  destruct (bcast2 xadd x_cov y_cov) as [e2 | s] eqn:H2;
    [injection H as <-; exact (bcast2_error _ _ _ H2) |].
  destruct (matmul x_cov y_cov) as [e3 | p] eqn:H3.
  { injection H as <-. unfold matmul in H3. destruct (forallb _ _); [discriminate |].
    injection H3 as <-. eexists; reflexivity. }
  destruct (matrix_sqrt p) as [e4 | r] eqn:H4;
    [injection H as <-; exact (lr_sqrt HL _ H4) |].
  destruct (bcast2 xsub s (scale (Fin 2) r)) as [e5 | t] eqn:H5;
    [injection H as <-; exact (bcast2_error _ _ _ H5) | discriminate].
Qed.

End ErrorsOfTheSteps.

(** Close the account of the exception of a step that raised from inside
    the library. *)
Ltac from_library HL :=
  apply explained_library;
  first
    [ eapply (lr_len HL); eassumption
    | eapply (lr_transforms HL); eassumption
    | eapply (lr_randn HL); eassumption
    | eapply (lr_loader HL); eassumption
    | eapply (lr_invert HL); eassumption
    | eapply (lr_cov HL); eassumption
    | eapply (inception_call_error HL); eassumption
    | eapply (inception_sm_call_error HL); eassumption
    | eapply tensor_to_error; eassumption
    | eapply (star_args_error HL); eassumption
    | eapply transformed_inputs_error; [| eassumption]; assumption
    | eapply moved_inputs_error; eassumption
    | eapply torch_cat_error; eassumption
    | eapply (frechet_distance_error HL); eassumption
    | match goal with
      | Hf : transform_raises_library ?f, H : ?f _ = inl _ |- _ => exact (Hf _ _ H)
      | Hg : gen_raises_library ?g, H : gen_call ?g _ = inl _ |- _ => exact (Hg _ _ _ H)
      end ].

(** The same for a step of the interpreter: indexing, iterating, attribute
    access. *)
Ltac from_interpreter HL :=
  match goal with
  | H : match _ with Some _ => _ | None => _ end = inl _ |- _ =>
      destruct (@target_error _ HL _ _ _ H) as [Hlib | [-> Hx]];
      [apply explained_library; exact Hlib | simpl; auto]
  | Hp : _ = inr ?p, H : py_to ?p _ = inl _ |- _ =>
      destruct (@target_to_error _ _ _ _ _ _ Hp H) as [Hlib | [-> Hx]];
      [apply explained_library; exact Hlib | simpl; auto]
  | H : py_getitem _ _ = inl _ |- _ =>
      destruct (@py_getitem_error _ HL _ _ _ H) as [Hlib | [-> Hx]];
      [apply explained_library; exact Hlib | simpl; auto]
  | H : mapM (py_getitem _) _ = inl _ |- _ =>
      destruct (@indexed_inputs_error _ HL _ _ _ H) as [Hlib | [-> Hx]];
      [apply explained_library; exact Hlib | simpl; auto]
  | H : cond_iter _ = inl _ |- _ =>
      destruct (@cond_iter_error _ _ H) as [-> [i ->]]; simpl; exists i; reflexivity
  | H : match _ with Some _ => _ | None => _ end = inl _ |- _ =>
      destruct (@cur_batch_size_error _ HL _ _ _ H) as [Hlib | [-> Hx]];
      [apply explained_library; exact Hlib | simpl; auto]
  | H : inception_sm _ = None |- explained _ _ _ _ AttributeError =>
      simpl; first [exact H | reflexivity]
  | Hg : gen_call ?gen ?args = inr ?p, H : last_output ?p = inl _ |- _ =>
      destruct (@last_output_error _ _ _ H) as [-> ->]; simpl; right;
      exists (gen_training gen), args; exact Hg
  end.

Section ErrorsOfGetEmbeddings.
Context {E : Env}.
Variables (gen : Generator) (gen_transforms gen_transforms_inv : Transform)
          (target_index : option Z) (z_dim : option Z).

(** An exception of one turn of the loop. *)
Lemma loop_body_error (condition_indices : option CondIdx) (x : pyval Tensor)
  (st : FID.LoopState) (w w' : World) (e : exn) :
  LibraryRaises E -> gen_raises_library gen ->
  transform_raises_library gen_transforms ->
  transform_raises_library gen_transforms_inv ->
  FID.loop_body gen gen_transforms gen_transforms_inv target_index
                condition_indices z_dim x st w = (inl e, w') ->
  explained False (is_int_condition condition_indices)
            ((exists l, x = PList l) \/ returns_empty_tuple gen)
            (target_index = None /\ exists l, x = PList l) e.
Proof.
  intros HL Hgen Hgt Hgti H. unfold FID.loop_body in H. run H.
  all: injection H as <- <-.
  all: first [from_library HL | from_interpreter HL].
Qed.

End ErrorsOfGetEmbeddings.

(** An exception of the loop is the exception of one of its turns, when the
    test itself does not raise. *)
Lemma for_until_error {E : Env} {A S : Type} (s : Instance) (stop : S -> M bool)
  (body : A -> S -> M S) (P : A -> exn -> Prop) :
  (forall st w, exists b, stop st w = (inr b, w)) ->
  (forall x st, reads_only (body x st)) ->
  (forall x st w e w', self w = s -> body x st w = (inl e, w') -> P x e) ->
  forall l st w e w',
    self w = s ->
    for_until stop body l st w = (inl e, w') -> exists x, In x l /\ P x e.
Proof.
  intros Hstop Hread Hbody. induction l as [| x l IH]; intros st w e w' Hw H.
  - cbn [for_until] in H. discriminate.
  - cbn [for_until] in H. rewrite run_bind in H.
    destruct (Hstop st w) as [b Hb]. rewrite Hb in H.
    destruct b; [discriminate |].
    rewrite run_bind in H.
    pose proof (Hread x st w) as Hw1.
    destruct (body x st w) as [[e1 | st1] w1] eqn:Hx.
    + injection H as <- <-. exists x.
      split; [left; reflexivity | exact (Hbody _ _ _ _ _ Hw Hx)].
    + cbn [snd] in Hw1. destruct (IH _ _ _ _ (eq_trans Hw1 Hw) H) as (y & Hy & HP).
      exists y. split; [right; exact Hy | exact HP].
Qed.

Section BodiesReadOnly.
Context {E : Env}.

Lemma FID_loop_body_reads_only gen gt gti ti ci z x st :
  reads_only (FID.loop_body gen gt gti ti ci z x st).
Proof. unfold FID.loop_body. reads_only_auto. Qed.

Lemma IS__loop_body_reads_only gen gt gti ci z x st :
  reads_only (IS_.loop_body gen gt gti ci z x st).
Proof. unfold IS_.loop_body, IS_.self_inception_sm. reads_only_auto. Qed.

Lemma IS_loop_body_reads_only gen ci z x st :
  reads_only (IS.loop_body gen ci z x st).
Proof. unfold IS.loop_body, IS_.self_inception_sm. reads_only_auto. Qed.

End BodiesReadOnly.

Section ErrorsOfFID.
Context {E : Env}.
Variables (gen : Generator) (gen_transforms : Transform)
          (target_index : option Z) (condition_indices : option CondIdx)
          (z_dim : option Z).
Hypothesis HL : LibraryRaises E.
Hypothesis Hgen : gen_raises_library gen.
Hypothesis Hgt : transform_raises_library gen_transforms.

Lemma get_embeddings_error (dataloader : list (pyval Tensor)) (w w' : World) (e : exn) :
  FID.get_embeddings dataloader gen gen_transforms target_index condition_indices
                     z_dim w = (inl e, w') ->
  explained (batch_size (self w) = 0%Z) (is_int_condition condition_indices)
            (yields_a_list dataloader \/ returns_empty_tuple gen)
            (target_index = None /\ yields_a_list dataloader) e.
Proof.
  intro H. unfold FID.get_embeddings in H.
  rewrite run_lift in H.
  destruct (invert_transforms gen_transforms) as [e0 | gti] eqn:Hinv.
  { injection H as <- <-. from_library HL. }
  rewrite !run_self_attr, run_lift in H.
  destruct (py_floordiv _ _) as [e0 | total] eqn:Hdiv.
  { injection H as <- <-. destruct (py_floordiv_error _ _ Hdiv) as [-> Hb]. exact Hb. }
  rewrite run_bind in H.
  match type of H with
  | context [for_until ?stop ?body dataloader ?st0 w] =>
      destruct (for_until stop body dataloader st0 w) as [[e0 | st] w1] eqn:Hloop
  end.
  { injection H as <- <-.
    apply (@for_until_error E _ _ (self w) _ _
             (fun x e =>
                explained False (is_int_condition condition_indices)
                          ((exists l, x = PList l) \/ returns_empty_tuple gen)
                          (target_index = None /\ exists l, x = PList l) e))
      in Hloop.
    - destruct Hloop as (x & Hx & HP). revert HP. apply explained_weaken.
      + contradiction.
      + auto.
      + intros [[l ->] | Hg]; [left; exists l; exact Hx | right; exact Hg].
      + intros [Ht [l ->]]. split; [exact Ht | exists l; exact Hx].
    - intros st w0. eexists. reflexivity.
    - intros x st. apply FID_loop_body_reads_only.
    - intros x st w0 e1 w1' _.
      apply loop_body_error; try assumption. exact (lr_inverted HL _ Hinv).
    - reflexivity. }
  rewrite run_lift in H.
  destruct (torch_cat (FID.real_embeddings_list st)) as [e0 | re] eqn:Hre.
  { injection H as <- <-. from_library HL. }
  rewrite run_lift in H.
  destruct (torch_cat (FID.fake_embeddings_list st)) as [e0 | fe] eqn:Hfe.
  { injection H as <- <-. from_library HL. }
  discriminate.
Qed.

End ErrorsOfFID.

Section ErrorsOfForward.
Context {E : Env}.
Variables (gen : Generator) (gen_transforms : Transform)
          (target_index : option Z) (condition_indices : option CondIdx)
          (z_dim : option Z).
Hypothesis HL : LibraryRaises E.
Hypothesis Hgen : gen_raises_library gen.
Hypothesis Hgt : transform_raises_library gen_transforms.

Lemma FID_forward_error (dataset : Dataset) (w w' : World) (e : exn) :
  FID.forward dataset gen gen_transforms target_index condition_indices z_dim w
  = (inl e, w') ->
  explained (batch_size (self w) = 0%Z) (is_int_condition condition_indices)
            (loader_yields_a_list dataset (batch_size (self w))
             \/ returns_empty_tuple gen)
            (target_index = None
             /\ loader_yields_a_list dataset (batch_size (self w))) e.
Proof.
  rewrite FID_forward_pipeline. unfold fid_pipeline, with_rng.
  destruct (DataLoader dataset (batch_size (self w)) (rng w)) as [[e0 | dl] g] eqn:Hdl.
  { intro H. injection H as <- <-. from_library HL. }
  destruct (FID.get_embeddings dl gen gen_transforms target_index condition_indices
              z_dim _) as [[e0 | [re fe]] w2] eqn:Hemb.
  { intro H. injection H as <- <-.
    eapply get_embeddings_error in Hemb; try eassumption. cbn [self] in Hemb.
    revert Hemb. apply explained_weaken; auto.
    - intros [Hy | Hg]; [left | right; exact Hg].
      exists (rng w), g, dl. split; assumption.
    - intros [Ht Hy]. split; [exact Ht |].
      exists (rng w), g, dl. split; assumption. }
  unfold score_of_statistics. cbn [bind Monad_result]. intro H.
  destruct (cov re) as [e0 | rc] eqn:Hrc; [injection H as <- <-; from_library HL |].
  destruct (cov fe) as [e0 | fc] eqn:Hfc; [injection H as <- <-; from_library HL |].
  destruct (_frechet_distance _ _ rc fc) as [e0 | d] eqn:Hd; [| discriminate].
  injection H as <- <-. from_library HL.
Qed.

End ErrorsOfForward.

Lemma torch_inception_score_error {E : Env} (fake_predictions : list (list xreal))
  (e : exn) :
  IS_.inception_score fake_predictions = inl e -> is_library e.
Proof.
  unfold IS_.inception_score. cbn [bind Monad_result]. intro H.
  destruct (mapM _ fake_predictions) as [e0 | kls] eqn:Hk.
  - injection H as <-. apply mapM_error in Hk. destruct Hk as (p & _ & Hp).
    destruct (bcast1 xdiv p _) as [e1 | q] eqn:Hq;
      [injection Hp as <-; exact (bcast1_error _ _ _ Hq) |].
    destruct (bcast1 xmul p _) as [e1 | t] eqn:Ht; [| discriminate].
    injection Hp as <-. exact (bcast1_error _ _ _ Ht).
  - unfold torch_stack in H. destruct kls; [| discriminate].
    injection H as <-. eexists; reflexivity.
Qed.

Lemma numpy_inception_score_error {E : Env} (fake_predictions : list (list xreal))
  (e : exn) :
  IS.inception_score fake_predictions = inl e -> is_library e.
Proof.
  unfold IS.inception_score. cbn [bind Monad_result]. intro H.
  destruct (mapM _ fake_predictions) as [e0 | kls] eqn:Hk; [| discriminate].
  injection H as <-. apply mapM_error in Hk. destruct Hk as (p & _ & Hp).
  unfold scipy_entropy in Hp. destruct (negb _); [| discriminate].
  injection Hp as <-. eexists; reflexivity.
Qed.

Section ErrorsOfIS.
Context {E : Env}.
Variables (gen : Generator) (gen_transforms : Transform)
          (target_index : option Z) (z_dim : option Z).

(** An exception of one turn of the loop of is_.py. *)
Lemma IS__loop_body_error (gen_transforms_inv : Transform)
  (condition_indices : option CondIdx) (x : pyval Tensor)
  (st : IS_.LoopState) (w w' : World) (e : exn) :
  LibraryRaises E -> gen_raises_library gen ->
  transform_raises_library gen_transforms ->
  transform_raises_library gen_transforms_inv ->
  IS_.loop_body gen gen_transforms gen_transforms_inv condition_indices z_dim x st w
  = (inl e, w') ->
  explained False (is_int_condition condition_indices)
            ((exists l, x = PList l) \/ returns_empty_tuple gen)
            (inception_sm (self w) = None) e.
Proof.
  intros HL Hgen Hgt Hgti H.
  unfold IS_.loop_body, IS_.self_inception_sm in H. run H.
  all: injection H as <- <-.
  all: first [from_library HL | from_interpreter HL].
Qed.

(** An exception of one turn of the loop of is.py, off cuda. *)
Lemma IS_loop_body_error (condition_indices : option CondIdx) (x : pyval Tensor)
  (st : IS.LoopState) (w w' : World) (e : exn) :
  LibraryRaises E -> gen_raises_library gen ->
  String.prefix "cuda" (device (self w)) = false ->
  IS.loop_body gen condition_indices z_dim x st w = (inl e, w') ->
  explained False (is_int_condition condition_indices)
            ((exists l, x = PList l) \/ returns_empty_tuple gen)
            (inception_sm (self w) = None) e.
Proof.
  intros HL Hgen Hdev H.
  unfold IS.loop_body, IS_.self_inception_sm in H. run H.
  all: try congruence.
  all: injection H as <- <-.
  all: first [from_library HL | from_interpreter HL].
Qed.

End ErrorsOfIS.

Section ErrorsOfISForward.
Context {E : Env}.
Variables (gen : Generator) (gen_transforms : Transform)
          (target_index : option Z) (condition_indices : option CondIdx)
          (z_dim : option Z).
Hypothesis HL : LibraryRaises E.
Hypothesis Hgen : gen_raises_library gen.
Hypothesis Hgt : transform_raises_library gen_transforms.

Lemma IS__forward_error (dataset : Dataset) (w w' : World) (e : exn) :
  IS_.forward dataset gen gen_transforms target_index condition_indices z_dim w
  = (inl e, w') ->
  explained (batch_size (self w) = 0%Z) (is_int_condition condition_indices)
            (loader_yields_a_list dataset (batch_size (self w))
             \/ returns_empty_tuple gen)
            (inception_sm (self w) = None) e.
Proof.
  intro H. unfold IS_.forward in H.
  rewrite run_self_attr, run_with_rng in H.
  destruct (DataLoader dataset (batch_size (self w)) (rng w)) as [[e0 | dl] g] eqn:Hdl.
  { injection H as <- <-. from_library HL. }
  rewrite run_lift in H.
  destruct (invert_transforms gen_transforms) as [e0 | gti] eqn:Hinv.
  { injection H as <- <-. from_library HL. }
  rewrite run_self_attr, run_bind in H.
  match type of H with
  | context [(if ?b then lift torch_cuda_empty_cache else ret tt) ?w0] =>
      replace ((if b then lift torch_cuda_empty_cache else ret tt) w0)
        with (@inr exn unit tt, w0) in H by (destruct b; reflexivity)
  end.
  rewrite !run_self_attr, run_lift in H. cbn [self] in H.
  destruct (py_floordiv _ _) as [e0 | total] eqn:Hdiv.
  { injection H as <- <-. destruct (py_floordiv_error _ _ Hdiv) as [-> Hb]. exact Hb. }
  rewrite run_bind in H.
  match type of H with
  | context [for_until ?stop ?body dl ?st0 ?w0] =>
      destruct (for_until stop body dl st0 w0) as [[e0 | st] w1] eqn:Hloop
  end.
  { injection H as <- <-.
    apply (@for_until_error E _ _ (self w) _ _
             (fun x e =>
                explained False (is_int_condition condition_indices)
                          ((exists l, x = PList l) \/ returns_empty_tuple gen)
                          (inception_sm (self w) = None) e))
      in Hloop.
    - destruct Hloop as (x & Hx & HP). revert HP. apply explained_weaken; auto.
      + contradiction.
      + intros [[l ->] | Hg]; [left | right; exact Hg].
        exists (rng w), g, dl. split; [exact Hdl | exists l; exact Hx].
    - intros st w0. eexists. reflexivity.
    - intros x st. apply IS__loop_body_reads_only.
    - intros x st w0 e1 w1' Hw0 Hbody. rewrite <- Hw0.
      eapply IS__loop_body_error;
        [exact HL | exact Hgen | exact Hgt | exact (lr_inverted HL _ Hinv)
        | exact Hbody].
    - reflexivity. }
  rewrite run_lift in H.
  destruct (torch_cat (IS_.fake_predictions_list st)) as [e0 | preds] eqn:Hcat.
  { injection H as <- <-. from_library HL. }
  rewrite run_last_lift in H. injection H as H _.
  apply explained_library. exact (torch_inception_score_error _ H).
Qed.

Lemma gen_eval_raises_library : gen_raises_library (gen_eval gen).
Proof. intros b args e H. exact (Hgen _ _ H). Qed.

Lemma IS_forward_error (dataset : Dataset) (w w' : World) (e : exn) :
  String.prefix "cuda" (device (self w)) = false ->
  IS.forward dataset gen target_index condition_indices z_dim w = (inl e, w') ->
  explained (batch_size (self w) = 0%Z) (is_int_condition condition_indices)
            (loader_yields_a_list dataset (batch_size (self w))
             \/ returns_empty_tuple gen)
            (inception_sm (self w) = None) e.
Proof.
  intros Hdev H. unfold IS.forward in H.
  rewrite run_self_attr, run_with_rng in H.
  destruct (DataLoader dataset (batch_size (self w)) (rng w)) as [[e0 | dl] g] eqn:Hdl.
  { injection H as <- <-. from_library HL. }
  rewrite !run_self_attr, run_lift in H. cbn [self] in H.
  destruct (py_floordiv _ _) as [e0 | total] eqn:Hdiv.
  { injection H as <- <-. destruct (py_floordiv_error _ _ Hdiv) as [-> Hb]. exact Hb. }
  rewrite run_bind in H.
  match type of H with
  | context [for_until ?stop ?body dl ?st0 ?w0] =>
      destruct (for_until stop body dl st0 w0) as [[e0 | st] w1] eqn:Hloop
  end.
  { injection H as <- <-.
    apply (@for_until_error E _ _ (self w) _ _
             (fun x e =>
                explained False (is_int_condition condition_indices)
                          ((exists l, x = PList l) \/ returns_empty_tuple gen)
                          (inception_sm (self w) = None) e))
      in Hloop.
    - destruct Hloop as (x & Hx & HP). revert HP. apply explained_weaken; auto.
      + contradiction.
      + intros [[l ->] | Hg]; [left | right; exact Hg].
        exists (rng w), g, dl. split; [exact Hdl | exists l; exact Hx].
    - intros st w0. eexists. reflexivity.
    - intros x st. apply IS_loop_body_reads_only.
    - intros x st w0 e1 w1' Hw0 Hbody. rewrite <- Hw0 in Hdev |- *.
      eapply IS_loop_body_error in Hbody;
        [| exact HL | exact gen_eval_raises_library | exact Hdev].
      revert Hbody. apply explained_weaken; auto.
    - reflexivity. }
  rewrite run_lift in H.
  destruct (torch_cat (IS.fake_predictions_list st)) as [e0 | preds] eqn:Hcat.
  { injection H as <- <-. from_library HL. }
  rewrite run_last_lift in H. injection H as H _.
  apply explained_library. exact (numpy_inception_score_error _ H).
Qed.

End ErrorsOfISForward.

(** ** The small environment keeps the contracts *)

Lemma demo_library_raises : LibraryRaises demo_env.
Proof.
  constructor; cbn.
  - discriminate.
  - intros t i e. destruct (list_getitem t i); intro H; [| discriminate].
    injection H as <-. eexists; reflexivity.
  - discriminate.
  - intros n [z |] g e g'; [destruct (n <? 0)%Z |]; intro H;
      try discriminate; injection H as <- _; eexists; reflexivity.
  - intros d b g e g'. destruct (b <=? 0)%Z; intro H; [| discriminate].
    injection H as <- _. eexists; reflexivity.
  - intros t e. discriminate.
  - discriminate.
  - intros f g H. injection H as <-. intros t e. discriminate.
  - discriminate.
  - discriminate.
  - discriminate.
  - discriminate.
Qed.

Lemma demo_gen_raises_library : gen_raises_library demo_gen.
Proof. intros b args e. discriminate. Qed.

Lemma demo_transform_raises_library : transform_raises_library demo_transform.
Proof. intros t e. discriminate. Qed.

Lemma demo_row_per_sample : RowPerSample demo_env.
Proof.
  constructor; cbn.
  - intros p x m H. injection H as <-. unfold rows. rewrite length_map. reflexivity.
  - intros p m m' H. injection H as <-. reflexivity.
  - intros x y H. injection H as <-. reflexivity.
Qed.

Lemma demo_fake_row_per_sample : FakeRowPerSample demo_env.
Proof.
  constructor; cbn.
  - intros f g H. injection H as <-. intros x y H. injection H as <-. reflexivity.
  - intros n [z |] g t g'; [| discriminate].
    destruct (n <? 0)%Z eqn:Hn; [discriminate |].
    intro H. injection H as <- _. rewrite repeat_length. f_equal. lia.
  - intros t l H. injection H as <-. rewrite length_map. reflexivity.
Qed.

Lemma demo_gen_one_image_per_sample : one_image_per_sample demo_gen None.
Proof.
  intros b args out t Hout Hlast. cbn in Hout. injection Hout as <-.
  cbn in Hlast. injection Hlast as <-. cbn. rewrite length_map. reflexivity.
Qed.

(** C6. None of [FID.get_embeddings], [FID.forward] and the two
    [IS.forward] checks a shape, catches an exception or raises one of its
    own: an exception that surfaces is the one of the operation that failed.
    That operation is a call into the library (the loader, the transforms,
    the generator, the network, the tensor functions), or a built-in
    operation of the interpreter, and then: the floor division
    [n_samples // batch_size] by a zero [batch_size] (ZeroDivisionError);
    the iteration of an int [condition_indices] (TypeError); an index into a
    tuple yielded by the loader or into an empty tuple returned by the
    generator (IndexError); [.to] on a list yielded by the loader with no
    [target_index], or [inception_sm] read on an instance without it
    (AttributeError).  An exception of the loader or of
    [invert_transforms] ends the method with that very exception.  The
    [IS.forward] of is.py is taken off cuda. *)
Theorem errors_are_those_of_the_failing_operation :
  forall (E : Env) (dataset : Dataset) (dataloader : list (pyval Tensor))
         (gen : Generator) (gen_transforms : Transform) (target_index : option Z)
         (condition_indices : option CondIdx) (z_dim : option Z)
         (w w' : World) (e : exn),
    LibraryRaises E -> gen_raises_library gen ->
    transform_raises_library gen_transforms ->
    (FID.get_embeddings dataloader gen gen_transforms target_index condition_indices
                        z_dim w = (inl e, w') ->
     explained (batch_size (self w) = 0%Z) (is_int_condition condition_indices)
               (yields_a_list dataloader \/ returns_empty_tuple gen)
               (target_index = None /\ yields_a_list dataloader) e)
    /\ (FID.forward dataset gen gen_transforms target_index condition_indices z_dim w
        = (inl e, w') ->
        explained (batch_size (self w) = 0%Z) (is_int_condition condition_indices)
                  (loader_yields_a_list dataset (batch_size (self w))
                   \/ returns_empty_tuple gen)
                  (target_index = None
                   /\ loader_yields_a_list dataset (batch_size (self w))) e)
    /\ (IS_.forward dataset gen gen_transforms target_index condition_indices z_dim w
        = (inl e, w') ->
        explained (batch_size (self w) = 0%Z) (is_int_condition condition_indices)
                  (loader_yields_a_list dataset (batch_size (self w))
                   \/ returns_empty_tuple gen)
                  (inception_sm (self w) = None) e)
    /\ (String.prefix "cuda" (device (self w)) = false ->
        IS.forward dataset gen target_index condition_indices z_dim w = (inl e, w') ->
        explained (batch_size (self w) = 0%Z) (is_int_condition condition_indices)
                  (loader_yields_a_list dataset (batch_size (self w))
                   \/ returns_empty_tuple gen)
                  (inception_sm (self w) = None) e)
    /\ (forall g, DataLoader dataset (batch_size (self w)) (rng w) = (inl e, g) ->
        fst (FID.forward dataset gen gen_transforms target_index condition_indices
                         z_dim w) = inl e
        /\ fst (IS_.forward dataset gen gen_transforms target_index condition_indices
                            z_dim w) = inl e
        /\ fst (IS.forward dataset gen target_index condition_indices z_dim w) = inl e)
    /\ (invert_transforms gen_transforms = inl e ->
        fst (FID.get_embeddings dataloader gen gen_transforms target_index
                                condition_indices z_dim w) = inl e).
Proof.
  intros E dataset dataloader gen gen_transforms target_index condition_indices z_dim
    w w' e HL Hgen Hgt.
  split; [apply get_embeddings_error; assumption |].
  split; [apply FID_forward_error; assumption |].
  split; [apply IS__forward_error; assumption |].
  split; [apply IS_forward_error; assumption |].
  split.
  - intros g Hdl. repeat split.
    + rewrite FID_forward_pipeline. unfold fid_pipeline, with_rng. rewrite Hdl.
      reflexivity.
    + unfold IS_.forward. rewrite run_self_attr, run_with_rng, Hdl. reflexivity.
    + unfold IS.forward. rewrite run_self_attr, run_with_rng, Hdl. reflexivity.
  - intro Hinv. unfold FID.get_embeddings. rewrite run_lift, Hinv. reflexivity.
Qed.

(** C6, as it is worded, fails.  In an environment where no library
    operation raises anything but its own errors, an exception of the
    interpreter surfaces: the [TypeError] of iterating an int
    [condition_indices], which the signature allows; the
    [ZeroDivisionError] of [n_samples // batch_size] on an instance with
    [batch_size = 0]; the [IndexError] of [real_samples[5]] on a yielded
    tuple of two tensors; the [AttributeError] of [.to] on a yielded tuple
    when [target_index] is left out. *)
Lemma interpreter_errors_surface :
  LibraryRaises demo_env
  /\ gen_raises_library demo_gen
  /\ transform_raises_library demo_transform
  /\ fst (@FID.forward demo_env demo_loader demo_gen demo_transform None
                       (Some (CondInt 0)) None (demo_world 3 2)) = inl TypeError
  /\ fst (@FID.get_embeddings demo_env demo_loader demo_gen demo_transform None
                              None None (demo_world 3 0)) = inl ZeroDivisionError
  /\ fst (@FID.get_embeddings demo_env [PList [[1; 2]%nat; [3; 4]%nat]] demo_gen
                              demo_transform (Some 5%Z) None None (demo_world 3 2))
     = inl IndexError
  /\ fst (@FID.get_embeddings demo_env [PList [[1; 2]%nat; [3; 4]%nat]] demo_gen
                              demo_transform None None None (demo_world 3 2))
     = inl AttributeError
  /\ ~ is_library TypeError /\ ~ is_library ZeroDivisionError
  /\ ~ is_library IndexError /\ ~ is_library AttributeError.
Proof.
  split; [exact demo_library_raises |].
  split; [exact demo_gen_raises_library |].
  split; [exact demo_transform_raises_library |].
  repeat (split; [reflexivity |]).
  repeat split; intros [msg H]; discriminate.
Qed.

Lemma errors_are_those_of_the_failing_operation_witness :
  explained (batch_size (self (demo_world 3 2)) = 0%Z)
            (is_int_condition (Some (CondInt 0)))
            (@loader_yields_a_list demo_env demo_loader
                                   (batch_size (self (demo_world 3 2)))
             \/ returns_empty_tuple demo_gen)
            (@None Z = None
             /\ @loader_yields_a_list demo_env demo_loader
                                      (batch_size (self (demo_world 3 2))))
            TypeError.
Proof.
  refine (proj1 (proj2 (@errors_are_those_of_the_failing_operation
                          demo_env demo_loader demo_loader demo_gen demo_transform
                          None (Some (CondInt 0)) None (demo_world 3 2)
                          {| self := demo_fid 3 2; rng := 1%nat |} TypeError
                          demo_library_raises demo_gen_raises_library
                          demo_transform_raises_library)) _).
  reflexivity.
Defined.

(** ** The theorems on a run of the small environment *)

Lemma demo_get_embeddings_run :
  @FID.get_embeddings demo_env demo_loader demo_gen demo_transform None None
                      (Some 4%Z) (demo_world 3 2)
  = (inr (demo_real_embeddings, demo_fake_embeddings), demo_world_after).
Proof. reflexivity. Qed.

Lemma get_embeddings_collects_n_samples_witness :
  exists k : nat,
    (1 <= k <= length [2; 2; 1]%Z)%nat /\
    (forall j, (j < k)%nat ->
               (Zsum (firstn j [2; 2; 1]%Z) < n_samples (self (demo_world 3 2)))%Z) /\
    rows demo_real_embeddings = Zsum (firstn k [2; 2; 1]%Z) /\
    (n_samples (self (demo_world 3 2)) <= rows demo_real_embeddings
     <= n_samples (self (demo_world 3 2)) + nth (k - 1) [2; 2; 1]%Z 0 - 1)%Z.
Proof.
  apply (@get_embeddings_collects_n_samples demo_env demo_loader demo_gen
           demo_transform None None (Some 4%Z) (demo_world 3 2) demo_world_after
           demo_real_embeddings demo_fake_embeddings [2; 2; 1]%Z).
  - exact demo_row_per_sample.
  - repeat constructor.
  - cbn. lia.
  - exact demo_get_embeddings_run.
Defined.

(** C8, as it is worded, fails: nothing checks what the generator
    returns.  With a generator that returns one image whatever it is fed,
    [get_embeddings] returns over two yields of 2 samples 4 rows of real
    embeddings and 2 rows of fake ones. *)
Lemma get_embeddings_rows_differ :
  @FID.get_embeddings demo_env demo_loader demo_gen_of_one_image demo_transform
    None None (Some 4%Z) (demo_world 3 2)
  = (inr (demo_real_embeddings, [[Fin (INR 0)]; [Fin (INR 0)]]), demo_world_after)
  /\ length demo_real_embeddings = 4%nat
  /\ length [[Fin (INR 0)]; [Fin (INR 0)]] = 2%nat.
Proof.
  split; [reflexivity | split; reflexivity].
Qed.

Lemma get_embeddings_same_number_of_rows_witness :
  length demo_real_embeddings = length demo_fake_embeddings.
Proof.
  apply (@get_embeddings_same_number_of_rows demo_env demo_loader demo_gen
           demo_transform None None (Some 4%Z) (demo_world 3 2) demo_world_after
           demo_real_embeddings demo_fake_embeddings).
  - exact demo_row_per_sample.
  - exact demo_fake_row_per_sample.
  - intros x y H. injection H as <-. reflexivity.
  - exact demo_gen_one_image_per_sample.
  - intros c H. discriminate.
  - repeat constructor; intros c idxs i t n H; discriminate.
  - exact demo_get_embeddings_run.
Defined.

(** ** C9: the output channels of a contracting block *)

Lemma effective_c_out_zero (c_in : Z) (c_out : option Z) :
  ContractingBlock.effective_c_out c_in c_out = 0%Z
  <-> c_in = 0%Z /\ (c_out = None \/ c_out = Some 0%Z).
Proof.
  unfold ContractingBlock.effective_c_out, ContractingBlock.truthy.
  destruct c_out as [z |].
  - destruct (Z.eqb_spec z 0) as [-> | Hz]; cbn [negb].
    + split.
      * intro H. split; [lia | right; reflexivity].
      * intros [-> _]. reflexivity.
    + split.
      * intro H. contradiction.
      * intros [_ [H | H]]; [discriminate | injection H as ->; contradiction].
  - cbn [negb]. split.
    + intro H. split; [lia | left; reflexivity].
    + intros [-> _]. reflexivity.
Qed.

Lemma init_conv_out_channels c_in use_norm kernel_size activation c_out stride padding
  padding_mode norm_type layers :
  ContractingBlock.__init__ c_in use_norm kernel_size activation c_out stride padding
                            padding_mode norm_type = inr layers ->
  ContractingBlock.conv_out_channels layers
  = Some (ContractingBlock.effective_c_out c_in c_out).
Proof.
  unfold ContractingBlock.__init__.
  destruct (match use_norm with Some b => b | None => true end).
  - cbn [bind Monad_result]. destruct (ContractingBlock.switcher _ _); [discriminate |].
    intro H. injection H as <-. reflexivity.
  - intro H. injection H as <-. reflexivity.
Qed.

(** C9, as amended. A block built with [c_out] left at [None] has a
    convolution of [2 * c_in] output channels, and so has one built with
    [c_out = 0], since the constructor tests [not c_out]: no value of
    [c_out] asks for zero channels, and the output has zero channels only
    when [c_in] itself is 0. *)
Theorem contracting_block_output_channels :
  forall (c_in : Z) (use_norm : option bool) (kernel_size : option Z)
         (activation : option string) (c_out : option Z) (stride padding : option Z)
         (padding_mode norm_type : option string) (layers : list Layer),
    ContractingBlock.__init__ c_in use_norm kernel_size activation c_out stride padding
                              padding_mode norm_type = inr layers ->
    (c_out = None \/ c_out = Some 0%Z ->
     ContractingBlock.conv_out_channels layers = Some (2 * c_in)%Z)
    /\ (ContractingBlock.conv_out_channels layers = Some 0%Z
        <-> c_in = 0%Z /\ (c_out = None \/ c_out = Some 0%Z)).
Proof.
  intros c_in use_norm kernel_size activation c_out stride padding padding_mode
    norm_type layers H.
  rewrite (init_conv_out_channels _ _ _ _ _ _ _ _ _ H). split.
  - intros [-> | ->]; f_equal;
      unfold ContractingBlock.effective_c_out, ContractingBlock.truthy;
      try change (0 =? 0)%Z with true; cbn [negb]; lia.
  - rewrite <- effective_c_out_zero. split; [intro H0; injection H0; auto | congruence].
Qed.

Lemma contracting_block_output_channels_witness :
  (@None Z = None \/ @None Z = Some 0%Z ->
   ContractingBlock.conv_out_channels
     [Conv2d 3 6 3 1 2 "reflect"; InstanceNorm2d 6; ReLU] = Some (2 * 3)%Z)
  /\ (ContractingBlock.conv_out_channels
        [Conv2d 3 6 3 1 2 "reflect"; InstanceNorm2d 6; ReLU] = Some 0%Z
      <-> 3%Z = 0%Z /\ (@None Z = None \/ @None Z = Some 0%Z)).
Proof.
  apply (@contracting_block_output_channels 3 None None None None None None None None
           [Conv2d 3 6 3 1 2 "reflect"; InstanceNorm2d 6; ReLU]).
  reflexivity.
Defined.

(** C9, as it is worded, fails: with [c_in = 0] and [c_out] left out the
    caller obtains a convolution of zero output channels. *)
Lemma zero_channel_output_obtained :
  exists layers,
    ContractingBlock.__init__ 0 None None None None None None None None = inr layers
    /\ ContractingBlock.conv_out_channels layers = Some 0%Z.
Proof.
  eexists. split; reflexivity.
Qed.

(** ** Finite arithmetic *)

Lemma xsum_finite (l : list R) : xsum (map Fin l) = Fin (Rsum l).
Proof.
  induction l as [| a l IH]; [reflexivity |].
  cbn [map xsum fold_right] in *. fold (xsum (map Fin l)). rewrite IH. reflexivity.
Qed.

Lemma xdiv_finite (a b : R) : (0 < b)%R -> xdiv (Fin a) (Fin b) = Fin (a / b).
Proof. intro H. cbn [xdiv]. rewrite (Rsign_pos H). reflexivity. Qed.

Lemma xlog_finite (a : R) : (0 < a)%R -> xlog (Fin a) = Fin (ln a).
Proof. intro H. cbn [xlog]. rewrite (Rsign_pos H). reflexivity. Qed.

Lemma Rsum_nonneg (l : list R) : Forall (fun x => (0 <= x)%R) l -> (0 <= Rsum l)%R.
Proof.
  induction 1 as [| a l Ha _ IH]; cbn [Rsum fold_right]; [lra |].
  fold (Rsum l). lra.
Qed.

Lemma Rsum_positive (l : list R) :
  l <> [] -> Forall (fun x => (0 < x)%R) l -> (0 < Rsum l)%R.
Proof.
  intros Hne H. destruct H as [| a l Ha Hl]; [contradiction |].
  cbn [Rsum fold_right]. fold (Rsum l).
  assert (0 <= Rsum l)%R
    by (apply Rsum_nonneg; eapply Forall_impl; [| exact Hl]; intros; cbv beta in *; lra).
  lra.
Qed.

Lemma Rsum_map_div (s : R) (l : list R) :
  Rsum (map (fun a => a / s)%R l) = (Rsum l / s)%R.
Proof.
  induction l as [| a l IH]; cbn [map Rsum fold_right].
  - unfold Rdiv. lra.
  - fold (Rsum (map (fun a => (a / s)%R) l)). fold (Rsum l). rewrite IH.
    unfold Rdiv. lra.
Qed.

(** The softmax of a row of finite logits is a row of probabilities, none
    of them zero. *)
Lemma softmax_row_finite (v : list R) :
  v <> [] ->
  exists p : list R,
    softmax_row (map Fin v) = map Fin p /\ length p = length v /\ positive_distribution p.
Proof.
  intro Hne.
  set (s := Rsum (map exp v)).
  assert (Hs : (0 < s)%R).
  { apply Rsum_positive.
    - destruct v; [contradiction | discriminate].
    - apply Forall_map, Forall_forall. intros a _. apply exp_pos. }
  exists (map (fun a => (a / s)%R) (map exp v)). split; [| split; [| split]].
  - assert (Hexp : map xexp (map Fin v) = map Fin (map exp v))
      by (rewrite !map_map; reflexivity).
    unfold softmax_row. cbv zeta. rewrite Hexp, xsum_finite. fold s.
    rewrite !map_map. apply map_ext_in. intros a _.
    apply xdiv_finite. exact Hs.
  - rewrite !length_map. reflexivity.
  - apply Forall_map, Forall_map, Forall_forall. intros a _.
    apply Rdiv_lt_0_compat; [apply exp_pos | exact Hs].
  - rewrite Rsum_map_div. fold s. field. lra.
Qed.

(** ** C10: what the constructors build *)

Lemma FID_init_inception {E : Env} chkpts_root device n_samples batch_size crop_fc inst :
  FID.__init__ chkpts_root device n_samples batch_size crop_fc = inr inst ->
  fc (inception inst)
  = (if match crop_fc with Some b => b | None => true end
     then Identity else Linear_2048_1000)
  /\ inception_sm inst = None.
Proof.
  unfold FID.__init__. cbn [bind Monad_result ret].
  destruct (load_model_chkpt _ _ _) as [e | p]; [discriminate |].
  cbn [params fc on_device].
  destruct (device_available _); [| discriminate].
  intro H. injection H as <-. cbn [inception inception_sm].
  destruct (match crop_fc with Some b => b | None => true end); split; reflexivity.
Qed.

Lemma softmax_rows_finite (logits : list (list R)) :
  Forall (fun v => v <> []) logits ->
  exists probs : list (list R),
    map softmax_row (finite_matrix logits) = finite_matrix probs
    /\ Forall positive_distribution probs.
Proof.
  induction 1 as [| v logits Hv _ (probs & Hprobs & Hdist)].
  - exists []. split; [reflexivity | constructor].
  - destruct (softmax_row_finite Hv) as (p & Hp & _ & Hpd).
    exists (p :: probs). split; [| constructor; assumption].
    unfold finite_matrix in *. cbn [map]. rewrite Hp, Hprobs. reflexivity.
Qed.

Lemma IS_init_built {E : Env} (r : result Instance) (inst : Instance) :
  (r = inr inst ->
   exists chkpts_root device n_samples batch_size base,
     FID.__init__ (Some chkpts_root) (Some device) (Some n_samples) (Some batch_size)
                  (Some false) = inr base
     /\ inst = set_inception_sm base {| sm_net := inception base; sm_dim := 1 |}) ->
  r = inr inst -> built_as_an_IS inst.
Proof.
  intros Hr H. destruct (Hr H) as (root & dev & n & b & base & Hbase & ->).
  destruct (FID_init_inception _ _ _ _ _ Hbase) as [Hfc _]. cbn in Hfc.
  split; [exists root, dev, n, b, base; split; [exact Hbase | reflexivity] |].
  cbn [set_inception_sm inception inception_sm].
  split; [exact Hfc |]. split; [reflexivity |]. split; [| split].
  - intros x features Hf. unfold inception_call. cbn [bind Monad_result].
    rewrite Hf, Hfc. reflexivity.
  - intros sm x logits Hsm Hcall. injection Hsm as <-.
    unfold inception_sm_call. cbn [sm_net sm_dim bind Monad_result].
    rewrite Hcall. reflexivity.
  - intros sm x logits Hsm Hne Hcall. injection Hsm as <-.
    destruct (softmax_rows_finite Hne) as (probs & Hprobs & Hdist).
    exists probs. split; [| exact Hdist].
    unfold inception_sm_call. cbn [sm_net sm_dim bind Monad_result].
    rewrite Hcall. cbn. rewrite Hprobs. reflexivity.
Qed.

Lemma IS__init_unfolds {E : Env} chkpts_root n_samples batch_size device inst :
  IS_.__init__ chkpts_root n_samples batch_size device = inr inst -> built_as_an_IS inst.
Proof.
  apply IS_init_built. unfold IS_.__init__. cbn [bind Monad_result ret]. intro H.
  match type of H with
  | context [FID.__init__ (Some ?r) (Some ?d) (Some ?n) (Some ?b) (Some false)] =>
      destruct (FID.__init__ (Some r) (Some d) (Some n) (Some b) (Some false))
        as [e | base] eqn:Hbase; [discriminate |];
      exists r, d, n, b, base
  end.
  split; [exact Hbase | injection H as <-; reflexivity].
Qed.

Lemma IS_init_unfolds {E : Env} chkpts_root device n_samples batch_size inst :
  IS.__init__ chkpts_root device n_samples batch_size = inr inst -> built_as_an_IS inst.
Proof.
  apply IS_init_built. unfold IS.__init__. cbn [bind Monad_result ret]. intro H.
  match type of H with
  | context [FID.__init__ (Some ?r) (Some ?d) (Some ?n) (Some ?b) (Some false)] =>
      destruct (FID.__init__ (Some r) (Some d) (Some n) (Some b) (Some false))
        as [e | base] eqn:Hbase; [discriminate |];
      exists r, d, n, b, base
  end.
  split; [exact Hbase | injection H as <-; reflexivity].
Qed.

(** C10. An [IS] instance, of is_.py or of is.py, is the [FID] instance
    built with [crop_fc=False] plus [inception_sm]: its network keeps the
    classification layer [fc], and [inception_sm] is that network followed
    by a softmax over dimension 1, whose rows on finite logits are
    probability rows.  A [FID] instance built with [crop_fc] left at its
    default [True] has [fc] replaced by the identity and returns the raw
    features. *)
Theorem IS_keeps_the_classifier_FID_crops_it :
  forall (E : Env) (chkpts_root device : option string) (n_samples batch_size : option Z)
         (inst : Instance),
    (IS_.__init__ chkpts_root n_samples batch_size device = inr inst ->
     built_as_an_IS inst)
    /\ (IS.__init__ chkpts_root device n_samples batch_size = inr inst ->
        built_as_an_IS inst)
    /\ (FID.__init__ chkpts_root device n_samples batch_size None = inr inst ->
        fc (inception inst) = Identity
        /\ inception_sm inst = None
        /\ forall x, inception_call (inception inst) x
                     = inception_features (params (inception inst)) x).
Proof.
  intros E chkpts_root device n_samples batch_size inst.
  split; [apply IS__init_unfolds |]. split; [apply IS_init_unfolds |].
  intro H. destruct (FID_init_inception _ _ _ _ _ H) as [Hfc Hsm]. cbn in Hfc.
  split; [exact Hfc |]. split; [exact Hsm |].
  intro x. unfold inception_call. cbn [bind Monad_result]. rewrite Hfc.
  destruct (inception_features (params (inception inst)) x); reflexivity.
Qed.

Lemma IS_keeps_the_classifier_FID_crops_it_witness :
  @built_as_an_IS demo_env demo_is.
Proof.
  refine (proj1 (@IS_keeps_the_classifier_FID_crops_it demo_env None None None None
                   demo_is) _).
  reflexivity.
Defined.

(** ** The Inception Score of the two modules against the formula *)

Lemma Rsum_cons (a : R) (l : list R) : Rsum (a :: l) = (a + Rsum l)%R.
Proof. reflexivity. Qed.

Lemma Rsum_map_plus (A : Type) (f g : A -> R) (l : list A) :
  Rsum (map (fun x => f x + g x)%R l) = (Rsum (map f l) + Rsum (map g l))%R.
Proof.
  induction l as [| a l IH]; cbn [map]; rewrite ?Rsum_cons.
  - cbn. lra.
  - rewrite IH. lra.
Qed.

Lemma Rsum_map_zero (A : Type) (l : list A) : Rsum (map (fun _ => 0%R) l) = 0%R.
Proof.
  induction l as [| a l IH]; cbn [map]; rewrite ?Rsum_cons; [reflexivity | lra].
Qed.

Lemma map_nth_seq (r : list R) :
  map (fun j => nth j r 0%R) (seq 0 (length r)) = r.
Proof.
  induction r as [| a r IH]; [reflexivity |].
  cbn [length seq map nth]. f_equal.
  rewrite <- seq_shift, map_map. exact IH.
Qed.

Lemma column_sums_total (c : nat) (m : list (list R)) :
  Forall (fun p => length p = c) m ->
  Rsum (map (column_sum m) (seq 0 c)) = Rsum (map Rsum m).
Proof.
  induction 1 as [| r m Hr _ IH].
  - unfold column_sum. cbn [map]. apply Rsum_map_zero.
  - cbn [map]. rewrite Rsum_cons, <- IH.
    unfold column_sum at 1. cbn [map].
    erewrite map_ext by (intro j; rewrite Rsum_cons; reflexivity).
    rewrite (Rsum_map_plus (fun j => nth j r 0%R)
               (fun j => Rsum (map (fun row => nth j row 0%R) m))).
    rewrite <- Hr at 1. rewrite map_nth_seq. reflexivity.
Qed.

Lemma Rsum_map_one (m : list (list R)) :
  Forall (fun p => Rsum p = 1%R) m -> Rsum (map Rsum m) = INR (length m).
Proof.
  induction 1 as [| r m Hr _ IH]; [reflexivity |].
  cbn [map]. rewrite Rsum_cons, IH, Hr.
  change (length (r :: m)) with (S (length m)). rewrite S_INR. lra.
Qed.

Lemma INR_length_pos (A : Type) (l : list A) : l <> [] -> (0 < INR (length l))%R.
Proof.
  intro H. destruct l; [contradiction |].
  cbn [length]. apply lt_0_INR. lia.
Qed.

Lemma mean_of_rows_columns (c : nat) (m : list (list R)) :
  m <> [] -> Forall (fun p => length p = c) m ->
  mean_of_rows m = map (fun j => (column_sum m j / INR (length m))%R) (seq 0 c).
Proof.
  intros Hne H. unfold mean_of_rows.
  destruct H as [| r m Hr Hm]; [contradiction |]. cbn [hd]. rewrite Hr. reflexivity.
Qed.

(** The mean of probability rows is a row that sums to 1. *)
Lemma mean_of_rows_sum (c : nat) (m : list (list R)) :
  m <> [] -> Forall (fun p => length p = c) m -> Forall (fun p => Rsum p = 1%R) m ->
  Rsum (mean_of_rows m) = 1%R.
Proof.
  intros Hne Hc H1. rewrite (mean_of_rows_columns Hne Hc).
  rewrite <- (map_map (column_sum m) (fun a => (a / INR (length m))%R)).
  rewrite Rsum_map_div, (column_sums_total Hc), (Rsum_map_one H1).
  pose proof (INR_length_pos Hne). field. lra.
Qed.

Lemma column_sum_bounds (m : list (list R)) (j : nat) (p : list R) :
  Forall (Forall (fun x => (0 <= x)%R)) m -> In p m ->
  (0 <= nth j p 0 <= column_sum m j)%R.
Proof.
  intros Hm Hin. unfold column_sum.
  assert (Hnn : forall q, Forall (fun x => (0 <= x)%R) q -> (0 <= nth j q 0)%R).
  { intros q Hq. destruct (Nat.lt_ge_cases j (length q)) as [Hlt | Hge].
    - rewrite Forall_forall in Hq. apply Hq, nth_In, Hlt.
    - rewrite nth_overflow by exact Hge. lra. }
  induction Hm as [| r m Hr Hm IH]; [contradiction |].
  cbn [map]. rewrite Rsum_cons.
  assert (0 <= Rsum (map (fun row => nth j row 0%R) m))%R.
  { apply Rsum_nonneg, Forall_map. eapply Forall_impl; [| exact Hm].
    intros q Hq. apply Hnn, Hq. }
  destruct Hin as [<- | Hin].
  - pose proof (Hnn _ Hr). lra.
  - pose proof (IH Hin). pose proof (Hnn _ Hr). lra.
Qed.

Lemma Forall2_nth_seq (P : R -> R -> Prop) (f : nat -> R) (p : list R) :
  (forall j, (j < length p)%nat -> P (nth j p 0%R) (f j)) ->
  Forall2 P p (map f (seq 0 (length p))).
Proof.
  revert f. induction p as [| a p IH]; intros f H; [constructor |].
  cbn [length seq map]. constructor.
  - apply (H 0%nat). cbn. lia.
  - rewrite <- seq_shift, map_map. apply IH.
    intros j Hj. apply (H (S j)). cbn. lia.
Qed.

Lemma mean_of_rows_dominates (c : nat) (m : list (list R)) (p : list R) :
  Forall (fun p => length p = c) m ->
  Forall (Forall (fun x => (0 <= x)%R)) m ->
  In p m -> dominated p (mean_of_rows m).
Proof.
  intros Hc Hm Hin.
  assert (Hne : m <> []) by (intros ->; contradiction).
  rewrite (mean_of_rows_columns Hne Hc).
  assert (Hp : length p = c) by (rewrite Forall_forall in Hc; apply Hc, Hin).
  rewrite <- Hp. apply Forall2_nth_seq. intros j _.
  pose proof (@column_sum_bounds m j p Hm Hin) as [H0 H1].
  pose proof (INR_length_pos Hne) as Hn.
  split; [exact H0 |]. split.
  - apply Rmult_le_pos; [lra |]. left. apply Rinv_0_lt_compat, Hn.
  - intro Hpos. apply Rdiv_lt_0_compat; lra.
Qed.

(** *** The tensors of a matrix of reals *)

Lemma column_finite (c : nat) (m : list (list R)) (j : nat) :
  Forall (fun p => length p = c) m -> (j < c)%nat ->
  column j (finite_matrix m) = map Fin (map (fun row => nth j row 0%R) m).
Proof.
  intros H Hj. unfold column, finite_matrix. rewrite !map_map.
  apply map_ext_in. intros row Hin.
  rewrite Forall_forall in H. specialize (H _ Hin).
  rewrite (nth_indep _ NaN (Fin 0)) by (rewrite length_map; lia).
  apply (map_nth Fin).
Qed.

Lemma xmean_finite (l : list R) :
  l <> [] -> xmean (map Fin l) = Fin (Rsum l / INR (length l)).
Proof.
  intro Hne. unfold xmean, xof_nat. rewrite xsum_finite, length_map.
  apply xdiv_finite, INR_length_pos, Hne.
Qed.

Lemma torch_mean0_finite (c : nat) (m : list (list R)) :
  m <> [] -> Forall (fun p => length p = c) m ->
  torch_mean0 (finite_matrix m) = map Fin (mean_of_rows m).
Proof.
  intros Hne Hc. rewrite (mean_of_rows_columns Hne Hc).
  unfold torch_mean0, width.
  assert (Hw : length (hd [] (finite_matrix m)) = c).
  { destruct Hc as [| r m Hr Hm]; [contradiction |].
    cbn [finite_matrix map hd]. rewrite length_map. exact Hr. }
  rewrite Hw, map_map. apply map_ext_in. intros j Hj.
  apply in_seq in Hj.
  rewrite (@column_finite c) by (assumption || lia).
  rewrite xmean_finite by (destruct m; [contradiction | discriminate]).
  rewrite length_map. reflexivity.
Qed.

(** *** One row against the mean row *)

Lemma map2_cons (A B C : Type) (f : A -> B -> C) a b u v :
  map2 f (a :: u) (b :: v) = f a b :: map2 f u v.
Proof. reflexivity. Qed.

Lemma normalised_already (p : list R) :
  Rsum p = 1%R ->
  map (fun x => xdiv x (xsum (map Fin p))) (map Fin p) = map Fin p.
Proof.
  intro H. rewrite xsum_finite, H, map_map. apply map_ext. intro a.
  rewrite xdiv_finite by lra. f_equal. field.
Qed.

Lemma rel_entr_finite (a b : R) :
  (0 <= a)%R -> (0 <= b)%R -> ((0 < a)%R -> (0 < b)%R) ->
  rel_entr (Fin a) (Fin b) = Fin (kl_term a b).
Proof.
  intros Ha Hb Hab. unfold rel_entr, kl_term, xpositive, xzero, xnonneg.
  sign_cases a; [lra | |].
  - sign_cases b; [lra | |]; reflexivity.
  - rewrite (Rsign_pos (Hab Hr)). cbn [andb].
    rewrite (xdiv_finite _ (Hab Hr)).
    rewrite xlog_finite by (apply Rdiv_lt_0_compat; auto).
    reflexivity.
Qed.

Lemma torch_term_finite (a b : R) :
  (0 < a)%R -> (0 < b)%R ->
  xmul (Fin a) (xlog (xdiv (Fin a) (Fin b))) = Fin (kl_term a b).
Proof.
  intros Ha Hb. unfold kl_term. rewrite (Rsign_pos Ha).
  rewrite (xdiv_finite _ Hb), xlog_finite by (apply Rdiv_lt_0_compat; assumption).
  reflexivity.
Qed.

(** scipy's entropy of a probability row against a row that dominates it
    is their Kullback-Leibler divergence. *)
Lemma scipy_entropy_D_kl (p q : list R) :
  Rsum p = 1%R -> Rsum q = 1%R -> dominated p q ->
  scipy_entropy (map Fin p) (map Fin q) = inr (Fin (D_kl p q)).
Proof.
  intros Hp Hq Hd. unfold scipy_entropy. cbv zeta.
  rewrite (@normalised_already p Hp), (@normalised_already q Hq), !length_map.
  rewrite (Forall2_length Hd), Nat.eqb_refl. cbn [negb]. do 2 f_equal.
  unfold D_kl. rewrite <- xsum_finite. f_equal.
  clear Hp Hq. induction Hd as [| a b p q (Ha & Hb & Hab) _ IH]; [reflexivity |].
  cbn [map]. rewrite !map2_cons. cbn [map]. rewrite IH, rel_entr_finite by assumption.
  reflexivity.
Qed.

(** The term of is_.py is that divergence where no probability is zero. *)
Lemma torch_row_D_kl (p q : list R) :
  length p = length q ->
  Forall (fun x => (0 < x)%R) p -> Forall (fun x => (0 < x)%R) q ->
  (d <- bcast1 xdiv (map Fin p) (map Fin q) ;;
   t <- bcast1 xmul (map Fin p) (map xlog d) ;;
   ret (xsum t)) = inr (Fin (D_kl p q)).
Proof.
  intros Hlen Hp Hq. unfold bcast1 at 1. rewrite !length_map, Hlen, Nat.eqb_refl.
  cbn [bind Monad_result]. unfold bcast1.
  assert (Hl2 : length (map xlog (map2 xdiv (map Fin p) (map Fin q))) = length p).
  { unfold map2. rewrite !length_map, length_combine, !length_map. lia. }
  rewrite Hl2, length_map, Nat.eqb_refl. cbn [bind Monad_result ret]. do 2 f_equal.
  unfold D_kl. rewrite <- xsum_finite. f_equal. clear Hl2.
  revert q Hlen Hq. induction Hp as [| a p Ha _ IH]; intros [| b q] Hlen Hq;
    try discriminate; [reflexivity |].
  inversion Hq as [| ? ? Hb Hq']; subst.
  cbn [map]. rewrite !map2_cons. cbn [map]. rewrite map2_cons.
  rewrite (IH q) by (auto; cbn in Hlen; lia).
  rewrite torch_term_finite by assumption. reflexivity.
Qed.

Lemma mapM_rows (f : list xreal -> result xreal) (g : list R -> R) (m : list (list R)) :
  (forall p, In p m -> f (map Fin p) = inr (Fin (g p))) ->
  mapM f (finite_matrix m) = inr (map Fin (map g m)).
Proof.
  induction m as [| p m IH]; intro H; [reflexivity |].
  cbn [finite_matrix map mapM]. rewrite (H p) by (left; reflexivity).
  fold (finite_matrix m). rewrite IH by (intros q Hq; apply H; right; exact Hq).
  reflexivity.
Qed.

Lemma distribution_sums (m : list (list R)) :
  Forall distribution m -> Forall (fun p => Rsum p = 1%R) m.
Proof. apply Forall_impl. intros p [_ H]. exact H. Qed.

Lemma distribution_nonneg (m : list (list R)) :
  Forall distribution m -> Forall (Forall (fun x => (0 <= x)%R)) m.
Proof. apply Forall_impl. intros p [H _]. exact H. Qed.

Lemma positive_is_distribution (p : list R) : positive_distribution p -> distribution p.
Proof.
  intros [H Hs]. split; [| exact Hs].
  eapply Forall_impl; [| exact H]. intros; cbv beta in *; lra.
Qed.

(** The score of is.py is the Inception Score of every non-empty matrix of
    probability rows. *)
Lemma numpy_inception_score_formula (c : nat) (m : list (list R)) :
  m <> [] -> Forall (fun p => length p = c) m -> Forall distribution m ->
  IS.inception_score (finite_matrix m) = inr (Fin (inception_score_formula m)).
Proof.
  intros Hne Hc Hd. unfold IS.inception_score, np_mean0. cbv zeta.
  rewrite (torch_mean0_finite Hne Hc).
  rewrite (@mapM_rows _ (fun p => D_kl p (mean_of_rows m))).
  - cbn [bind Monad_result ret]. rewrite xmean_finite.
    + rewrite length_map. reflexivity.
    + destruct m; [contradiction | discriminate].
  - intros p Hin. apply scipy_entropy_D_kl.
    + pose proof (distribution_sums Hd) as Hs. rewrite Forall_forall in Hs. apply Hs, Hin.
    + apply (mean_of_rows_sum Hne Hc), distribution_sums, Hd.
    + apply (@mean_of_rows_dominates c m p Hc); [apply distribution_nonneg, Hd | exact Hin].
Qed.

(** The score of is_.py is the Inception Score of every non-empty matrix of
    probability rows none of which holds a zero. *)
Lemma torch_inception_score_formula (c : nat) (m : list (list R)) :
  m <> [] -> Forall (fun p => length p = c) m -> Forall positive_distribution m ->
  IS_.inception_score (finite_matrix m) = inr (Fin (inception_score_formula m)).
Proof.
  intros Hne Hc Hd. unfold IS_.inception_score. cbv zeta.
  assert (Hd' : Forall distribution m)
    by (eapply Forall_impl; [| exact Hd]; apply positive_is_distribution).
  rewrite (torch_mean0_finite Hne Hc).
  rewrite (@mapM_rows _ (fun p => D_kl p (mean_of_rows m))).
  - cbn [bind Monad_result ret]. unfold torch_stack.
    destruct m as [| p m]; [contradiction |]. cbn [map].
    change (Fin (D_kl p (mean_of_rows (p :: m)))
              :: map Fin (map (fun p0 => D_kl p0 (mean_of_rows (p :: m))) m))
      with (map Fin (map (fun p0 => D_kl p0 (mean_of_rows (p :: m))) (p :: m))).
    rewrite xmean_finite by discriminate.
    rewrite length_map. reflexivity.
  - intros p Hin.
    assert (Hp : positive_distribution p) by (rewrite Forall_forall in Hd; apply Hd, Hin).
    pose proof (@mean_of_rows_dominates c m p Hc (distribution_nonneg Hd') Hin) as Hdom.
    apply torch_row_D_kl.
    + apply (Forall2_length Hdom).
    + apply Hp.
    + destruct Hp as [Hp _]. clear - Hp Hdom.
      induction Hdom as [| a b p q (Ha & Hb & Hab) _ IH]; constructor;
        inversion Hp; subst; auto.
Qed.

(** *** A probability that is exactly zero *)

Lemma xadd_NaN_r (x : xreal) : xadd x NaN = NaN.
Proof. destruct x; reflexivity. Qed.

Lemma xsum_NaN (l : list xreal) : In NaN l -> xsum l = NaN.
Proof.
  induction l as [| a l IH]; [contradiction |].
  intros [-> | Hin]; cbn [xsum fold_right]; [reflexivity |].
  fold (xsum l). rewrite (IH Hin). apply xadd_NaN_r.
Qed.

Lemma xmean_NaN (l : list xreal) : In NaN l -> xmean l = NaN.
Proof. intro H. unfold xmean. rewrite (@xsum_NaN l H). reflexivity. Qed.

(** [0 * log(0 / y)] is NaN whatever [y] is: [0 / 0] is NaN, and otherwise
    [log 0 = -inf] and [0 * -inf] is NaN. *)
Lemma torch_term_zero (y : xreal) : xmul (Fin 0) (xlog (xdiv (Fin 0) y)) = NaN.
Proof.
  assert (H0 : xmul (Fin 0) (xlog (Fin 0)) = NaN).
  { cbn [xlog]. rewrite Rsign_zero. cbn [xmul]. rewrite Rsign_zero. reflexivity. }
  destruct y as [b | | |]; cbn [xdiv]; try exact H0; [| reflexivity].
  sign_cases b.
  - replace (0 / b)%R with 0%R by (unfold Rdiv; ring). exact H0.
  - rewrite Rsign_zero. reflexivity.
  - replace (0 / b)%R with 0%R by (unfold Rdiv; ring). exact H0.
Qed.

(** The term of one row in is_.py, on tensors of one size. *)
Lemma torch_row_term (u v : list xreal) :
  length u = length v ->
  (d <- bcast1 xdiv u v ;;
   t <- bcast1 xmul u (map xlog d) ;;
   ret (xsum t))
  = inr (xsum (map2 (fun a b => xmul a (xlog (xdiv a b))) u v)).
Proof.
  intro Hlen. unfold bcast1 at 1. rewrite Hlen, Nat.eqb_refl.
  cbn [bind Monad_result]. unfold bcast1.
  assert (Hl2 : length (map xlog (map2 xdiv u v)) = length u).
  { unfold map2. rewrite !length_map, length_combine. lia. }
  rewrite Hl2, Nat.eqb_refl. cbn [bind Monad_result ret]. do 2 f_equal.
  clear Hl2. revert v Hlen. induction u as [| a u IH]; intros [| b v] Hlen;
    try discriminate; [reflexivity |].
  cbn [map]. rewrite !map2_cons. cbn [map]. rewrite map2_cons.
  rewrite (IH v) by (cbn in Hlen; lia). reflexivity.
Qed.

Lemma torch_row_zero (p : list R) (v : list xreal) :
  length p = length v -> In 0%R p ->
  In NaN (map2 (fun a b => xmul a (xlog (xdiv a b))) (map Fin p) v).
Proof.
  revert v. induction p as [| a p IH]; intros [| b v] Hlen Hin;
    try discriminate; try contradiction.
  cbn [map]. rewrite map2_cons. destruct Hin as [-> | Hin].
  - left. apply torch_term_zero.
  - right. apply IH; [cbn in Hlen; lia | exact Hin].
Qed.

Lemma torch_mean0_length (c : nat) (m : list (list R)) :
  m <> [] -> Forall (fun p => length p = c) m ->
  length (torch_mean0 (finite_matrix m)) = c.
Proof.
  intros Hne Hc. unfold torch_mean0, width. rewrite length_map, length_seq.
  destruct Hc as [| r m Hr _]; [contradiction |].
  cbn [finite_matrix map hd]. rewrite length_map. exact Hr.
Qed.

Lemma mapM_torch_rows (c : nat) (v : list xreal) (m : list (list R)) :
  length v = c -> Forall (fun p => length p = c) m ->
  mapM (fun u => d <- bcast1 xdiv u v ;;
                 t <- bcast1 xmul u (map xlog d) ;;
                 ret (xsum t))
       (finite_matrix m)
  = inr (map (fun p => xsum (map2 (fun a b => xmul a (xlog (xdiv a b))) (map Fin p) v)) m).
Proof.
  intros Hv. induction 1 as [| p m Hp _ IH]; [reflexivity |].
  cbn [finite_matrix map mapM]. fold (finite_matrix m).
  rewrite torch_row_term by (rewrite length_map; lia).
  rewrite IH. reflexivity.
Qed.

(** is_.py returns NaN as soon as one probability is exactly zero. *)
Lemma torch_inception_score_nan (c : nat) (m : list (list R)) (p : list R) :
  Forall (fun p => length p = c) m -> In p m -> In 0%R p ->
  IS_.inception_score (finite_matrix m) = inr NaN.
Proof.
  intros Hc Hin H0.
  assert (Hne : m <> []) by (intros ->; contradiction).
  unfold IS_.inception_score. cbv zeta.
  rewrite (@mapM_torch_rows c) by (try apply torch_mean0_length; assumption).
  cbn [bind Monad_result ret].
  set (kls := map _ m).
  assert (Hnan : In NaN kls).
  { unfold kls. apply in_map_iff. exists p. split; [| exact Hin].
    apply xsum_NaN, torch_row_zero; [| exact H0].
    rewrite (@torch_mean0_length c) by assumption.
    rewrite Forall_forall in Hc. apply Hc, Hin. }
  unfold torch_stack. destruct kls as [| k kls]; [contradiction |].
  cbn [bind Monad_result ret]. rewrite (@xmean_NaN _ Hnan). reflexivity.
Qed.

(** Two samples, each classified with probability 1, into two classes. *)
Lemma sure_predictions_rows :
  sure_predictions <> []
  /\ Forall (fun p => length p = 2%nat) sure_predictions
  /\ Forall distribution sure_predictions.
Proof.
  unfold sure_predictions. split; [discriminate |]. split.
  - repeat constructor.
  - repeat constructor; cbn; lra.
Qed.

Lemma sure_predictions_score : inception_score_formula sure_predictions = 2%R.
Proof.
  unfold inception_score_formula, sure_predictions, mean_of_rows, D_kl, kl_term.
  cbn [length hd seq map map2 combine fst snd nth Rsum fold_right INR].
  rewrite Rsign_zero, (@Rsign_pos 1) by lra.
  replace (1 / ((1 + (0 + 0)) / (1 + 1)))%R with 2%R by field.
  replace (1 / ((0 + (1 + 0)) / (1 + 1)))%R with 2%R by field.
  replace ((1 * ln 2 + (0 + 0) + (0 + (1 * ln 2 + 0) + 0)) / (1 + 1))%R with (ln 2) by field.
  apply exp_ln. lra.
Qed.

(** Logits that leave no mass on one class: the softmax row holds a zero. *)
Lemma softmax_reaches_sure_predictions :
  torch_softmax 1 [[Fin 0; NInf]; [NInf; Fin 0]] = inr (finite_matrix sure_predictions).
Proof.
  unfold torch_softmax, softmax_row, sure_predictions.
  cbn [Z.eqb Pos.eqb orb map xexp xsum fold_right xadd finite_matrix].
  assert (H1 : (0 < exp 0 + (0 + 0))%R) by (rewrite exp_0; lra).
  assert (H2 : (0 < 0 + (exp 0 + 0))%R) by (rewrite exp_0; lra).
  rewrite !(xdiv_finite _ H1), !(xdiv_finite _ H2).
  rewrite exp_0. do 2 f_equal; [| f_equal]; repeat f_equal; field.
Qed.

(** C2. On the predictions [[1, 0], [0, 1]] (two samples, two classes, each
    sample classified with probability 1) the rows are probability
    distributions and exp of the mean Kullback-Leibler divergence to the
    mean row [0.5, 0.5] is 2.  is.py returns 2; is_.py multiplies the zero
    probability by [log 0 = -inf] and returns NaN. *)
Theorem torch_score_is_nan_where_the_inception_score_is_2 :
  Forall distribution sure_predictions
  /\ inception_score_formula sure_predictions = 2%R
  /\ IS.inception_score (finite_matrix sure_predictions) = inr (Fin 2)
  /\ IS_.inception_score (finite_matrix sure_predictions) = inr NaN.
Proof.
  destruct sure_predictions_rows as (Hne & Hc & Hd).
  split; [exact Hd |]. split; [exact sure_predictions_score |]. split.
  - rewrite (numpy_inception_score_formula Hne Hc Hd), sure_predictions_score.
    reflexivity.
  - apply (@torch_inception_score_nan 2 sure_predictions [1; 0]%R Hc);
      cbn; auto.
Qed.

(** C3. On a matrix of rows that are non-negative and sum to 1, the two
    computations agree when no probability is zero and differ when one is:
    the computation of is.py returns exp of the mean divergence, that of
    is_.py returns NaN. *)
Theorem the_two_scores_differ_on_a_zero_probability :
  forall (c : nat) (m : list (list R)),
    m <> [] -> Forall (fun p => length p = c) m -> Forall distribution m ->
    (Forall positive_distribution m ->
     IS_.inception_score (finite_matrix m) = IS.inception_score (finite_matrix m))
    /\ ((exists p, In p m /\ In 0%R p) ->
        IS.inception_score (finite_matrix m) = inr (Fin (inception_score_formula m))
        /\ IS_.inception_score (finite_matrix m) = inr NaN).
Proof.
  intros c m Hne Hc Hd. split.
  - intro Hp. rewrite (torch_inception_score_formula Hne Hc Hp).
    rewrite (numpy_inception_score_formula Hne Hc Hd). reflexivity.
  - intros (p & Hin & H0). split.
    + apply (numpy_inception_score_formula Hne Hc Hd).
    + apply (@torch_inception_score_nan c m p Hc Hin H0).
Qed.

Lemma the_two_scores_differ_on_a_zero_probability_witness :
  IS.inception_score (finite_matrix sure_predictions)
  = inr (Fin (inception_score_formula sure_predictions))
  /\ IS_.inception_score (finite_matrix sure_predictions) = inr NaN.
Proof.
  destruct sure_predictions_rows as (Hne & Hc & Hd).
  refine (proj2 (@the_two_scores_differ_on_a_zero_probability 2 sure_predictions
                   Hne Hc Hd) _).
  exists [1; 0]%R. split; [left; reflexivity | right; left; reflexivity].
Defined.

(** * Further properties of the code *)

(** ** The range of the Inception Score *)

Lemma ln_le_minus_1 (t : R) : (0 < t)%R -> (ln t <= t - 1)%R.
Proof.
  intro Ht. pose proof (exp_ineq1_le (ln t)) as H.
  rewrite (exp_ln _ Ht) in H. lra.
Qed.

Lemma ln_le_compat (x y : R) : (0 < x)%R -> (x <= y)%R -> (ln x <= ln y)%R.
Proof.
  intros Hx [Hlt | ->]; [left; apply ln_increasing; assumption | lra].
Qed.

Lemma ln_ratio (a b : R) : (0 < a)%R -> (0 < b)%R -> ln (a / b) = (ln a - ln b)%R.
Proof.
  intros Ha Hb. unfold Rdiv. rewrite ln_mult by (auto using Rinv_0_lt_compat).
  rewrite ln_Rinv by assumption. lra.
Qed.

Lemma Rsum_map_le (A : Type) (f g : A -> R) (l : list A) :
  (forall x, In x l -> (f x <= g x)%R) -> (Rsum (map f l) <= Rsum (map g l))%R.
Proof.
  induction l as [| a l IH]; intro H; cbn [map]; rewrite ?Rsum_cons.
  - cbn. lra.
  - pose proof (H a (or_introl eq_refl)).
    pose proof (IH (fun x Hx => H x (or_intror Hx))). lra.
Qed.

Lemma Rsum_map_scale (A : Type) (k : R) (f : A -> R) (l : list A) :
  Rsum (map (fun x => k * f x)%R l) = (k * Rsum (map f l))%R.
Proof.
  induction l as [| a l IH]; cbn [map]; rewrite ?Rsum_cons.
  - cbn. lra.
  - rewrite IH. lra.
Qed.

Lemma Rsum_map_minus (A : Type) (f g : A -> R) (l : list A) :
  Rsum (map (fun x => f x - g x)%R l) = (Rsum (map f l) - Rsum (map g l))%R.
Proof.
  induction l as [| a l IH]; cbn [map]; rewrite ?Rsum_cons.
  - cbn. lra.
  - rewrite IH. lra.
Qed.

Lemma Rsum_map_opp (A : Type) (f : A -> R) (l : list A) :
  Rsum (map (fun x => - f x)%R l) = (- Rsum (map f l))%R.
Proof.
  induction l as [| a l IH]; cbn [map]; rewrite ?Rsum_cons.
  - cbn. lra.
  - rewrite IH. lra.
Qed.

Lemma Rsum_map_const (A : Type) (k : R) (l : list A) :
  Rsum (map (fun _ => k) l) = (INR (length l) * k)%R.
Proof.
  induction l as [| a l IH]; cbn [map]; rewrite ?Rsum_cons.
  - cbn. lra.
  - rewrite IH. change (length (a :: l)) with (S (length l)). rewrite S_INR. lra.
Qed.

(** Sums over the rows and over the columns may change places. *)
Lemma Rsum_exchange (A B : Type) (F : A -> B -> R) (xs : list A) (ys : list B) :
  Rsum (map (fun x => Rsum (map (fun y => F x y) ys)) xs)
  = Rsum (map (fun y => Rsum (map (fun x => F x y) xs)) ys).
Proof.
  induction xs as [| x xs IH]; cbn [map].
  - rewrite Rsum_map_zero. reflexivity.
  - rewrite Rsum_cons, IH.
    erewrite (map_ext (fun y => Rsum (F x y :: map (fun x0 => F x0 y) xs)))
      by (intro y; apply Rsum_cons).
    rewrite (Rsum_map_plus (fun y => F x y)
               (fun y => Rsum (map (fun x0 => F x0 y) xs))).
    reflexivity.
Qed.

Lemma Rsum_by_index (p : list R) : Rsum p = Rsum (map (fun j => nth j p 0%R) (seq 0 (length p))).
Proof. rewrite map_nth_seq. reflexivity. Qed.

Lemma D_kl_by_index (c : nat) (p q : list R) :
  length p = c -> length q = c ->
  D_kl p q = Rsum (map (fun j => kl_term (nth j p 0%R) (nth j q 0%R)) (seq 0 c)).
Proof.
  intros Hp Hq. unfold D_kl. rewrite (@map2_by_index _ _ _ kl_term 0%R 0%R c p q Hp Hq). reflexivity.
Qed.

Lemma nth_mean_of_rows (c : nat) (m : list (list R)) (j : nat) :
  m <> [] -> Forall (fun p => length p = c) m -> (j < c)%nat ->
  nth j (mean_of_rows m) 0%R = (column_sum m j / INR (length m))%R.
Proof.
  intros Hne Hc Hj. rewrite (mean_of_rows_columns Hne Hc).
  set (f := fun j : nat => (column_sum m j / INR (length m))%R).
  transitivity (nth j (map f (seq 0 c)) (f 0%nat)).
  - apply nth_indep. rewrite length_map, length_seq. exact Hj.
  - rewrite (map_nth f), seq_nth by exact Hj. reflexivity.
Qed.

(** *** The three bounds of one term *)

Lemma kl_term_split (a b : R) :
  (0 <= a)%R -> ((0 < a)%R -> (0 < b)%R) ->
  kl_term a b = (plogp a - a * log_or_zero b)%R.
Proof.
  intros Ha Hab. unfold kl_term, plogp, log_or_zero.
  sign_cases a; [lra | rewrite Hr; lra |].
  rewrite (Rsign_pos (Hab Hr)), (ln_ratio Hr (Hab Hr)). lra.
Qed.

Lemma kl_term_lower (a b : R) :
  (0 <= a)%R -> (0 <= b)%R -> ((0 < a)%R -> (0 < b)%R) -> (a - b <= kl_term a b)%R.
Proof.
  intros Ha Hb Hab. unfold kl_term. sign_cases a; [lra | lra |].
  pose proof (Hab Hr) as Hb'.
  assert (Ht : (0 < b / a)%R) by (apply Rdiv_lt_0_compat; assumption).
  pose proof (ln_le_minus_1 Ht) as Hln.
  rewrite (ln_ratio Hb' Hr) in Hln. rewrite (ln_ratio Hr Hb').
  assert (Hm : (a * (ln b - ln a) <= a * (b / a - 1))%R)
    by (apply Rmult_le_compat_l; lra).
  replace (a * (b / a - 1))%R with (b - a)%R in Hm by (field; lra).
  lra.
Qed.

Lemma kl_term_upper (a b k : R) :
  (0 <= a)%R -> ((0 < a)%R -> (0 < b)%R) -> (a <= k * b)%R ->
  (kl_term a b <= a * ln k)%R.
Proof.
  intros Ha Hab Hk. unfold kl_term. sign_cases a; [lra | rewrite Hr; lra |].
  pose proof (Hab Hr) as Hb.
  apply Rmult_le_compat_l; [lra |].
  apply ln_le_compat; [apply Rdiv_lt_0_compat; assumption |].
  apply (Rmult_le_reg_r b); [exact Hb |].
  replace (a / b * b)%R with a by (field; lra). exact Hk.
Qed.

Lemma plogp_nonpos (a : R) : (0 <= a <= 1)%R -> (plogp a <= 0)%R.
Proof.
  intros [Ha H1]. unfold plogp. sign_cases a; [lra | lra |].
  pose proof (ln_le_compat Hr H1) as Hln. rewrite ln_1 in Hln.
  assert (a * ln a <= a * 0)%R by (apply Rmult_le_compat_l; lra). lra.
Qed.

Lemma plogp_log_or_zero (a : R) : (0 <= a)%R -> plogp a = (a * log_or_zero a)%R.
Proof.
  intro Ha. unfold plogp, log_or_zero. sign_cases a; [lra | rewrite Hr; lra | lra].
Qed.

(** Against the uniform distribution over [k] classes. *)
Lemma entropy_term_lower (a k : R) :
  (0 <= a)%R -> (0 < k)%R -> (a - / k <= a * log_or_zero a + a * ln k)%R.
Proof.
  intros Ha Hk.
  pose proof (Rinv_0_lt_compat _ Hk) as Hik.
  assert (Hab : (0 < a)%R -> (0 < / k)%R) by auto.
  pose proof (@kl_term_lower a (/ k) Ha (Rlt_le _ _ Hik) Hab) as Hlow.
  rewrite (kl_term_split Ha Hab), (plogp_log_or_zero Ha) in Hlow.
  unfold log_or_zero at 2 in Hlow. rewrite (Rsign_pos Hik), (ln_Rinv _ Hk) in Hlow.
  lra.
Qed.

(** *** The bounds of the formula *)

Lemma entry_le_sum (p : list R) (j : nat) :
  Forall (fun x => (0 <= x)%R) p -> (0 <= nth j p 0 <= Rsum p)%R.
Proof.
  intro H. revert j. induction H as [| a p Ha Hp IH]; intro j.
  - destruct j; cbn; lra.
  - rewrite Rsum_cons. pose proof (Rsum_nonneg Hp) as Hs. destruct j as [| j]; cbn [nth].
    + lra.
    + specialize (IH j). lra.
Qed.

Section ScoreBounds.
Variables (c : nat) (m : list (list R)).
Hypothesis Hne : m <> [].
Hypothesis Hc : Forall (fun p => length p = c) m.
Hypothesis Hd : Forall distribution m.

Local Abbreviation q := (mean_of_rows m).
Local Abbreviation N := (INR (length m)).

Lemma samples_positive : (0 < N)%R.
Proof. apply INR_length_pos, Hne. Qed.

Lemma classes_positive : (0 < INR c)%R.
Proof.
  destruct m as [| p m']; [contradiction |].
  inversion Hc as [| ? ? Hp _]; subst. inversion Hd as [| ? ? [_ Hs] _]; subst.
  destruct p; [cbn in Hs; lra |]. apply lt_0_INR. cbn. lia.
Qed.

Lemma mean_row_length : length q = c.
Proof.
  unfold mean_of_rows. rewrite length_map, length_seq.
  destruct Hc; [contradiction | assumption].
Qed.

Lemma mean_row_sum : Rsum q = 1%R.
Proof. apply (mean_of_rows_sum Hne Hc), distribution_sums, Hd. Qed.

Lemma row_facts (p : list R) (j : nat) :
  In p m -> (j < c)%nat ->
  (0 <= nth j p 0 <= 1)%R
  /\ (0 <= nth j q 0)%R
  /\ ((0 < nth j p 0)%R -> (0 < nth j q 0)%R)
  /\ (nth j p 0 <= N * nth j q 0)%R.
Proof.
  intros Hin Hj.
  pose proof samples_positive as HN.
  pose proof (@column_sum_bounds m j p (distribution_nonneg Hd) Hin) as [H0 H1].
  assert (Hp : distribution p) by (rewrite Forall_forall in Hd; apply Hd, Hin).
  destruct Hp as [Hnn Hs]. pose proof (@entry_le_sum p j Hnn) as [_ Hle].
  rewrite (nth_mean_of_rows Hne Hc Hj).
  split; [lra |]. split; [| split].
  - apply Rmult_le_pos; [lra |]. left. apply Rinv_0_lt_compat, HN.
  - intro Hpos. apply Rdiv_lt_0_compat; lra.
  - replace (N * (column_sum m j / N))%R with (column_sum m j) by (field; lra). exact H1.
Qed.

Lemma some_row : exists p, In p m.
Proof.
  generalize Hne. clear. destruct m as [| p m']; [contradiction |].
  intros _. exists p. left. reflexivity.
Qed.

Lemma mean_row_nonneg (j : nat) : (j < c)%nat -> (0 <= nth j q 0)%R.
Proof.
  intro Hj. destruct some_row as [p Hin].
  destruct (@row_facts p j Hin Hj) as (_ & Hq0 & _). exact Hq0.
Qed.

Lemma row_length (p : list R) : In p m -> length p = c.
Proof. intro Hin. rewrite Forall_forall in Hc. apply Hc, Hin. Qed.

Lemma row_sum (p : list R) : In p m -> Rsum p = 1%R.
Proof. intro Hin. rewrite Forall_forall in Hd. apply Hd, Hin. Qed.

Lemma sum_by_columns (p : list R) :
  length p = c -> Rsum (map (fun j => nth j p 0%R) (seq 0 c)) = Rsum p.
Proof. intros <-. rewrite map_nth_seq. reflexivity. Qed.

(** Gibbs' inequality: the divergence of a row to the mean row is not below
    zero. *)
Lemma divergence_nonneg (p : list R) : In p m -> (0 <= D_kl p q)%R.
Proof.
  intro Hin. rewrite (@D_kl_by_index c p q (row_length p Hin) mean_row_length).
  apply Rle_trans
    with (Rsum (map (fun j => (nth j p 0 - nth j q 0)%R) (seq 0 c))).
  - rewrite (Rsum_map_minus (fun j => nth j p 0%R) (fun j => nth j q 0%R)).
    rewrite (@sum_by_columns p (row_length p Hin)), (@sum_by_columns q mean_row_length).
    rewrite (row_sum p Hin), mean_row_sum. lra.
  - apply Rsum_map_le. intros j Hj. apply in_seq in Hj.
    destruct (@row_facts p j Hin) as ([Hp0 _] & Hq0 & Hpq & _); [lia |].
    apply kl_term_lower; assumption.
Qed.

(** No row is further from the mean row than [log] of the number of rows. *)
Lemma divergence_le_log_samples (p : list R) : In p m -> (D_kl p q <= ln N)%R.
Proof.
  intro Hin. rewrite (@D_kl_by_index c p q (row_length p Hin) mean_row_length).
  apply Rle_trans with (Rsum (map (fun j => (ln N * nth j p 0)%R) (seq 0 c))).
  - apply Rsum_map_le. intros j Hj. apply in_seq in Hj.
    destruct (@row_facts p j Hin) as ([Hp0 _] & _ & Hpq & Hle); [lia |].
    rewrite Rmult_comm. apply kl_term_upper; assumption.
  - rewrite (Rsum_map_scale (ln N) (fun j => nth j p 0%R)).
    rewrite (@sum_by_columns p (row_length p Hin)), (row_sum p Hin). lra.
Qed.

Lemma divergence_le_cross_entropy (p : list R) :
  In p m ->
  (D_kl p q
   <= Rsum (map (fun j => (- log_or_zero (nth j q 0)) * nth j p 0)%R (seq 0 c)))%R.
Proof.
  intro Hin. rewrite (@D_kl_by_index c p q (row_length p Hin) mean_row_length).
  apply Rsum_map_le. intros j Hj. apply in_seq in Hj.
  destruct (@row_facts p j Hin) as (Hp01 & _ & Hpq & _); [lia |].
  rewrite (@kl_term_split _ _ (proj1 Hp01) Hpq).
  pose proof (plogp_nonpos Hp01). lra.
Qed.

(** The entropy of the mean row is at most [log] of the number of classes. *)
Lemma mean_row_entropy :
  (Rsum (map (fun j => (- log_or_zero (nth j q 0)) * nth j q 0)%R (seq 0 c))
   <= ln (INR c))%R.
Proof.
  pose proof classes_positive as HC.
  assert (H : (Rsum (map (fun j => nth j q 0 - / INR c)%R (seq 0 c))
               <= Rsum (map (fun j => nth j q 0 * log_or_zero (nth j q 0)
                                      + ln (INR c) * nth j q 0)%R (seq 0 c)))%R).
  { apply Rsum_map_le. intros j Hj. apply in_seq in Hj.
    assert (Hq0 : (0 <= nth j q 0)%R) by (apply mean_row_nonneg; lia).
    pose proof (entropy_term_lower Hq0 HC). lra. }
  rewrite (Rsum_map_minus (fun j => nth j q 0%R) (fun _ => (/ INR c)%R)) in H.
  rewrite (Rsum_map_plus (fun j => nth j q 0 * log_or_zero (nth j q 0))%R
             (fun j => ln (INR c) * nth j q 0)%R) in H.
  rewrite (Rsum_map_scale (ln (INR c)) (fun j => nth j q 0%R)) in H.
  rewrite (@sum_by_columns q mean_row_length), mean_row_sum in H.
  rewrite Rsum_map_const, length_seq in H.
  replace (INR c * / INR c)%R with 1%R in H by (field; lra).
  assert (Hopp : Rsum (map (fun j => (- log_or_zero (nth j q 0)) * nth j q 0)%R (seq 0 c))
                 = (- Rsum (map (fun j => nth j q 0 * log_or_zero (nth j q 0))%R
                              (seq 0 c)))%R).
  { rewrite <- (Rsum_map_opp (fun j => nth j q 0 * log_or_zero (nth j q 0))%R).
    f_equal. apply map_ext. intro j. lra. }
  rewrite Hopp. lra.
Qed.

Lemma total_divergence_le_log_classes :
  (Rsum (map (fun p => D_kl p q) m) <= N * ln (INR c))%R.
Proof.
  pose proof samples_positive as HN.
  apply Rle_trans
    with (Rsum (map (fun p => Rsum (map (fun j => (- log_or_zero (nth j q 0))
                                                  * nth j p 0)%R (seq 0 c))) m)).
  { apply Rsum_map_le. intros p Hin. apply divergence_le_cross_entropy, Hin. }
  rewrite (Rsum_exchange (fun (p : list R) (j : nat) =>
                            (- log_or_zero (nth j q 0)) * nth j p 0)%R m (seq 0 c)).
  apply Rle_trans
    with (N * Rsum (map (fun j => (- log_or_zero (nth j q 0)) * nth j q 0)%R (seq 0 c)))%R.
  - rewrite <- (Rsum_map_scale N (fun j => (- log_or_zero (nth j q 0)) * nth j q 0)%R).
    right. f_equal. apply map_ext_in. intros j Hj. apply in_seq in Hj.
    rewrite (Rsum_map_scale (- log_or_zero (nth j q 0%R))%R (fun p : list R => nth j p 0%R)).
    fold (column_sum m j). rewrite (@nth_mean_of_rows c m j Hne Hc) by lia.
    field. lra.
  - apply Rmult_le_compat_l; [lra | apply mean_row_entropy].
Qed.

(** The Inception Score lies between 1 and the number of classes, and is at
    most the number of samples. *)
Lemma inception_score_formula_bounds :
  (1 <= inception_score_formula m)%R
  /\ (inception_score_formula m <= INR c)%R
  /\ (inception_score_formula m <= N)%R.
Proof.
  pose proof samples_positive as HN. pose proof classes_positive as HC.
  unfold inception_score_formula.
  set (T := Rsum (map (fun p => D_kl p q) m)).
  assert (H0 : (0 <= T)%R).
  { unfold T. rewrite <- (Rsum_map_zero m). apply Rsum_map_le.
    intros p Hin. apply divergence_nonneg, Hin. }
  assert (Hn : (T <= N * ln N)%R).
  { unfold T. rewrite <- Rsum_map_const. apply Rsum_map_le.
    intros p Hin. apply divergence_le_log_samples, Hin. }
  pose proof total_divergence_le_log_classes as Hcl. fold T in Hcl.
  assert (Hmono : forall x y : R, (x <= y)%R -> (exp x <= exp y)%R).
  { intros x y [Hlt | ->]; [left; apply exp_increasing, Hlt | lra]. }
  split; [| split].
  - rewrite <- exp_0. apply Hmono. apply Rmult_le_pos; [exact H0 |].
    left. apply Rinv_0_lt_compat, HN.
  - apply Rle_trans with (exp (ln (INR c))); [| rewrite (exp_ln _ HC); lra].
    apply Hmono.
    apply (Rmult_le_reg_l N); [exact HN |].
    replace (N * (T / N))%R with T by (field; lra). exact Hcl.
  - apply Rle_trans with (exp (ln N)); [| rewrite (exp_ln _ HN); lra].
    apply Hmono.
    apply (Rmult_le_reg_l N); [exact HN |].
    replace (N * (T / N))%R with T by (field; lra). exact Hn.
Qed.

End ScoreBounds.

(** X1. In exact arithmetic, on every non-empty matrix of probability rows
    over [c] classes, the score that the formula of is.py denotes is a
    finite number between 1 and [c], and at most the number of rows; so is
    the score of is_.py when no probability is zero.  The arithmetic is
    that of the model, over the real numbers: the rounding of the floats of
    the code is no part of it, and the statement bounds the value of the
    formula, not the last digits of the float that the code returns. *)
Theorem inception_score_between_1_and_the_classes :
  forall (c : nat) (m : list (list R)),
    m <> [] -> Forall (fun p => length p = c) m -> Forall distribution m ->
    score_in_range c (length m) (IS.inception_score (finite_matrix m))
    /\ (Forall positive_distribution m ->
        score_in_range c (length m) (IS_.inception_score (finite_matrix m))).
Proof.
  intros c m Hne Hc Hd.
  destruct (inception_score_formula_bounds Hne Hc Hd) as (H1 & H2 & H3).
  split; [| intro Hp]; exists (inception_score_formula m); split; auto.
  - apply (numpy_inception_score_formula Hne Hc Hd).
  - apply (torch_inception_score_formula Hne Hc Hp).
Qed.

Lemma inception_score_between_1_and_the_classes_witness :
  score_in_range 2 2 (IS.inception_score (finite_matrix sure_predictions)).
Proof.
  destruct sure_predictions_rows as (Hne & Hc & Hd).
  exact (proj1 (@inception_score_between_1_and_the_classes 2 sure_predictions
                  Hne Hc Hd)).
Defined.

(** ** One prediction for every sample *)

Lemma kl_term_same (a : R) : kl_term a a = 0%R.
Proof.
  unfold kl_term. sign_cases a; try reflexivity.
  - replace (a / a)%R with 1%R by (field; lra). rewrite ln_1. lra.
  - replace (a / a)%R with 1%R by (field; lra). rewrite ln_1. lra.
Qed.

Lemma D_kl_same (p : list R) : D_kl p p = 0%R.
Proof.
  unfold D_kl, map2. induction p as [| a p IH]; [reflexivity |].
  cbn [combine map fst snd]. rewrite Rsum_cons, IH, kl_term_same. lra.
Qed.

Lemma column_sum_same_rows (p : list R) (m : list (list R)) (j : nat) :
  Forall (fun r => r = p) m -> column_sum m j = (INR (length m) * nth j p 0)%R.
Proof.
  unfold column_sum. induction 1 as [| r m -> _ IH].
  - cbn. lra.
  - cbn [map]. rewrite Rsum_cons, IH.
    change (length (p :: m)) with (S (length m)). rewrite S_INR. lra.
Qed.

Lemma mean_of_same_rows (p : list R) (m : list (list R)) :
  m <> [] -> Forall (fun r => r = p) m -> mean_of_rows m = p.
Proof.
  intros Hne Hm.
  assert (Hc : Forall (fun r => length r = length p) m)
    by (eapply Forall_impl; [| exact Hm]; intros r ->; reflexivity).
  rewrite (mean_of_rows_columns Hne Hc). rewrite <- (map_nth_seq p) at 2.
  apply map_ext. intro j. rewrite (column_sum_same_rows j Hm).
  pose proof (INR_length_pos Hne). field. lra.
Qed.

Lemma score_of_same_rows (p : list R) (m : list (list R)) :
  m <> [] -> Forall (fun r => r = p) m -> inception_score_formula m = 1%R.
Proof.
  intros Hne Hm. unfold inception_score_formula. rewrite (mean_of_same_rows Hne Hm).
  assert (H0 : Rsum (map (fun r => D_kl r p) m) = 0%R).
  { rewrite <- (Rsum_map_zero m). f_equal. apply map_ext_in. intros r Hr.
    rewrite Forall_forall in Hm. rewrite (Hm r Hr). apply D_kl_same. }
  rewrite H0. unfold Rdiv. rewrite Rmult_0_l. apply exp_0.
Qed.

(** X2. In exact arithmetic, when every sample gets the same probability
    row, the score that the formula of the code denotes is 1, the least
    there is: that of is.py on every such row, that of is_.py when the row
    holds no zero.  The arithmetic is that of the model, over the real
    numbers: the float that the code returns differs from it by the rounding
    of its mean, logarithms and exponential, which the model leaves out. *)
Theorem one_prediction_for_all_scores_1 :
  forall (p : list R) (m : list (list R)),
    m <> [] -> distribution p -> Forall (fun r => r = p) m ->
    IS.inception_score (finite_matrix m) = inr (Fin 1)
    /\ (positive_distribution p ->
        IS_.inception_score (finite_matrix m) = inr (Fin 1)).
Proof.
  intros p m Hne Hp Hm.
  assert (Hc : Forall (fun r => length r = length p) m)
    by (eapply Forall_impl; [| exact Hm]; intros r ->; reflexivity).
  assert (Hd : Forall distribution m)
    by (eapply Forall_impl; [| exact Hm]; intros r ->; exact Hp).
  split.
  - rewrite (numpy_inception_score_formula Hne Hc Hd), (score_of_same_rows Hne Hm).
    reflexivity.
  - intro Hpos.
    assert (Hd' : Forall positive_distribution m)
      by (eapply Forall_impl; [| exact Hm]; intros r ->; exact Hpos).
    rewrite (torch_inception_score_formula Hne Hc Hd'), (score_of_same_rows Hne Hm).
    reflexivity.
Qed.

Lemma one_prediction_for_all_scores_1_witness :
  IS.inception_score (finite_matrix [[1 / 2; 1 / 2]; [1 / 2; 1 / 2]; [1 / 2; 1 / 2]]%R)
  = inr (Fin 1).
Proof.
  refine (proj1 (@one_prediction_for_all_scores_1 [1 / 2; 1 / 2]%R
                   [[1 / 2; 1 / 2]; [1 / 2; 1 / 2]; [1 / 2; 1 / 2]]%R _ _ _)).
  - discriminate.
  - split; [repeat constructor; lra | cbn; lra].
  - repeat constructor.
Defined.

(** ** No sample, no score *)

Section NoSamples.
Context {E : Env}.

(** A loop over nothing, or whose test holds at once, runs no turn. *)
Lemma for_until_no_turn {A S : Type} (stop : S -> M bool) (body : A -> S -> M S)
  (l : list A) (st : S) (w : World) :
  l = [] \/ stop st w = (inr true, w) ->
  for_until stop body l st w = (inr st, w).
Proof.
  intros [-> | Hstop]; [reflexivity |].
  destruct l as [| x l]; [reflexivity |].
  cbn [for_until]. rewrite run_bind, Hstop. reflexivity.
Qed.

Lemma py_floordiv_defined (a b : Z) : b <> 0%Z -> py_floordiv a b = inr (a / b)%Z.
Proof.
  intro Hb. unfold py_floordiv. destruct (Z.eqb_spec b 0); [contradiction | reflexivity].
Qed.

Lemma FID_stop_at_once (w : World) :
  (n_samples (self w) <= 0)%Z ->
  FID.loop_stop {| FID.cur_samples := 0; FID.real_embeddings_list := [];
                   FID.fake_embeddings_list := [] |} w = (inr true, w).
Proof.
  intro Hn. unfold FID.loop_stop. rewrite run_self_attr, run_last_ret.
  cbn [FID.cur_samples]. do 2 f_equal. apply Z.geb_le. exact Hn.
Qed.

Lemma IS__stop_at_once (w : World) :
  (n_samples (self w) <= 0)%Z ->
  IS_.loop_stop {| IS_.cur_samples := 0; IS_.fake_predictions_list := [] |} w
  = (inr true, w).
Proof.
  intro Hn. unfold IS_.loop_stop. rewrite run_self_attr, run_last_ret.
  cbn [IS_.cur_samples]. do 2 f_equal. apply Z.geb_le. exact Hn.
Qed.

Lemma IS_stop_at_once (w : World) :
  (n_samples (self w) <= 0)%Z ->
  IS.loop_stop {| IS.cur_samples := 0; IS.fake_predictions_list := [] |} w
  = (inr true, w).
Proof.
  intro Hn. unfold IS.loop_stop. rewrite run_self_attr, run_last_ret.
  cbn [IS.cur_samples]. do 2 f_equal. apply Z.geb_le. exact Hn.
Qed.

Lemma get_embeddings_of_nothing (dataloader : list (pyval Tensor)) (gen : Generator)
  (gen_transforms gen_transforms_inv : Transform) (target_index : option Z)
  (condition_indices : option CondIdx) (z_dim : option Z) (w : World) :
  invert_transforms gen_transforms = inr gen_transforms_inv ->
  batch_size (self w) <> 0%Z ->
  dataloader = [] \/ (n_samples (self w) <= 0)%Z ->
  FID.get_embeddings dataloader gen gen_transforms target_index condition_indices z_dim w
  = (inl cat_of_nothing, w).
Proof.
  intros Hinv Hb Hno. unfold FID.get_embeddings.
  rewrite run_lift, Hinv, !run_self_attr, run_lift, (py_floordiv_defined _ Hb).
  rewrite run_bind, for_until_no_turn
    by (destruct Hno as [-> | Hn]; [left; reflexivity | right; apply FID_stop_at_once, Hn]).
  reflexivity.
Qed.

End NoSamples.

(** X3. Asked for no sample ([n_samples <= 0]), or run over a loader that
    yields nothing, [FID.get_embeddings], [FID.forward] and the two
    [IS.forward] run no turn of their loop and end with the error of
    [torch.cat] on an empty list: none returns empty embeddings or a
    score. *)
Theorem no_sample_no_score :
  forall (E : Env) (dataset : Dataset) (dataloader : list (pyval Tensor))
         (gen : Generator) (gen_transforms gen_transforms_inv : Transform)
         (target_index : option Z) (condition_indices : option CondIdx)
         (z_dim : option Z) (w : World) (g : RNG),
    batch_size (self w) <> 0%Z ->
    DataLoader dataset (batch_size (self w)) (rng w) = (inr dataloader, g) ->
    dataloader = [] \/ (n_samples (self w) <= 0)%Z ->
    (invert_transforms gen_transforms = inr gen_transforms_inv ->
     fst (FID.get_embeddings dataloader gen gen_transforms target_index
                             condition_indices z_dim w) = inl cat_of_nothing
     /\ fst (FID.forward dataset gen gen_transforms target_index condition_indices
                         z_dim w) = inl cat_of_nothing
     /\ fst (IS_.forward dataset gen gen_transforms target_index condition_indices
                         z_dim w) = inl cat_of_nothing)
    /\ fst (IS.forward dataset gen target_index condition_indices z_dim w)
       = inl cat_of_nothing.
Proof.
  intros E dataset dataloader gen gen_transforms gen_transforms_inv target_index
    condition_indices z_dim w g Hb Hdl Hno.
  set (w1 := {| self := self w; rng := g |}).
  assert (Hno1 : dataloader = [] \/ (n_samples (self w1) <= 0)%Z) by exact Hno.
  split; [intro Hinv; split; [| split] |].
  - rewrite (@get_embeddings_of_nothing E dataloader gen gen_transforms
               gen_transforms_inv target_index condition_indices z_dim w Hinv Hb Hno).
    reflexivity.
  - unfold FID.forward. rewrite run_self_attr, run_with_rng, Hdl. fold w1.
    rewrite run_self_attr.
    destruct (String.eqb (device (self w1)) "cuda" && cuda_is_available)%bool;
      [rewrite run_lift; unfold torch_cuda_empty_cache | rewrite run_ret];
      rewrite run_bind,
        (@get_embeddings_of_nothing E dataloader gen gen_transforms gen_transforms_inv
           target_index condition_indices z_dim w1 Hinv Hb Hno1);
      reflexivity.
  - unfold IS_.forward. rewrite run_self_attr, run_with_rng, Hdl. fold w1.
    rewrite run_lift, Hinv, run_self_attr.
    destruct (String.eqb (device (self w1)) "cuda" && cuda_is_available)%bool;
      [rewrite run_lift; unfold torch_cuda_empty_cache | rewrite run_ret];
      rewrite !run_self_attr, run_lift, (py_floordiv_defined _ Hb);
      rewrite run_bind, for_until_no_turn
        by (destruct Hno1 as [-> | Hn];
            [left; reflexivity | right; apply IS__stop_at_once, Hn]);
      reflexivity.
  - unfold IS.forward. cbv zeta. rewrite run_self_attr, run_with_rng, Hdl. fold w1.
    rewrite !run_self_attr, run_lift, (py_floordiv_defined _ Hb).
    rewrite run_bind, for_until_no_turn
      by (destruct Hno1 as [-> | Hn];
          [left; reflexivity | right; apply IS_stop_at_once, Hn]).
    reflexivity.
Qed.

Lemma no_sample_no_score_witness :
  fst (@FID.get_embeddings demo_env demo_loader demo_gen demo_transform None None None
         (demo_world 0 2)) = inl cat_of_nothing.
Proof.
  refine (proj1 (proj1 (@no_sample_no_score demo_env demo_loader demo_loader demo_gen
                          demo_transform demo_transform None None None
                          (demo_world 0 2) 1%nat _ _ _) _)).
  - discriminate.
  - reflexivity.
  - right. cbn. lia.
  - reflexivity.
Defined.

(** ** is.py on a cuda device *)

Section OnCuda.
Context {E : Env}.

(** A loop none of whose turns returns ends where it started. *)
Lemma for_until_never_turns {A S : Type} (s : Instance) (stop : S -> M bool)
  (body : A -> S -> M S) :
  (forall st w, exists b, stop st w = (inr b, w)) ->
  (forall x st w st' w', self w = s -> body x st w <> (inr st', w')) ->
  forall l st w st' w',
    self w = s -> for_until stop body l st w = (inr st', w') -> st' = st.
Proof.
  intros Hstop Hbody l st w st' w' Hw H.
  destruct l as [| x l]; cbn [for_until] in H.
  - rewrite run_last_ret in H. congruence.
  - rewrite run_bind in H. destruct (Hstop st w) as [b Hb]. rewrite Hb in H.
    destruct b.
    + rewrite run_last_ret in H. congruence.
    + rewrite run_bind in H.
      destruct (body x st w) as [[e | st1] w1] eqn:Hx; [discriminate |].
      exfalso. exact (Hbody _ _ _ _ _ Hw Hx).
Qed.

(** Entering the [with] block raises: on cuda no turn of the loop returns. *)
Lemma IS_loop_body_on_cuda (gen : Generator) (condition_indices : option CondIdx)
  (z_dim : option Z) (x : pyval Tensor) (st st' : IS.LoopState) (w w' : World) :
  String.prefix "cuda" (device (self w)) = true ->
  IS.loop_body gen condition_indices z_dim x st w <> (inr st', w').
Proof.
  intros Hdev H. unfold IS.loop_body, IS.enter_autocast in H. run H.
  all: congruence.
Qed.

End OnCuda.

(** X4. On a device whose name starts with [cuda], the [IS.forward] of
    is.py never returns a score, whatever the dataset and the generator:
    [with torch.cuda.amp.autocast:] names the class without calling it, so
    the first turn of the loop raises, and a loop of no turn leaves
    [torch.cat] an empty list. *)
Theorem numpy_IS_returns_no_score_on_cuda :
  forall (E : Env) (dataset : Dataset) (gen : Generator) (target_index : option Z)
         (condition_indices : option CondIdx) (z_dim : option Z) (w : World),
    String.prefix "cuda" (device (self w)) = true ->
    exists e : exn,
      fst (IS.forward dataset gen target_index condition_indices z_dim w) = inl e.
Proof.
  intros E dataset gen target_index condition_indices z_dim w Hdev.
  destruct (IS.forward dataset gen target_index condition_indices z_dim w)
    as [[e | s] w'] eqn:H; [exists e; reflexivity | exfalso].
  unfold IS.forward in H. cbv zeta in H.
  rewrite run_self_attr, run_with_rng in H.
  destruct (DataLoader dataset (batch_size (self w)) (rng w)) as [[e | dl] g];
    [discriminate |].
  rewrite !run_self_attr, run_lift in H. cbn [self] in H.
  destruct (py_floordiv _ _); [discriminate |].
  rewrite run_bind in H.
  destruct (for_until _ _ _ _ _) as [[e | st] w1] eqn:Hloop; [discriminate |].
  apply (@for_until_never_turns E _ _ (self w)) in Hloop.
  - subst st. rewrite run_lift in H. cbn in H. discriminate.
  - intros st0 w0. eexists. unfold IS.loop_stop. rewrite run_self_attr. reflexivity.
  - intros x st0 w0 st' w0' Hw0. apply IS_loop_body_on_cuda. rewrite Hw0. exact Hdev.
  - reflexivity.
Qed.

Lemma numpy_IS_returns_no_score_on_cuda_witness :
  exists e : exn,
    fst (@IS.forward demo_env demo_loader demo_gen None None (Some 4%Z)
           (@Build_World demo_env
              (@Build_Instance demo_env true tqdm_nb
                 (@Build_InceptionV3 demo_env tt Linear_2048_1000 "cuda")
                 "cuda" 3 2
                 (Some (@Build_InceptionSM demo_env
                          (@Build_InceptionV3 demo_env tt Linear_2048_1000 "cuda") 1)))
              0%nat)) = inl e.
Proof.
  apply numpy_IS_returns_no_score_on_cuda. reflexivity.
Defined.

(** ** The device of a constructed instance *)

Lemma FID_init_on_its_device {E : Env} chkpts_root device_arg n_samples_arg
  batch_size_arg crop_fc inst :
  FID.__init__ chkpts_root device_arg n_samples_arg batch_size_arg crop_fc = inr inst ->
  on_its_device device_arg inst.
Proof.
  unfold FID.__init__. cbv zeta. cbn [bind Monad_result ret].
  destruct (load_model_chkpt _ _ _) as [e | p]; [discriminate |].
  destruct (device_available _) eqn:Hdev; [| discriminate].
  intro H. injection H as <-. unfold on_its_device.
  cbn [inception device inside_colab tqdm on_device].
  repeat split.
  - destruct (match crop_fc with Some b => b | None => true end); reflexivity.
  - exact Hdev.
Qed.

Lemma set_inception_sm_on_its_device {E : Env} device_arg (inst : Instance) sm :
  on_its_device device_arg inst -> on_its_device device_arg (set_inception_sm inst sm).
Proof. intro H. exact H. Qed.

(** X5. Whatever [FID.__init__] or one of the two [IS.__init__] builds
    has its Inception network on the device the instance names, a device
    that exists; inside Colab that device is ["cuda"] whatever the caller
    passed, and the progress bar is the notebook one.  The two [IS]
    constructors, which take [device] at different positions, build the
    same instance from the same arguments. *)
Theorem instances_live_on_their_device :
  forall (E : Env) (chkpts_root device : option string) (n_samples batch_size : option Z)
         (crop_fc : option bool) (inst : Instance),
    (FID.__init__ chkpts_root device n_samples batch_size crop_fc = inr inst ->
     on_its_device device inst)
    /\ (IS_.__init__ chkpts_root n_samples batch_size device = inr inst ->
        on_its_device device inst)
    /\ (IS.__init__ chkpts_root device n_samples batch_size = inr inst ->
        on_its_device device inst)
    /\ IS_.__init__ chkpts_root n_samples batch_size device
       = IS.__init__ chkpts_root device n_samples batch_size.
Proof.
  intros E chkpts_root device n_samples batch_size crop_fc inst.
  assert (HIS : IS.__init__ chkpts_root device n_samples batch_size = inr inst ->
                on_its_device device inst).
  { unfold IS.__init__. cbv zeta. cbn [bind Monad_result ret].
    destruct (FID.__init__ _ _ _ _ _) as [e | base] eqn:Hbase; [discriminate |].
    intro H. injection H as <-. apply set_inception_sm_on_its_device.
    pose proof (FID_init_on_its_device _ _ _ _ _ Hbase) as Hon.
    destruct device; exact Hon. }
  split; [apply FID_init_on_its_device |].
  split; [exact HIS |]. split; [exact HIS | reflexivity].
Qed.

(** ** The Frechet distance of equal statistics, and of means of two sizes *)

Lemma xsum_zeros {A : Type} (f : A -> xreal) (l : list A) :
  (forall i, In i l -> f i = Fin 0) -> xsum (map f l) = Fin 0.
Proof.
  induction l as [| a l IH]; intro H; [reflexivity |].
  cbn [map xsum fold_right]. fold (xsum (map f l)).
  rewrite (H a (or_introl eq_refl)), IH by (intros i Hi; apply H; right; exact Hi).
  cbn [xadd]. f_equal. lra.
Qed.

Lemma nth_finite (l : list R) (i : nat) :
  (i < length l)%nat -> nth i (map Fin l) NaN = Fin (nth i l 0%R).
Proof.
  intro Hi. rewrite (nth_indep _ NaN (Fin 0)) by (rewrite length_map; exact Hi).
  apply (map_nth Fin).
Qed.

Lemma entry_finite (n : nat) (C : list (list R)) (i j : nat) :
  length C = n -> Forall (fun row => length row = n) C -> (i < n)%nat -> (j < n)%nat ->
  entry (finite_matrix C) i j = Fin (nth j (nth i C []) 0%R).
Proof.
  intros Hr Hc Hi Hj. unfold entry, finite_matrix.
  rewrite (nth_indep _ [] (map Fin [])) by (rewrite length_map; lia).
  rewrite (map_nth (map Fin)). apply nth_finite.
  rewrite Forall_forall in Hc. rewrite (Hc (nth i C [])) by (apply nth_In; lia).
  exact Hj.
Qed.

Lemma is_matrix_finite (n : nat) (C : list (list R)) :
  length C = n -> Forall (fun row => length row = n) C ->
  is_matrix n n (finite_matrix C).
Proof.
  intros Hr Hc. unfold finite_matrix. split.
  - rewrite length_map. exact Hr.
  - apply Forall_map. eapply Forall_impl; [| exact Hc].
    intros row H. cbv beta. rewrite length_map. exact H.
Qed.

(** X6. The distance of a Gaussian to itself is 0: for a finite mean, a
    finite [n] by [n] covariance matrix [C], and [matrix_sqrt] returning
    [C] on [C @ C] (as the square root of the square of a covariance matrix
    is), [_frechet_distance(mean, mean, C, C)] returns 0. *)
Theorem frechet_distance_to_itself_is_zero :
  forall (E : Env) (n : nat) (mean : list R) (C : list (list R)),
    length mean = n -> length C = n -> Forall (fun row => length row = n) C ->
    matrix_sqrt (matprod (finite_matrix C) (finite_matrix C)) = inr (finite_matrix C) ->
    _frechet_distance (map Fin mean) (map Fin mean) (finite_matrix C) (finite_matrix C)
    = inr (Fin 0).
Proof.
  intros E n mean C Hm Hr Hc Hsqrt.
  pose proof (is_matrix_finite Hr Hc) as HC.
  assert (Hx : length (map Fin mean) = n) by (rewrite length_map; exact Hm).
  unfold _frechet_distance.
  rewrite bcast1_same by reflexivity. cbn [bind Monad_result].
  rewrite (bcast2_same xadd HC HC). cbn [bind Monad_result].
  rewrite (@matmul_conforming n n _ _ HC) by (destruct HC; assumption).
  cbn [bind Monad_result]. rewrite Hsqrt. cbn [bind Monad_result].
  pose proof (is_matrix_map2 xadd HC HC) as Hsum.
  pose proof (is_matrix_scale (Fin 2) HC) as H2C.
  rewrite (bcast2_same xsub Hsum H2C). cbn [bind ret Monad_result].
  rewrite torch_norm_squared.
  rewrite (@map2_by_index _ _ _ xsub NaN NaN n _ _ Hx Hx), map_map.
  rewrite (torch_trace_square (is_matrix_map2 xsub Hsum H2C)).
  rewrite !xsum_zeros; [cbn [xadd]; do 2 f_equal; lra | |].
  - intros i Hi. apply in_seq in Hi.
    rewrite (entry_map2 xsub Hsum H2C), (entry_map2 xadd HC HC),
      (entry_scale (Fin 2) HC) by lia.
    rewrite (entry_finite Hr Hc) by lia.
    cbn [xadd xmul xsub xneg]. f_equal. lra.
  - intros i Hi. apply in_seq in Hi.
    rewrite nth_finite by lia. cbn [xsub xneg xadd xpow2 xmul]. f_equal. ring.
Qed.

Lemma frechet_distance_to_itself_is_zero_witness :
  @_frechet_distance demo_env (map Fin [1; 2]%R) (map Fin [1; 2]%R)
    (finite_matrix [[1; 0]; [0; 1]]%R) (finite_matrix [[1; 0]; [0; 1]]%R)
  = inr (Fin 0).
Proof.
  apply (@frechet_distance_to_itself_is_zero demo_env 2).
  - reflexivity.
  - reflexivity.
  - repeat constructor.
  - cbn. repeat f_equal; lra.
Defined.

(** X7. Mean vectors of two different sizes, neither of them 1 (a size of
    1 is broadcast), make [_frechet_distance] raise the shape error of the
    subtraction, whatever the covariance matrices are and before
    [matrix_sqrt] is called. *)
Theorem frechet_distance_of_two_sizes_raises :
  forall (E : Env) (x_mean y_mean : Vector) (x_cov y_cov : Matrix),
    length x_mean <> length y_mean -> length x_mean <> 1%nat ->
    length y_mean <> 1%nat ->
    _frechet_distance x_mean y_mean x_cov y_cov = inl shape_error.
Proof.
  intros E x_mean y_mean x_cov y_cov Hxy Hx Hy. unfold _frechet_distance, bcast1.
  destruct (Nat.eqb_spec (length x_mean) (length y_mean)) as [Heq | _];
    [contradiction |].
  destruct x_mean as [| a [| a' x]]; destruct y_mean as [| b [| b' y]];
    cbn in Hx, Hy; try contradiction; reflexivity.
Qed.

Lemma frechet_distance_of_two_sizes_raises_witness :
  @_frechet_distance demo_env [Fin 1; Fin 2] [Fin 1; Fin 2; Fin 3] [] []
  = inl shape_error.
Proof.
  apply frechet_distance_of_two_sizes_raises; cbn; lia.
Defined.

(** ** The blocks of encoding.py *)

Section Shapes.
Variable T : Type.
Variable shape : T -> list Z.
Variable module_call : Module_ -> T -> result T.
Hypothesis rules : ShapeRules shape module_call.

Lemma sequential_cons (m : Module_) (rest : list Module_) (x y : T) :
  sequential module_call (m :: rest) x = inr y ->
  exists x1, module_call m x = inr x1 /\ sequential module_call rest x1 = inr y.
Proof.
  cbn [sequential bind Monad_result].
  destruct (module_call m x) as [e | x1]; [discriminate |].
  intro H. exists x1. split; [reflexivity | exact H].
Qed.

Lemma sequential_keeps_shape (modules : list Module_) :
  Forall (fun m => keeps_shape m = true) modules ->
  forall x y, sequential module_call modules x = inr y -> shape y = shape x.
Proof.
  induction 1 as [| m rest Hm _ IH]; intros x y H.
  - cbn in H. injection H as <-. reflexivity.
  - destruct (sequential_cons _ _ _ H) as (x1 & H1 & Hrest).
    rewrite (IH _ _ Hrest). exact (sr_same rules _ _ Hm H1).
Qed.

(** The layers that follow a convolution in a contracting block keep the
    shape. *)
Lemma contracting_block_layers c_in use_norm kernel_size activation c_out stride padding
  padding_mode norm_type layers :
  ContractingBlock.__init__ c_in use_norm kernel_size activation c_out stride padding
                            padding_mode norm_type = inr layers ->
  exists rest,
    layers = Conv2d c_in (ContractingBlock.effective_c_out c_in c_out)
                    (match kernel_size with Some z => z | None => 3%Z end)
                    (match padding with Some z => z | None => 1%Z end)
                    (match stride with Some z => z | None => 2%Z end)
                    (match padding_mode with Some s => s | None => "reflect"%string end)
             :: rest
    /\ Forall (fun l => keeps_shape (OfLayer l) = true) rest.
Proof.
  unfold ContractingBlock.__init__. cbv zeta.
  destruct (match use_norm with Some b => b | None => true end).
  - cbn [bind Monad_result ret]. unfold ContractingBlock.switcher.
    repeat match goal with
           | |- context [if ?b then _ else _] => destruct b
           end;
      try discriminate;
      intro H; injection H as <-; eexists; (split; [reflexivity |]);
      repeat constructor.
  - cbn [ret Monad_result].
    destruct (String.eqb _ "relu");
      intro H; injection H as <-; eexists; (split; [reflexivity |]);
      repeat constructor.
Qed.

Lemma conv_size_halves_up (h : Z) : conv_size h 3 1 2 = ((h + 1) / 2)%Z.
Proof.
  unfold conv_size. replace (h + 2 * 1 - 3)%Z with (h + 1 + (-1) * 2)%Z by lia.
  rewrite Z.div_add by lia. lia.
Qed.

Lemma pool_size_halves_down (h : Z) : conv_size h 2 0 2 = (h / 2)%Z.
Proof.
  unfold conv_size. replace (h + 2 * 0 - 2)%Z with (h + (-1) * 2)%Z by lia.
  rewrite Z.div_add by lia. lia.
Qed.

Lemma conv_size_stride_1 (h k : Z) : conv_size h k 1 1 = (h + 3 - k)%Z.
Proof. unfold conv_size. rewrite Z.div_1_r. lia. Qed.

End Shapes.

(** X8. When [ContractingBlock.forward] returns on a batch of shape
    [(N, C, H, W)], what it returns has shape
    [(N, c_out, floor((H + 2 padding - kernel_size) / stride) + 1, same for W)],
    with [c_out] the channels of the convolution ([2 * c_in] when [c_out]
    is left out or 0); with the default kernel 3, stride 2 and padding 1
    that is [(N, c_out, (H + 1) // 2, (W + 1) // 2)]: the sizes are halved
    rounding up.  It holds for modules whose shapes are as torch documents
    them. *)
Theorem contracting_block_forward_shape :
  forall (T : Type) (shape : T -> list Z) (module_call : Module_ -> T -> result T)
         (c_in : Z) (use_norm : option bool) (kernel_size : option Z)
         (activation : option string) (c_out : option Z) (stride padding : option Z)
         (padding_mode norm_type : option string) (layers : list Layer)
         (x y : T) (n ch h w : Z),
    ShapeRules shape module_call ->
    ContractingBlock.__init__ c_in use_norm kernel_size activation c_out stride padding
                              padding_mode norm_type = inr layers ->
    ContractingBlock_forward module_call layers x = inr y ->
    shape x = [n; ch; h; w] ->
    shape y = [n; ContractingBlock.effective_c_out c_in c_out;
               conv_size h (match kernel_size with Some z => z | None => 3%Z end)
                           (match padding with Some z => z | None => 1%Z end)
                           (match stride with Some z => z | None => 2%Z end);
               conv_size w (match kernel_size with Some z => z | None => 3%Z end)
                           (match padding with Some z => z | None => 1%Z end)
                           (match stride with Some z => z | None => 2%Z end)]
    /\ (kernel_size = None -> stride = None -> padding = None ->
        shape y = [n; ContractingBlock.effective_c_out c_in c_out;
                   ((h + 1) / 2)%Z; ((w + 1) / 2)%Z]).
Proof.
  intros T shape module_call c_in use_norm kernel_size activation c_out stride padding
    padding_mode norm_type layers x y n ch h w rules Hinit Hfwd Hx.
  destruct (contracting_block_layers _ _ _ _ _ _ _ _ _ Hinit) as (rest & -> & Hrest).
  unfold ContractingBlock_forward in Hfwd. cbn [map] in Hfwd.
  destruct (sequential_cons _ _ _ _ Hfwd) as (x1 & Hconv & Hseq).
  assert (Hy : shape y = shape x1).
  { apply (sequential_keeps_shape rules) with (modules := map OfLayer rest);
      [| exact Hseq].
    apply Forall_map. exact Hrest. }
  pose proof (sr_conv rules _ _ _ _ _ _ _ Hconv Hx) as H1.
  rewrite Hy, H1. split; [reflexivity |].
  intros -> -> ->. rewrite !conv_size_halves_up. reflexivity.
Qed.

Lemma demo_shape_rules : ShapeRules (fun s : list Z => s) demo_module_call.
Proof.
  split.
  - intros c_in c_out k p s mode x y n ch h w H ->. cbn in H.
    destruct (ch =? c_in)%Z; [| discriminate]. injection H as <-. reflexivity.
  - intros k s x y n ch h w H ->. cbn in H. injection H as <-. reflexivity.
  - intros d_in d_out x y n d H ->. cbn in H.
    destruct (d =? d_in)%Z; [| discriminate]. injection H as <-. reflexivity.
  - intros m x y Hm H.
    destruct m as [[] | | | | |]; cbn in Hm; try discriminate;
      cbn in H; injection H as <-; reflexivity.
Qed.

Lemma contracting_block_forward_shape_witness :
  [8; 6; 33; 32]%Z
  = [8; ContractingBlock.effective_c_out 3 None; conv_size 65 3 1 2; conv_size 64 3 1 2]%Z
  /\ (@None Z = None -> @None Z = None -> @None Z = None ->
      [8; 6; 33; 32]%Z
      = [8; ContractingBlock.effective_c_out 3 None; (65 + 1) / 2; (64 + 1) / 2]%Z).
Proof.
  apply (@contracting_block_forward_shape (list Z) (fun s => s) demo_module_call
           3%Z None None None None None None None None
           [Conv2d 3 6 3 1 2 "reflect"; InstanceNorm2d 6; ReLU]
           [8; 3; 65; 64]%Z [8; 6; 33; 32]%Z 8%Z 3%Z 65%Z 64%Z).
  - exact demo_shape_rules.
  - reflexivity.
  - reflexivity.
  - reflexivity.
Defined.

Section UNETShapes.
Variable T : Type.
Variable shape : T -> list Z.
Variable module_call : Module_ -> T -> result T.
Hypothesis rules : ShapeRules shape module_call.

(** One convolution of the block with what follows it up to the
    activation. *)
Lemma unet_stage (c_in c_out k : Z) (m1 m2 m3 : Module_) (rest : list Module_)
  (x y : T) (n ch h w : Z) :
  keeps_shape m1 = true -> keeps_shape m2 = true -> keeps_shape m3 = true ->
  sequential module_call (OfLayer (Conv2d c_in c_out k 1 1 "zeros") :: m1 :: m2 :: m3 :: rest)
             x = inr y ->
  shape x = [n; ch; h; w] ->
  exists x1, sequential module_call rest x1 = inr y
             /\ shape x1 = [n; c_out; (h + 3 - k)%Z; (w + 3 - k)%Z].
Proof.
  intros H1 H2 H3 H Hx.
  destruct (sequential_cons _ _ _ _ H) as (a & Ha & Hra).
  destruct (sequential_cons _ _ _ _ Hra) as (b & Hb & Hrb).
  destruct (sequential_cons _ _ _ _ Hrb) as (c & Hc & Hrc).
  destruct (sequential_cons _ _ _ _ Hrc) as (d & Hd & Hrd).
  exists d. split; [exact Hrd |].
  rewrite (sr_same rules _ _ H3 Hd), (sr_same rules _ _ H2 Hc), (sr_same rules _ _ H1 Hb).
  rewrite (sr_conv rules _ _ _ _ _ _ _ Ha Hx), !conv_size_stride_1. reflexivity.
Qed.

End UNETShapes.

(** X9. When [UNETContractingBlock.forward] returns on a batch of shape
    [(N, C, H, W)], what it returns has shape
    [(N, 2 * c_in, (H + 6 - 2 * kernel_size) // 2, the same for W)]: each of
    the two convolutions (stride 1, padding 1) changes a size by
    [3 - kernel_size], the second keeps the [2 * c_in] channels of the
    first, and the pooling halves rounding down.  With the default kernel 3
    that is [(N, 2 * c_in, H // 2, W // 2)].  It holds for modules whose
    shapes are as torch documents them. *)
Theorem unet_contracting_block_forward_shape :
  forall (T : Type) (shape : T -> list Z) (module_call : Module_ -> T -> result T)
         (c_in : Z) (use_bn use_dropout : option bool) (kernel_size : option Z)
         (activation : option string) (x y : T) (n ch h w : Z),
    ShapeRules shape module_call ->
    UNETContractingBlock.forward module_call
      (UNETContractingBlock.__init__ c_in use_bn use_dropout kernel_size activation) x
    = inr y ->
    shape x = [n; ch; h; w] ->
    shape y
    = [n; (c_in * 2)%Z;
       ((h + 6 - 2 * match kernel_size with Some z => z | None => 3%Z end) / 2)%Z;
       ((w + 6 - 2 * match kernel_size with Some z => z | None => 3%Z end) / 2)%Z]
    /\ (kernel_size = None -> shape y = [n; (c_in * 2)%Z; (h / 2)%Z; (w / 2)%Z]).
Proof.
  intros T shape module_call c_in use_bn use_dropout kernel_size activation x y
    n ch h w rules Hfwd Hx.
  unfold UNETContractingBlock.forward, UNETContractingBlock.__init__ in Hfwd.
  cbv zeta in Hfwd.
  set (k := match kernel_size with Some z => z | None => 3%Z end) in *.
  assert (Hbn : keeps_shape (if match use_bn with Some b => b | None => true end
                             then OfLayer (BatchNorm2d (c_in * 2)) else nn_Identity)
                 = true) by (destruct (match use_bn with Some b => b | None => true end);
                             reflexivity).
  assert (Hdo : keeps_shape (if match use_dropout with Some b => b | None => false end
                             then nn_Dropout else nn_Identity) = true)
    by (destruct (match use_dropout with Some b => b | None => false end); reflexivity).
  assert (Hact : keeps_shape
                   (if String.eqb (match activation with
                                   | Some s => s
                                   | None => "lrelu"%string
                                   end) "relu"
                    then OfLayer ReLU else OfLayer (LeakyReLU (2 / 10))) = true)
    by (destruct (String.eqb _ "relu"); reflexivity).
  destruct (@unet_stage T shape module_call rules _ _ _ _ _ _ _ _ _ _ _ _ _
              Hbn Hdo Hact Hfwd Hx) as (x1 & H1 & Hx1).
  destruct (@unet_stage T shape module_call rules _ _ _ _ _ _ _ _ _ _ _ _ _
              Hbn Hdo Hact H1 Hx1) as (x2 & H2 & Hx2).
  destruct (sequential_cons _ _ _ _ H2) as (x3 & Hpool & Hend).
  cbn in Hend. injection Hend as <-.
  rewrite (sr_pool rules _ _ _ Hpool Hx2), !pool_size_halves_down.
  replace (h + 3 - k + 3 - k)%Z with (h + 6 - 2 * k)%Z by lia.
  replace (w + 3 - k + 3 - k)%Z with (w + 6 - 2 * k)%Z by lia.
  split; [reflexivity |].
  intros ->. subst k. cbv beta iota.
  replace (h + 6 - 2 * 3)%Z with h by lia. replace (w + 6 - 2 * 3)%Z with w by lia.
  reflexivity.
Qed.

Lemma unet_contracting_block_forward_shape_witness :
  [8; 6; 32; 32]%Z = [8; (3 * 2); (65 + 6 - 2 * 3) / 2; (64 + 6 - 2 * 3) / 2]%Z
  /\ (@None Z = None -> [8; 6; 32; 32]%Z = [8; (3 * 2); 65 / 2; 64 / 2]%Z).
Proof.
  apply (@unet_contracting_block_forward_shape (list Z) (fun s => s) demo_module_call
           3%Z None None None None [8; 3; 65; 64]%Z [8; 6; 32; 32]%Z 8%Z 3%Z 65%Z 64%Z).
  - exact demo_shape_rules.
  - reflexivity.
  - reflexivity.
Defined.

(** X10. When [MLPBlock.forward] returns on a batch of shape [(N, D)],
    what it returns has shape [(N, out_dim)], whatever [hidden_dim] and
    the activation are.  It holds for modules whose shapes are as torch
    documents them. *)
Theorem mlp_block_forward_shape :
  forall (T : Type) (shape : T -> list Z) (module_call : Module_ -> T -> result T)
         (in_dim hidden_dim out_dim : Z) (activation : option string)
         (x y : T) (n d : Z),
    ShapeRules shape module_call ->
    MLPBlock.forward module_call (MLPBlock.__init__ in_dim hidden_dim out_dim activation) x
    = inr y ->
    shape x = [n; d] ->
    shape y = [n; out_dim].
Proof.
  intros T shape module_call in_dim hidden_dim out_dim activation x y n d rules Hfwd Hx.
  unfold MLPBlock.forward, MLPBlock.__init__ in Hfwd. cbv zeta in Hfwd.
  assert (Hact : keeps_shape
                   (if String.eqb (match activation with
                                   | Some s => s
                                   | None => "relu"%string
                                   end) "relu"
                    then OfLayer ReLU else nn_LeakyReLU_inplace (2 / 10)) = true)
    by (destruct (String.eqb _ "relu"); reflexivity).
  destruct (sequential_cons _ _ _ _ Hfwd) as (x1 & H1 & R1).
  destruct (sequential_cons _ _ _ _ R1) as (x2 & H2 & R2).
  destruct (sequential_cons _ _ _ _ R2) as (x3 & H3 & R3).
  destruct (sequential_cons _ _ _ _ R3) as (x4 & H4 & R4).
  destruct (sequential_cons _ _ _ _ R4) as (x5 & H5 & R5).
  cbn in R5. injection R5 as <-.
  pose proof (sr_linear rules _ _ _ H1 Hx) as S1.
  pose proof (sr_same rules _ _ Hact H2) as S2. rewrite S1 in S2.
  pose proof (sr_linear rules _ _ _ H3 S2) as S3.
  pose proof (sr_same rules _ _ Hact H4) as S4. rewrite S3 in S4.
  exact (sr_linear rules _ _ _ H5 S4).
Qed.

Lemma mlp_block_forward_shape_witness :
  MLPBlock.forward demo_module_call (MLPBlock.__init__ 4 16 10 None) [8; 4]%Z
  = inr [8; 10]%Z
  /\ [8; 10]%Z = [8; 10]%Z.
Proof.
  split; [reflexivity |].
  apply (@mlp_block_forward_shape (list Z) (fun s => s) demo_module_call
           4%Z 16%Z 10%Z None [8; 4]%Z [8; 10]%Z 8%Z 4%Z).
  - exact demo_shape_rules.
  - reflexivity.
  - reflexivity.
Defined.

(** ** What [ContractingBlock.__init__] builds and when it fails *)

Lemma known_norm_switcher (c : Z) (norm_type : string) :
  match ContractingBlock.switcher c norm_type with
  | inl e => e = KeyError /\ known_norm norm_type = false
  | inr l => known_norm norm_type = true
             /\ is_activation l = false
             /\ (forall f, norm_features l = Some f -> f = c)
  end.
Proof.
  unfold ContractingBlock.switcher, known_norm.
  destruct (String.eqb norm_type "batch"); [cbn; intuition congruence |].
  destruct (String.eqb norm_type "instance"); [cbn; intuition congruence |].
  destruct (String.eqb norm_type "pixel"); [cbn; intuition congruence |].
  destruct (String.eqb norm_type "layer"); cbn; intuition congruence.
Qed.

(** The dictionary of the four layers built for [c] features is the
    [switcher] of the layers put together. *)
Lemma switcher_of_the_norms (c : Z) (norm_type : string) :
  ContractingBlockCalls.switcher (BatchNorm2d c) (InstanceNorm2d c) PixelNorm2d
    (LayerNorm2d c) norm_type
  = ContractingBlock.switcher c norm_type.
Proof. reflexivity. Qed.

Lemma switcher_in_the_norms (c_in : Z) (c_out : option Z) (norm_type : string) (l : Layer) :
  ContractingBlock.switcher (ContractingBlock.effective_c_out c_in c_out) norm_type = inr l ->
  In l (ContractingBlockCalls.norms c_in c_out).
Proof.
  unfold ContractingBlock.switcher, ContractingBlockCalls.norms.
  destruct (String.eqb norm_type "batch"); [intro H; injection H as <-; cbn; tauto |].
  destruct (String.eqb norm_type "instance"); [intro H; injection H as <-; cbn; tauto |].
  destruct (String.eqb norm_type "pixel"); [intro H; injection H as <-; cbn; tauto |].
  destruct (String.eqb norm_type "layer"); [intro H; injection H as <-; cbn; tauto |].
  discriminate.
Qed.

(** The layers that the block is made of, once every constructor has
    returned: the convolution, then the normalisation if asked for, then the
    activation. *)
Lemma contracting_block_init_layers :
  forall (c_in : Z) (use_norm : option bool) (kernel_size : option Z)
         (activation : option string) (c_out : option Z) (stride padding : option Z)
         (padding_mode norm_type : option string),
    ContractingBlock.__init__ c_in use_norm kernel_size activation c_out stride
                              padding padding_mode norm_type
    = if ContractingBlockCalls.with_norm use_norm
      then norm <- ContractingBlock.switcher (ContractingBlock.effective_c_out c_in c_out)
                     (ContractingBlockCalls.norm_key norm_type) ;;
           ret [ContractingBlockCalls.convolution c_in kernel_size c_out stride padding
                  padding_mode;
                norm; ContractingBlockCalls.activation_layer activation]
      else ret [ContractingBlockCalls.convolution c_in kernel_size c_out stride padding
                  padding_mode;
                ContractingBlockCalls.activation_layer activation].
Proof.
  intros. unfold ContractingBlock.__init__, ContractingBlockCalls.with_norm. cbv zeta.
  destruct use_norm as [[|] |]; reflexivity.
Qed.

(** The calls of the constructor, in their order. *)
Lemma contracting_block_calls :
  forall (lib : Constructors) (c_in : Z) (use_norm : option bool) (kernel_size : option Z)
         (activation : option string) (c_out : option Z) (stride padding : option Z)
         (padding_mode norm_type : option string),
    ContractingBlockCalls.__init__ lib c_in use_norm kernel_size activation c_out stride
                                   padding padding_mode norm_type
    = (nn_Module_init lib ;;
       construct lib (ContractingBlockCalls.convolution c_in kernel_size c_out stride
                        padding padding_mode) ;;
       (if ContractingBlockCalls.with_norm use_norm
        then import_normalization lib ;;
             mapM (construct lib) (ContractingBlockCalls.norms c_in c_out) ;;
             ret tt
        else ret tt) ;;
       layers <- ContractingBlock.__init__ c_in use_norm kernel_size activation c_out
                   stride padding padding_mode norm_type ;;
       construct lib (ContractingBlockCalls.activation_layer activation) ;;
       nn_Sequential lib layers ;;
       ret layers).
Proof.
  intros. rewrite contracting_block_init_layers.
  unfold ContractingBlockCalls.__init__, ContractingBlockCalls.build,
    ContractingBlockCalls.convolution, ContractingBlockCalls.norms,
    ContractingBlockCalls.activation_layer, ContractingBlockCalls.with_norm,
    ContractingBlockCalls.norm_key.
  cbv zeta. cbn [bind Monad_result ret mapM].
  destruct (nn_Module_init lib) as [e | []]; [reflexivity |].
  destruct (construct lib (Conv2d _ _ _ _ _ _)) as [e | []]; [reflexivity |].
  destruct (match use_norm with Some b => b | None => true end).
  - destruct (import_normalization lib) as [e | []]; [reflexivity |].
    destruct (construct lib (BatchNorm2d _)) as [e | []]; [reflexivity |].
    destruct (construct lib (InstanceNorm2d _)) as [e | []]; [reflexivity |].
    destruct (construct lib PixelNorm2d) as [e | []]; [reflexivity |].
    destruct (construct lib (LayerNorm2d _)) as [e | []]; [reflexivity |].
    rewrite switcher_of_the_norms.
    destruct (ContractingBlock.switcher _ _) as [e | norm]; [reflexivity |].
    destruct (String.eqb _ "relu");
      (destruct (construct lib _) as [e | []]; [reflexivity |]);
      cbn [app]; reflexivity.
  - destruct (String.eqb _ "relu");
      (destruct (construct lib _) as [e | []]; [reflexivity |]);
      cbn [app]; reflexivity.
Qed.

Section ContractingBlockConstruction.
Variables (lib : Constructors) (c_in : Z) (use_norm : option bool)
          (kernel_size : option Z) (activation : option string) (c_out : option Z)
          (stride padding : option Z) (padding_mode norm_type : option string).

Local Abbreviation init :=
  (ContractingBlockCalls.__init__ lib c_in use_norm kernel_size activation c_out stride
     padding padding_mode norm_type).
Local Abbreviation conv :=
  (ContractingBlockCalls.convolution c_in kernel_size c_out stride padding padding_mode).
Local Abbreviation norms := (ContractingBlockCalls.norms c_in c_out).
Local Abbreviation act := (ContractingBlockCalls.activation_layer activation).
Local Abbreviation normed := (ContractingBlockCalls.with_norm use_norm).
Local Abbreviation key := (ContractingBlockCalls.norm_key norm_type).
Local Abbreviation co := (ContractingBlock.effective_c_out c_in c_out).

(** The run of the calls, the four normalisations apart. *)
Lemma contracting_block_calls_of_norms :
  init
  = (nn_Module_init lib ;;
     construct lib conv ;;
     (if normed
      then import_normalization lib ;;
           construct lib (BatchNorm2d co) ;;
           construct lib (InstanceNorm2d co) ;;
           construct lib PixelNorm2d ;;
           construct lib (LayerNorm2d co) ;;
           norm <- ContractingBlock.switcher co key ;;
           construct lib act ;;
           nn_Sequential lib [conv; norm; act] ;;
           ret [conv; norm; act]
      else construct lib act ;;
           nn_Sequential lib [conv; act] ;;
           ret [conv; act])).
Proof.
  rewrite contracting_block_calls, contracting_block_init_layers.
  unfold ContractingBlockCalls.norms. cbn [mapM bind Monad_result ret].
  destruct (nn_Module_init lib) as [e | []]; [reflexivity |].
  destruct (construct lib conv) as [e | []]; [reflexivity |].
  destruct normed; [| reflexivity].
  destruct (import_normalization lib) as [e | []]; [reflexivity |].
  destruct (construct lib (BatchNorm2d _)) as [e | []]; [reflexivity |].
  destruct (construct lib (InstanceNorm2d _)) as [e | []]; [reflexivity |].
  destruct (construct lib PixelNorm2d) as [e | []]; [reflexivity |].
  destruct (construct lib (LayerNorm2d _)) as [e | []]; [reflexivity |].
  destruct (ContractingBlock.switcher co key) as [e | norm]; reflexivity.
Qed.

Lemma contracting_block_errors (e : exn) :
  init = inl e ->
  nn_Module_init lib = inl e
  \/ construct lib conv = inl e
  \/ (normed = true /\ import_normalization lib = inl e)
  \/ (normed = true /\ exists l, In l norms /\ construct lib l = inl e)
  \/ (normed = true /\ known_norm key = false /\ e = KeyError)
  \/ construct lib act = inl e
  \/ exists layers, nn_Sequential lib layers = inl e.
Proof.
  rewrite contracting_block_calls_of_norms. cbn [bind Monad_result ret].
  unfold ContractingBlockCalls.norms.
  destruct (nn_Module_init lib) as [e0 | []]; [intro H; injection H as <-; tauto |].
  destruct (construct lib conv) as [e0 | []]; [intro H; injection H as <-; tauto |].
  destruct normed.
  - destruct (import_normalization lib) as [e0 | []]; [intro H; injection H as <-; tauto |].
    destruct (construct lib (BatchNorm2d _)) as [e0 | []] eqn:H1;
      [intro H; injection H as <-; do 3 right; left; split; [reflexivity |];
       eexists; split; [| exact H1]; cbn; tauto |].
    destruct (construct lib (InstanceNorm2d _)) as [e0 | []] eqn:H2;
      [intro H; injection H as <-; do 3 right; left; split; [reflexivity |];
       eexists; split; [| exact H2]; cbn; tauto |].
    destruct (construct lib PixelNorm2d) as [e0 | []] eqn:H3;
      [intro H; injection H as <-; do 3 right; left; split; [reflexivity |];
       eexists; split; [| exact H3]; cbn; tauto |].
    destruct (construct lib (LayerNorm2d _)) as [e0 | []] eqn:H4;
      [intro H; injection H as <-; do 3 right; left; split; [reflexivity |];
       eexists; split; [| exact H4]; cbn; tauto |].
    pose proof (known_norm_switcher co key) as Hsw.
    destruct (ContractingBlock.switcher co key) as [e0 | norm].
    { destruct Hsw as [-> Hk]. intro H; injection H as <-. tauto. }
    destruct (construct lib act) as [e0 | []]; [intro H; injection H as <-; tauto |].
    destruct (nn_Sequential lib _) as [e0 | []] eqn:H5; [| discriminate].
    intro H; injection H as <-. do 6 right. eexists. exact H5.
  - destruct (construct lib act) as [e0 | []]; [intro H; injection H as <-; tauto |].
    destruct (nn_Sequential lib _) as [e0 | []] eqn:H5; [| discriminate].
    intro H; injection H as <-. do 6 right. eexists. exact H5.
Qed.

Lemma contracting_block_returns (layers : list Layer) :
  init = inr layers ->
  ContractingBlock.__init__ c_in use_norm kernel_size activation c_out stride
                            padding padding_mode norm_type = inr layers
  /\ nn_Module_init lib = inr tt
  /\ (normed = true ->
      import_normalization lib = inr tt
      /\ Forall (fun l => construct lib l = inr tt) norms
      /\ known_norm key = true)
  /\ Forall (fun l => construct lib l = inr tt) layers
  /\ nn_Sequential lib layers = inr tt.
Proof.
  rewrite contracting_block_calls_of_norms, contracting_block_init_layers.
  cbn [bind Monad_result ret]. unfold ContractingBlockCalls.norms.
  destruct (nn_Module_init lib) as [e0 | []]; [discriminate |].
  destruct (construct lib conv) as [e0 | []] eqn:Hc; [discriminate |].
  destruct normed.
  - destruct (import_normalization lib) as [e0 | []]; [discriminate |].
    destruct (construct lib (BatchNorm2d _)) as [e0 | []] eqn:H1; [discriminate |].
    destruct (construct lib (InstanceNorm2d _)) as [e0 | []] eqn:H2; [discriminate |].
    destruct (construct lib PixelNorm2d) as [e0 | []] eqn:H3; [discriminate |].
    destruct (construct lib (LayerNorm2d _)) as [e0 | []] eqn:H4; [discriminate |].
    pose proof (known_norm_switcher co key) as Hsw.
    pose proof (@switcher_in_the_norms c_in c_out key) as Hin.
    destruct (ContractingBlock.switcher co key) as [e0 | norm]; [discriminate |].
    destruct Hsw as (Hk & _).
    destruct (construct lib act) as [e0 | []] eqn:Ha; [discriminate |].
    destruct (nn_Sequential lib _) as [e0 | []] eqn:H5; [discriminate |].
    intro H; injection H as <-.
    assert (Hn : Forall (fun l => construct lib l = inr tt)
                   [BatchNorm2d co; InstanceNorm2d co; PixelNorm2d; LayerNorm2d co])
      by (repeat constructor; assumption).
    repeat split; try assumption; try reflexivity.
    repeat constructor; try assumption.
    exact (proj1 (Forall_forall _ _) Hn norm (Hin norm eq_refl)).
  - destruct (construct lib act) as [e0 | []] eqn:Ha; [discriminate |].
    destruct (nn_Sequential lib _) as [e0 | []] eqn:H5; [discriminate |].
    intro H; injection H as <-.
    repeat split; try assumption; try reflexivity; try discriminate.
    repeat constructor; assumption.
Qed.

Lemma contracting_block_builds_the_four_norms (l : Layer) (e : exn) :
  normed = true -> In l norms -> construct lib l = inl e ->
  exists e', init = inl e'.
Proof.
  intros Hn Hin Hl.
  rewrite contracting_block_calls_of_norms. cbn [bind Monad_result ret].
  rewrite Hn. unfold ContractingBlockCalls.norms in Hin.
  destruct (nn_Module_init lib) as [e0 | []]; [eexists; reflexivity |].
  destruct (construct lib conv) as [e0 | []]; [eexists; reflexivity |].
  destruct (import_normalization lib) as [e0 | []]; [eexists; reflexivity |].
  destruct (construct lib (BatchNorm2d _)) as [e0 | []] eqn:H1; [eexists; reflexivity |].
  destruct (construct lib (InstanceNorm2d _)) as [e0 | []] eqn:H2; [eexists; reflexivity |].
  destruct (construct lib PixelNorm2d) as [e0 | []] eqn:H3; [eexists; reflexivity |].
  destruct (construct lib (LayerNorm2d _)) as [e0 | []] eqn:H4; [eexists; reflexivity |].
  destruct Hin as [<- | [<- | [<- | [<- | []]]]]; congruence.
Qed.

Lemma contracting_block_of_accepted_calls :
  nn_Module_init lib = inr tt ->
  construct lib conv = inr tt ->
  (normed = true ->
   import_normalization lib = inr tt /\ Forall (fun l => construct lib l = inr tt) norms) ->
  construct lib act = inr tt ->
  (forall layers, nn_Sequential lib layers = inr tt) ->
  init = ContractingBlock.__init__ c_in use_norm kernel_size activation c_out stride
           padding padding_mode norm_type.
Proof.
  intros H0 Hc Hn Ha Hs.
  rewrite contracting_block_calls_of_norms, contracting_block_init_layers.
  cbn [bind Monad_result ret]. rewrite H0, Hc, Ha.
  destruct normed.
  - destruct (Hn eq_refl) as [Hi Hf]. rewrite Hi.
    unfold ContractingBlockCalls.norms in Hf.
    inversion Hf as [| ? ? H1 Hf1]; subst. inversion Hf1 as [| ? ? H2 Hf2]; subst.
    inversion Hf2 as [| ? ? H3 Hf3]; subst. inversion Hf3 as [| ? ? H4 Hf4]; subst.
    rewrite H1, H2, H3, H4.
    destruct (ContractingBlock.switcher co key) as [e0 | norm]; [reflexivity |].
    rewrite Hs. reflexivity.
  - rewrite Hs. reflexivity.
Qed.

End ContractingBlockConstruction.

(** X11. [ContractingBlock.__init__] calls, in this order, the constructor
    of [nn.Module], [nn.Conv2d], then with [use_norm] the import of
    modules.partial.normalization and the constructors of the four
    normalisations, then [nn.ReLU] or [nn.LeakyReLU], then [nn.Sequential];
    each of these calls may raise.
    - An exception of [__init__] is the exception of one of these calls, or
      the [KeyError] of the dictionary when [use_norm] holds and [norm_type]
      is none of 'batch', 'instance', 'pixel', 'layer'.
    - With [use_norm], the four normalisations are built whatever
      [norm_type] is: one that cannot be built fails the construction, also
      when another one is asked for.
    - With [use_norm], a [norm_type] that is no key never gives a block.
    - A block that is built is the convolution, then with [use_norm] the
      normalisation of the key, built for the output channels of the
      convolution, then the activation, [LeakyReLU(0.2)] for any
      [activation] but 'relu'; every call has returned.
    - When the calls return, [__init__] fails in one case only, [use_norm]
      with a [norm_type] that is no key, by the [KeyError]; with
      [use_norm=False] any [norm_type] passes. *)
Theorem contracting_block_construction :
  forall (lib : Constructors) (c_in : Z) (use_norm : option bool)
         (kernel_size : option Z) (activation : option string) (c_out : option Z)
         (stride padding : option Z) (padding_mode norm_type : option string),
    (forall e,
        ContractingBlockCalls.__init__ lib c_in use_norm kernel_size activation c_out
          stride padding padding_mode norm_type = inl e ->
        nn_Module_init lib = inl e
        \/ construct lib (ContractingBlockCalls.convolution c_in kernel_size c_out stride
                            padding padding_mode) = inl e
        \/ (ContractingBlockCalls.with_norm use_norm = true
            /\ import_normalization lib = inl e)
        \/ (ContractingBlockCalls.with_norm use_norm = true
            /\ exists l, In l (ContractingBlockCalls.norms c_in c_out)
                         /\ construct lib l = inl e)
        \/ (ContractingBlockCalls.with_norm use_norm = true
            /\ known_norm (ContractingBlockCalls.norm_key norm_type) = false
            /\ e = KeyError)
        \/ construct lib (ContractingBlockCalls.activation_layer activation) = inl e
        \/ exists layers, nn_Sequential lib layers = inl e)
    /\ (forall l e,
          ContractingBlockCalls.with_norm use_norm = true ->
          In l (ContractingBlockCalls.norms c_in c_out) ->
          construct lib l = inl e ->
          exists e',
            ContractingBlockCalls.__init__ lib c_in use_norm kernel_size activation c_out
              stride padding padding_mode norm_type = inl e')
    /\ (ContractingBlockCalls.with_norm use_norm = true ->
        known_norm (ContractingBlockCalls.norm_key norm_type) = false ->
        exists e,
          ContractingBlockCalls.__init__ lib c_in use_norm kernel_size activation c_out
            stride padding padding_mode norm_type = inl e)
    /\ (forall layers,
          ContractingBlockCalls.__init__ lib c_in use_norm kernel_size activation c_out
            stride padding padding_mode norm_type = inr layers ->
          (if ContractingBlockCalls.with_norm use_norm
           then exists norm,
               ContractingBlock.switcher (ContractingBlock.effective_c_out c_in c_out)
                 (ContractingBlockCalls.norm_key norm_type) = inr norm
               /\ layers
                  = [ContractingBlockCalls.convolution c_in kernel_size c_out stride
                       padding padding_mode;
                     norm; ContractingBlockCalls.activation_layer activation]
           else layers
                = [ContractingBlockCalls.convolution c_in kernel_size c_out stride
                     padding padding_mode;
                   ContractingBlockCalls.activation_layer activation])
          /\ (forall l f, In l layers -> norm_features l = Some f ->
                          f = ContractingBlock.effective_c_out c_in c_out)
          /\ ((match activation with Some s => s | None => "relu"%string end)
              <> "relu"%string ->
              last layers (Conv2d 0 0 0 0 0 "") = LeakyReLU (2 / 10))
          /\ nn_Module_init lib = inr tt
          /\ (ContractingBlockCalls.with_norm use_norm = true ->
              import_normalization lib = inr tt
              /\ Forall (fun l => construct lib l = inr tt)
                   (ContractingBlockCalls.norms c_in c_out))
          /\ Forall (fun l => construct lib l = inr tt) layers
          /\ nn_Sequential lib layers = inr tt)
    /\ (nn_Module_init lib = inr tt ->
        construct lib (ContractingBlockCalls.convolution c_in kernel_size c_out stride
                         padding padding_mode) = inr tt ->
        (ContractingBlockCalls.with_norm use_norm = true ->
         import_normalization lib = inr tt
         /\ Forall (fun l => construct lib l = inr tt)
              (ContractingBlockCalls.norms c_in c_out)) ->
        construct lib (ContractingBlockCalls.activation_layer activation) = inr tt ->
        (forall layers, nn_Sequential lib layers = inr tt) ->
        ContractingBlockCalls.__init__ lib c_in use_norm kernel_size activation c_out
          stride padding padding_mode norm_type
        = ContractingBlock.__init__ c_in use_norm kernel_size activation c_out stride
            padding padding_mode norm_type
        /\ (ContractingBlockCalls.with_norm use_norm = true ->
            known_norm (ContractingBlockCalls.norm_key norm_type) = false ->
            ContractingBlockCalls.__init__ lib c_in use_norm kernel_size activation c_out
              stride padding padding_mode norm_type = inl KeyError)
        /\ (ContractingBlockCalls.with_norm use_norm = false
            \/ known_norm (ContractingBlockCalls.norm_key norm_type) = true ->
            exists layers,
              ContractingBlockCalls.__init__ lib c_in use_norm kernel_size activation
                c_out stride padding padding_mode norm_type = inr layers)).
Proof.
  intros lib c_in use_norm kernel_size activation c_out stride padding padding_mode
    norm_type.
  split; [intros e H; apply contracting_block_errors; exact H |].
  split; [intros l e Hn Hin Hl;
          eapply contracting_block_builds_the_four_norms; eassumption |].
  split.
  { intros Hn Hk.
    destruct (ContractingBlockCalls.__init__ lib c_in use_norm kernel_size activation c_out
                stride padding padding_mode norm_type) as [e | layers] eqn:H;
      [exists e; reflexivity |].
    destruct (@contracting_block_returns _ _ _ _ _ _ _ _ _ _ _ H) as (_ & _ & Hkey & _).
    destruct (Hkey Hn) as (_ & _ & Hk'). congruence. }
  split.
  { intros layers H.
    destruct (@contracting_block_returns _ _ _ _ _ _ _ _ _ _ _ H)
      as (Hpure & H0 & Hnorm & Hall & Hseq).
    rewrite contracting_block_init_layers in Hpure.
    pose proof (known_norm_switcher (ContractingBlock.effective_c_out c_in c_out)
                  (ContractingBlockCalls.norm_key norm_type)) as Hsw.
    assert (Hact : forall f,
               norm_features (ContractingBlockCalls.activation_layer activation)
               = Some f -> False).
    { intro f. unfold ContractingBlockCalls.activation_layer.
      destruct (String.eqb _ "relu"); discriminate. }
    assert (Hlast :
              (match activation with Some s => s | None => "relu"%string end)
              <> "relu"%string ->
              ContractingBlockCalls.activation_layer activation = LeakyReLU (2 / 10)).
    { unfold ContractingBlockCalls.activation_layer.
      destruct (String.eqb_spec
                  (match activation with Some s => s | None => "relu"%string end) "relu")
        as [Heq | Hne]; [intro Hc; contradiction | reflexivity]. }
    destruct (ContractingBlockCalls.with_norm use_norm).
    - cbn [bind Monad_result ret] in Hpure.
      destruct (ContractingBlock.switcher _ _) as [e0 | norm]; [discriminate |].
      injection Hpure as <-. destruct Hsw as (_ & _ & Hf).
      split; [exists norm; split; reflexivity |].
      split.
      { intros l f [<- | [<- | [<- | []]]] Hl.
        - cbn in Hl. discriminate.
        - apply Hf, Hl.
        - destruct (Hact f Hl). }
      split; [exact Hlast |].
      split; [exact H0 |].
      split; [intros _; destruct (Hnorm eq_refl) as (Hi & Hfo & _); split; assumption |].
      split; assumption.
    - cbn [ret Monad_result] in Hpure. injection Hpure as <-.
      split; [reflexivity |].
      split.
      { intros l f [<- | [<- | []]] Hl.
        - cbn in Hl. discriminate.
        - destruct (Hact f Hl). }
      split; [exact Hlast |].
      split; [exact H0 |].
      split; [discriminate |].
      split; assumption. }
  intros H0 Hc Hn Ha Hs.
  pose proof (@contracting_block_of_accepted_calls lib c_in use_norm kernel_size
                activation c_out stride padding padding_mode norm_type H0 Hc Hn Ha Hs)
    as Heq.
  split; [exact Heq |]. rewrite Heq, contracting_block_init_layers.
  pose proof (known_norm_switcher (ContractingBlock.effective_c_out c_in c_out)
                (ContractingBlockCalls.norm_key norm_type)) as Hsw.
  split.
  - intros -> Hk. cbn [bind Monad_result ret].
    destruct (ContractingBlock.switcher _ _) as [e0 | norm].
    + destruct Hsw as [-> _]. reflexivity.
    + destruct Hsw as (Hk' & _). congruence.
  - intros [-> | Hk]; [eexists; reflexivity |].
    destruct (ContractingBlockCalls.with_norm use_norm); [| eexists; reflexivity].
    cbn [bind Monad_result ret].
    destruct (ContractingBlock.switcher _ _) as [e0 | norm].
    + destruct Hsw as [_ Hk']. congruence.
    + eexists; reflexivity.
Qed.

Lemma contracting_block_construction_witness :
  ContractingBlockCalls.__init__ demo_constructors 3 None None None None None None None
    (Some "group"%string)
  = inl KeyError.
Proof.
  refine (proj1 (proj2 (proj2 (proj2 (proj2 (proj2
            (@contracting_block_construction demo_constructors 3 None None None None None
               None None (Some "group"%string)))))
            eq_refl eq_refl _ eq_refl (fun _ => eq_refl))) eq_refl eq_refl).
  intros _. split; [reflexivity | repeat constructor].
Defined.

(** A convolution of a negative number of channels: the exception of the
    constructor of torch is that of [__init__]. *)
Example contracting_block_of_negative_channels :
  ContractingBlockCalls.__init__ demo_constructors (-1) None None None None None None None
    None
  = inl (LibraryError "Trying to create tensor with negative dimension").
Proof. reflexivity. Qed.

(** ** The score of what [torch.cat] returned *)

Lemma mapM_total {A B : Type} (f : A -> result B) (l : list A) :
  (forall x, In x l -> exists y, f x = inr y) ->
  exists ys, mapM f l = inr ys /\ length ys = length l.
Proof.
  induction l as [| a l IH]; intro H.
  - exists []. split; reflexivity.
  - destruct (H a (or_introl eq_refl)) as [b Hb].
    destruct (IH (fun x Hx => H x (or_intror Hx))) as (ys & Hys & Hlen).
    exists (b :: ys). cbn [mapM length]. rewrite Hb, Hys, Hlen. split; reflexivity.
Qed.

Lemma torch_cat_rectangular (l : list (list (list xreal))) (preds : list (list xreal)) :
  torch_cat l = inr preds -> Forall (fun row => length row = width preds) preds.
Proof.
  unfold torch_cat. destruct l as [| m l]; [discriminate |].
  cbv zeta. destruct (forallb _ _) eqn:Hall; [| discriminate].
  intro H. injection H as <-.
  apply Forall_forall. intros row Hin.
  rewrite forallb_forall in Hall. apply Nat.eqb_eq, Hall, Hin.
Qed.

Lemma torch_mean0_width (preds : list (list xreal)) :
  length (torch_mean0 preds) = width preds.
Proof. unfold torch_mean0. rewrite length_map, length_seq. reflexivity. Qed.

(** X12. Whatever [torch.cat] returned of the list of predictions, the
    score computation of is.py raises nothing: a degenerate matrix gives
    NaN, not an exception (with no row at all the score is NaN).  That of
    is_.py raises nothing either when there is a row; with no row
    [torch.stack] raises on the empty list of divergences. *)
Theorem score_of_concatenated_predictions_raises_nothing :
  forall (l : list (list (list xreal))) (preds : list (list xreal)),
    torch_cat l = inr preds ->
    (exists s, IS.inception_score preds = inr s)
    /\ (preds <> [] -> exists s, IS_.inception_score preds = inr s)
    /\ (preds = [] ->
        IS.inception_score preds = inr NaN
        /\ IS_.inception_score preds = inl stack_of_nothing).
Proof.
  intros l preds Hcat.
  pose proof (torch_cat_rectangular _ Hcat) as Hrect. rewrite Forall_forall in Hrect.
  assert (Hnp : exists kls,
             mapM (fun p => scipy_entropy p (np_mean0 preds)) preds = inr kls
             /\ length kls = length preds).
  { apply mapM_total. intros p Hin. unfold scipy_entropy. cbv zeta.
    unfold np_mean0. rewrite torch_mean0_width, length_map, (Hrect p Hin).
    rewrite Nat.eqb_refl. cbn [negb]. eexists. reflexivity. }
  assert (Htorch : exists kls,
             mapM (fun u => d <- bcast1 xdiv u (torch_mean0 preds) ;;
                            t <- bcast1 xmul u (map xlog d) ;;
                            ret (xsum t)) preds = inr kls
             /\ length kls = length preds).
  { apply mapM_total. intros p Hin.
    rewrite torch_row_term by (rewrite torch_mean0_width; apply Hrect, Hin).
    eexists. reflexivity. }
  split; [| split].
  - destruct Hnp as (kls & Hk & _). unfold IS.inception_score. cbv zeta.
    rewrite Hk. eexists. reflexivity.
  - intro Hne. destruct Htorch as (kls & Hk & Hlen).
    unfold IS_.inception_score. cbv zeta. rewrite Hk. cbn [bind Monad_result].
    destruct kls as [| k kls];
      [destruct preds; [contradiction | discriminate] |].
    eexists. reflexivity.
  - intros ->. split; [| reflexivity].
    unfold IS.inception_score, xmean, xof_nat. cbn. rewrite Rsign_zero. reflexivity.
Qed.

Lemma score_of_concatenated_predictions_raises_nothing_witness :
  exists s, IS.inception_score [[Fin 1; Fin 0]; [NaN; PInf]] = inr s.
Proof.
  refine (proj1 (@score_of_concatenated_predictions_raises_nothing
                   [[[Fin 1; Fin 0]]; [[NaN; PInf]]] [[Fin 1; Fin 0]; [NaN; PInf]] _)).
  reflexivity.
Defined.

(** ** The batches the two [IS.forward] score *)

Section CountingLoop.
Context {E : Env}.
Variables (A S : Type) (count : S -> Z) (turns : S -> nat) (size : A -> result Z).
Variable s : Instance.
Variables (stop : S -> M bool) (body : A -> S -> M S).
Hypothesis Hstop :
  forall st w, stop st w = (inr (count st >=? n_samples (self w))%Z, w).
Hypothesis Hbody :
  forall x st w st1 w1,
    self w = s -> body x st w = (inr st1, w1) ->
    self w1 = s
    /\ exists b, size x = inr b /\ count st1 = (count st + b)%Z
                 /\ turns st1 = Datatypes.S (turns st).


End CountingLoop.

Section ISBodies.
Context {E : Env}.
Variables (gen : Generator) (gen_transforms gen_transforms_inv : Transform)
          (condition_indices : option CondIdx) (z_dim : option Z).



End ISBodies.







From Stdlib Require Import Permutation.

(** ** The order of the samples *)

Lemma Rsum_permutation (l l' : list R) : Permutation l l' -> Rsum l = Rsum l'.
Proof.
  induction 1 as [| a l l' _ IH | a b l | l l' l'' _ IH1 _ IH2];
    rewrite ?Rsum_cons; lra.
Qed.

Lemma score_formula_permutation (c : nat) (m m' : list (list R)) :
  m <> [] -> Forall (fun p => length p = c) m -> Permutation m m' ->
  inception_score_formula m' = inception_score_formula m.
Proof.
  intros Hne Hc Hperm.
  assert (Hne' : m' <> []).
  { intros ->. apply Permutation_sym, Permutation_nil in Hperm. contradiction. }
  assert (Hc' : Forall (fun p => length p = c) m')
    by (eapply Permutation_Forall; eassumption).
  assert (Hmean : mean_of_rows m' = mean_of_rows m).
  { rewrite (mean_of_rows_columns Hne Hc), (mean_of_rows_columns Hne' Hc').
    rewrite <- (Permutation_length Hperm). apply map_ext. intro j. f_equal.
    unfold column_sum. symmetry. apply Rsum_permutation, Permutation_map, Hperm. }
  unfold inception_score_formula. rewrite Hmean, <- (Permutation_length Hperm).
  do 2 f_equal. symmetry. apply Rsum_permutation, Permutation_map, Hperm.
Qed.

(** X14. In exact arithmetic, the score that the formula of the code
    denotes does not depend on the order of the samples (the loader shuffles
    them): on two matrices of probability rows that hold the same rows in
    two orders, the score of is.py is the same, and so is that of is_.py
    when no probability is zero.  The arithmetic is that of the model, over
    the real numbers, where a sum does not depend on the order of its terms;
    a sum of floats does, and the floats that the code returns for two
    orders can differ in their last digits. *)
Theorem score_of_shuffled_predictions :
  forall (c : nat) (m m' : list (list R)),
    m <> [] -> Forall (fun p => length p = c) m -> Forall distribution m ->
    Permutation m m' ->
    IS.inception_score (finite_matrix m') = IS.inception_score (finite_matrix m)
    /\ (Forall positive_distribution m ->
        IS_.inception_score (finite_matrix m') = IS_.inception_score (finite_matrix m)).
Proof.
  intros c m m' Hne Hc Hd Hperm.
  assert (Hne' : m' <> []).
  { intros ->. apply Permutation_sym, Permutation_nil in Hperm. contradiction. }
  assert (Hc' : Forall (fun p => length p = c) m')
    by (eapply Permutation_Forall; eassumption).
  assert (Hd' : Forall distribution m') by (eapply Permutation_Forall; eassumption).
  split.
  - rewrite (numpy_inception_score_formula Hne Hc Hd),
      (numpy_inception_score_formula Hne' Hc' Hd'),
      (score_formula_permutation Hne Hc Hperm).
    reflexivity.
  - intro Hp.
    assert (Hp' : Forall positive_distribution m')
      by (eapply Permutation_Forall; eassumption).
    rewrite (torch_inception_score_formula Hne Hc Hp),
      (torch_inception_score_formula Hne' Hc' Hp'),
      (score_formula_permutation Hne Hc Hperm).
    reflexivity.
Qed.

Lemma score_of_shuffled_predictions_witness :
  IS.inception_score (finite_matrix [[0; 1]; [1; 0]]%R)
  = IS.inception_score (finite_matrix sure_predictions).
Proof.
  destruct sure_predictions_rows as (Hne & Hc & Hd).
  refine (proj1 (@score_of_shuffled_predictions 2 sure_predictions [[0; 1]; [1; 0]]%R
                   Hne Hc Hd _)).
  apply perm_swap.
Defined.

(** ** Full batches *)

Lemma Zsum_firstn_repeat (b : Z) (n k : nat) :
  (k <= n)%nat -> Zsum (firstn k (repeat b n)) = (Z.of_nat k * b)%Z.
Proof.
  revert n. induction k as [| k IH]; intros n Hk.
  - cbn. lia.
  - destruct n as [| n]; [lia |].
    cbn [repeat firstn Zsum fold_right]. fold (Zsum (firstn k (repeat b n))).
    rewrite IH by lia. lia.
Qed.

(** X15. Over a loader all of whose yields hold [b] samples, with
    [n_samples] a positive multiple of [b] that the loader can supply,
    [FID.get_embeddings], when it returns, returns exactly [n_samples] rows
    of real embeddings: with full batches no sample beyond [n_samples] is
    embedded.  The Inception network and the transforms are taken to
    return one row per sample. *)
Theorem get_embeddings_of_full_batches :
  forall (E : Env) (dataloader : list (pyval Tensor)) (gen : Generator)
         (gen_transforms : Transform) (target_index : option Z)
         (condition_indices : option CondIdx) (z_dim : option Z)
         (w w' : World) (real_embeddings fake_embeddings : Matrix) (b q : Z),
    RowPerSample E ->
    Forall (fun x => batch_len (device (self w)) target_index x = inr b) dataloader ->
    (0 < b)%Z -> (0 < q)%Z -> n_samples (self w) = (q * b)%Z ->
    (q <= Z.of_nat (length dataloader))%Z ->
    FID.get_embeddings dataloader gen gen_transforms target_index condition_indices
                       z_dim w
    = (inr (real_embeddings, fake_embeddings), w') ->
    rows real_embeddings = n_samples (self w).
Proof.
  intros E dataloader gen gen_transforms target_index condition_indices z_dim
    w w' re fe b q HE Hall Hb Hq Hn Hlen H.
  set (sizes := repeat b (length dataloader)).
  assert (Hsizes : Forall2 (fun x b0 => batch_len (device (self w)) target_index x = inr b0)
                           dataloader sizes).
  { unfold sizes. clear - Hall. induction Hall as [| x dl Hx _ IH]; cbn; constructor;
      assumption. }
  unfold FID.get_embeddings in H.
  rewrite run_lift in H.
  destruct (invert_transforms gen_transforms) as [e | gti]; [discriminate |].
  rewrite !run_self_attr, run_lift in H.
  destruct (py_floordiv _ _) as [e | total]; [discriminate |].
  rewrite run_bind in H.
  match type of H with
  | context [for_until ?stop ?body dataloader ?st0 w] =>
      destruct (for_until stop body dataloader st0 w) as [[e | st] w1] eqn:Hloop
  end; [discriminate |].
  rewrite run_lift in H.
  destruct (torch_cat (FID.real_embeddings_list st)) as [e | re'] eqn:Hre;
    [discriminate |].
  rewrite run_lift in H.
  destruct (torch_cat (FID.fake_embeddings_list st)) as [e | fe'] eqn:Hfe;
    [discriminate |].
  rewrite run_last_ret in H. injection H as -> -> <-.
  destruct (@loop_consumes_a_prefix E gen gen_transforms gti target_index
              condition_indices z_dim (self w) HE dataloader sizes _ st w w1
              eq_refl Hsizes Hloop)
    as [_ (k & Hk & Hcur & Hbefore & Hend & Hrows & _)].
  cbn [FID.cur_samples FID.real_embeddings_list concat length rows Z.of_nat] in *.
  apply torch_cat_rows in Hre. destruct Hre as [-> _].
  assert (Hklen : (k <= length dataloader)%nat)
    by (unfold sizes in Hk; rewrite repeat_length in Hk; exact Hk).
  unfold sizes in Hcur, Hbefore, Hrows, Hend.
  rewrite (Zsum_firstn_repeat b Hklen) in Hcur, Hrows.
  rewrite repeat_length in Hend.
  unfold rows in *. rewrite Hrows, Hn.
  assert (Hlow : (q <= Z.of_nat k)%Z).
  { destruct Hend as [-> | Hend]; [exact Hlen |]. rewrite Hcur, Hn in Hend. nia. }
  assert (Hup : (Z.of_nat k <= q)%Z).
  { destruct k as [| k]; [lia |].
    specialize (Hbefore k ltac:(lia)).
    rewrite (@Zsum_firstn_repeat b (length dataloader) k) in Hbefore by lia.
    rewrite Hn in Hbefore. nia. }
  cbn. nia.
Qed.

Lemma get_embeddings_of_full_batches_witness :
  rows demo_real_embeddings = 4%Z.
Proof.
  apply (@get_embeddings_of_full_batches demo_env [PTensor [1; 2]; PTensor [3; 4]]%nat
           demo_gen demo_transform None None (Some 4%Z) (demo_world 4 2)
           (@Build_World demo_env (demo_fid 4 2) 2%nat)
           demo_real_embeddings demo_fake_embeddings 2%Z 2%Z).
  - exact demo_row_per_sample.
  - repeat constructor.
  - lia.
  - lia.
  - reflexivity.
  - cbn. lia.
  - reflexivity.
Defined.

(** ** The highest score *)

Lemma Rsum_one_point (v : R) (i : nat) :
  forall (n a : nat),
    Rsum (map (fun j => if Nat.eqb i j then v else 0%R) (seq a n))
    = (if (Nat.leb a i && Nat.ltb i (a + n))%bool then v else 0%R).
Proof.
  induction n as [| n IH]; intro a.
  - cbn [seq map]. rewrite Nat.add_0_r.
    destruct (Nat.leb_spec a i), (Nat.ltb_spec i a); cbn; try reflexivity; lia.
  - cbn [seq map]. rewrite Rsum_cons, IH.
    destruct (Nat.eqb_spec i a) as [-> | Hne].
    + rewrite Nat.leb_refl.
      destruct (Nat.leb_spec (S a) a); [lia |].
      destruct (Nat.ltb_spec a (a + S n)); [cbn; lra | lia].
    + destruct (Nat.leb_spec a i), (Nat.leb_spec (S a) i),
        (Nat.ltb_spec i (S a + n)), (Nat.ltb_spec i (a + S n));
        cbn; try lra; lia.
Qed.

Lemma Rsum_one_point_in (v : R) (i n : nat) :
  (i < n)%nat -> Rsum (map (fun j => if Nat.eqb i j then v else 0%R) (seq 0 n)) = v.
Proof.
  intro Hi. rewrite Rsum_one_point.
  destruct (Nat.leb_spec 0 i); [| lia].
  destruct (Nat.ltb_spec i (0 + n)); [reflexivity | lia].
Qed.

Lemma nth_one_hot_row (n i j : nat) :
  (j < n)%nat ->
  nth j (map (fun j0 => if Nat.eqb i j0 then 1%R else 0%R) (seq 0 n)) 0%R
  = (if Nat.eqb i j then 1%R else 0%R).
Proof.
  intro Hj.
  set (f := fun j0 : nat => if Nat.eqb i j0 then 1%R else 0%R).
  transitivity (nth j (map f (seq 0 n)) (f 0%nat)).
  - apply nth_indep. rewrite length_map, length_seq. exact Hj.
  - rewrite (map_nth f), seq_nth by exact Hj. reflexivity.
Qed.

Section OneHot.
Variable n : nat.
Hypothesis Hn : (0 < n)%nat.

Lemma one_hot_rows_not_empty : one_hot_rows n <> [].
Proof.
  unfold one_hot_rows. destruct n; [lia | discriminate].
Qed.

Lemma one_hot_rows_square : Forall (fun p => length p = n) (one_hot_rows n).
Proof.
  unfold one_hot_rows. apply Forall_map, Forall_forall. intros i _.
  rewrite length_map, length_seq. reflexivity.
Qed.

Lemma one_hot_rows_distributions : Forall distribution (one_hot_rows n).
Proof.
  unfold one_hot_rows. apply Forall_map, Forall_forall. intros i Hi.
  apply in_seq in Hi. split.
  - apply Forall_map, Forall_forall. intros j _. destruct (Nat.eqb i j); lra.
  - apply Rsum_one_point_in. lia.
Qed.

Lemma one_hot_column_sum (j : nat) : (j < n)%nat -> column_sum (one_hot_rows n) j = 1%R.
Proof.
  intro Hj. unfold column_sum, one_hot_rows. rewrite map_map.
  erewrite map_ext by (intro i; rewrite (nth_one_hot_row i Hj), Nat.eqb_sym; reflexivity).
  apply Rsum_one_point_in. exact Hj.
Qed.

Lemma one_hot_divergence (p : list R) :
  In p (one_hot_rows n) -> D_kl p (mean_of_rows (one_hot_rows n)) = ln (INR n).
Proof.
  intro Hin. unfold one_hot_rows in Hin. apply in_map_iff in Hin.
  destruct Hin as (i & <- & Hi). apply in_seq in Hi.
  pose proof (lt_0_INR _ Hn) as HN.
  rewrite (@D_kl_by_index n);
    [| rewrite length_map, length_seq; reflexivity
     | apply (mean_row_length one_hot_rows_not_empty one_hot_rows_square);
       apply one_hot_rows_distributions].
  transitivity (Rsum (map (fun j => if Nat.eqb i j then ln (INR n) else 0%R) (seq 0 n)));
    [| apply Rsum_one_point_in; lia].
  f_equal. apply map_ext_in.
  { intros j Hj. apply in_seq in Hj.
    rewrite nth_one_hot_row by lia.
    rewrite (nth_mean_of_rows one_hot_rows_not_empty one_hot_rows_square) by lia.
    rewrite one_hot_column_sum by lia.
    unfold one_hot_rows at 1. rewrite length_map, length_seq.
    unfold kl_term. destruct (Nat.eqb i j).
    + rewrite (@Rsign_pos 1) by lra.
      replace (1 / (1 / INR n))%R with (INR n) by (field; lra). lra.
    + rewrite Rsign_zero. reflexivity. }
Qed.

Lemma one_hot_score : inception_score_formula (one_hot_rows n) = INR n.
Proof.
  pose proof (lt_0_INR _ Hn) as HN.
  unfold inception_score_formula.
  rewrite (map_ext_in _ (fun _ => ln (INR n))) by (intros p Hp; apply one_hot_divergence, Hp).
  rewrite Rsum_map_const.
  assert (Hlen : length (one_hot_rows n) = n)
    by (unfold one_hot_rows; rewrite length_map, length_seq; reflexivity).
  rewrite Hlen.
  replace (INR n * ln (INR n) / INR n)%R with (ln (INR n)) by (field; lra).
  apply exp_ln, HN.
Qed.

End OneHot.

(** X16. In exact arithmetic, the score of is.py reaches the number of
    classes: on [n] samples over [n] classes, sample [i] predicted of class
    [i] with probability 1, the formula of the code denotes [n].  The
    arithmetic is that of the model, over the real numbers: the float that
    the code returns differs from it by the rounding of its logarithms and
    exponential, which the model leaves out. *)
Theorem one_class_per_sample_scores_the_classes :
  forall n : nat,
    (0 < n)%nat ->
    IS.inception_score (finite_matrix (one_hot_rows n)) = inr (Fin (INR n)).
Proof.
  intros n Hn.
  rewrite (@numpy_inception_score_formula n (one_hot_rows n)).
  - rewrite (one_hot_score Hn). reflexivity.
  - apply one_hot_rows_not_empty, Hn.
  - apply one_hot_rows_square.
  - apply one_hot_rows_distributions; try exact Hn.
Qed.

Lemma one_class_per_sample_scores_the_classes_witness :
  IS.inception_score (finite_matrix (one_hot_rows 3)) = inr (Fin (INR 3)).
Proof.
  apply one_class_per_sample_scores_the_classes. lia.
Defined.

(** ** A batch size of zero *)

(** X17. On an instance whose [batch_size] is 0, [FID.get_embeddings]
    raises [ZeroDivisionError] whatever the loader, the generator and the
    other arguments are, once [invert_transforms] has returned: the
    division [n_samples // batch_size], which only sizes the progress bar,
    is evaluated before the first yield is looked at.  So do
    [FID.forward] and the two [IS.forward] when the loader gets built. *)
Theorem zero_batch_size_divides_by_zero :
  forall (E : Env) (dataset : Dataset) (dataloader : list (pyval Tensor))
         (gen : Generator) (gen_transforms gen_transforms_inv : Transform)
         (target_index : option Z) (condition_indices : option CondIdx)
         (z_dim : option Z) (w : World),
    batch_size (self w) = 0%Z ->
    (invert_transforms gen_transforms = inr gen_transforms_inv ->
     FID.get_embeddings dataloader gen gen_transforms target_index condition_indices
                        z_dim w = (inl ZeroDivisionError, w))
    /\ (forall g, DataLoader dataset 0 (rng w) = (inr dataloader, g) ->
        (invert_transforms gen_transforms = inr gen_transforms_inv ->
         fst (FID.forward dataset gen gen_transforms target_index condition_indices
                          z_dim w) = inl ZeroDivisionError
         /\ fst (IS_.forward dataset gen gen_transforms target_index condition_indices
                             z_dim w) = inl ZeroDivisionError)
        /\ fst (IS.forward dataset gen target_index condition_indices z_dim w)
           = inl ZeroDivisionError).
Proof.
  intros E dataset dataloader gen gen_transforms gen_transforms_inv target_index
    condition_indices z_dim w Hb.
  assert (Hge : forall w0 : World,
             batch_size (self w0) = 0%Z ->
             invert_transforms gen_transforms = inr gen_transforms_inv ->
             FID.get_embeddings dataloader gen gen_transforms target_index
                                condition_indices z_dim w0
             = (inl ZeroDivisionError, w0)).
  { intros w0 Hb0 Hinv. unfold FID.get_embeddings.
    rewrite run_lift, Hinv, !run_self_attr, run_lift, Hb0. reflexivity. }
  split; [| intros g Hdl; split].
  - apply Hge, Hb.
  - intro Hinv. split.
    { unfold FID.forward.
      rewrite run_self_attr, run_with_rng, Hb, Hdl, run_self_attr.
      destruct (String.eqb _ "cuda" && cuda_is_available)%bool;
        [rewrite run_lift; unfold torch_cuda_empty_cache | rewrite run_ret];
        rewrite run_bind, Hge by (exact Hb || exact Hinv); reflexivity. }
    unfold IS_.forward.
    rewrite run_self_attr, run_with_rng, Hb, Hdl, run_lift, Hinv, run_self_attr.
    destruct (String.eqb _ "cuda" && cuda_is_available)%bool;
      [rewrite run_lift; unfold torch_cuda_empty_cache | rewrite run_ret];
      rewrite !run_self_attr, run_lift; cbn [self]; rewrite Hb; reflexivity.
  - unfold IS.forward. cbv zeta.
    rewrite run_self_attr, run_with_rng, Hb, Hdl, !run_self_attr, run_lift.
    cbn [self]. rewrite Hb. reflexivity.
Qed.

Lemma zero_batch_size_divides_by_zero_witness :
  @FID.get_embeddings demo_env demo_loader demo_gen demo_transform None None None
    (demo_world 3 0)
  = (inl ZeroDivisionError, demo_world 3 0).
Proof.
  refine (proj1 (@zero_batch_size_divides_by_zero demo_env demo_loader demo_loader
                   demo_gen demo_transform demo_transform None None None
                   (demo_world 3 0) _) _); reflexivity.
Defined.
